(** * OpenAPI 3 parser: a shallow embedding of the overlay and of the parser

    The development follows the two source modules:
    - the typed overlay over the parsed document tree with the local-pointer
      resolver and the schema classifier ([resolveRef], [resolveSchema],
      [toSchemaOrRef], the node getters);
    - the parser class [OAS3Parser] that turns the overlay into the
      intermediate representation (interfaces, types, enums, unions, rules).

    Source ranges ([loc], [keyRange], [propRange], [encodeRange]) are left out
    of the model: no function of the parser branches on them. *)

From Stdlib Require Import String Ascii List ZArith NArith Bool Lia.
From Stdlib Require Import Permutation PrimFloat Uint63.
Import ListNotations.
Open Scope string_scope.

(** ** Outcomes: a value, or a thrown JavaScript exception *)

Inductive result (A : Type) : Type :=
| OK (a : A)
| Throw (message : string).
Arguments OK {A} a.
Arguments Throw {A} message.

Definition rbind {A B : Type} (r : result A) (k : A -> result B) : result B :=
  match r with
  | OK a => k a
  | Throw m => Throw m
  end.

Declare Scope result_scope.
Delimit Scope result_scope with result.
Notation "'let?' x := r 'in' k" := (rbind r (fun x => k))
  (at level 10, x pattern, r at level 100, k at level 200) : result_scope.
Open Scope result_scope.

Fixpoint rmap {A B : Type} (f : A -> result B) (l : list A) : result (list B) :=
  match l with
  | [] => OK []
  | x :: xs =>
      let? y := f x in
      let? ys := rmap f xs in
      OK (y :: ys)
  end.

(** ** JavaScript strings *)

Definition startsWith (s prefix : string) : bool := String.prefix prefix s.

(** [s.split(sep)] for a one-character separator. *)
Fixpoint split (sep : ascii) (s : string) : list string :=
  match s with
  | EmptyString => [EmptyString]
  | String c s' =>
      if Ascii.eqb c sep then EmptyString :: split sep s'
      else match split sep s' with
           | [] => [String c EmptyString]
           | segment :: segments => String c segment :: segments
           end
  end.

(** [s.substring(n)]. *)
Definition substring_from (n : nat) (s : string) : string :=
  String.substring n (String.length s - n) s.

(** ** The parsed document tree

    A literal holds a string, a number (a binary64 float, as in JavaScript),
    a boolean or null.  An object node keeps its properties in document
    order, duplicates included. *)

Inductive Lit : Type :=
| LString (s : string)
| LNumber (n : float)
| LBoolean (b : bool)
| LNull.

#[warnings="-register-all"]
Inductive ASTNode : Type :=
| Literal (value : Lit)
| Array (children : list ASTNode)
| Object (children : list (string * ASTNode)).

Definition isObject (n : ASTNode) : bool :=
  match n with Object _ => true | _ => false end.
Definition isArray (n : ASTNode) : bool :=
  match n with Array _ => true | _ => false end.
Definition isLiteral (n : ASTNode) : bool :=
  match n with Literal _ => true | _ => false end.

(** [children.find((n) => n.key.value === key)?.value] *)
Fixpoint find_child (children : list (string * ASTNode)) (key : string)
  : option ASTNode :=
  match children with
  | [] => None
  | (k, v) :: rest => if String.eqb k key then Some v else find_child rest key
  end.

(** ** The reference resolver *)

Definition cannot_resolve_ref (ref : string) : string :=
  "Cannot resolve ref '" ++ ref ++ "'".

(** The body of the [for (const segment of ref.split('/'))] loop of
    [resolveRef], with the loop variable [result] as [cur]. *)
Fixpoint resolveRef_loop (root : ASTNode) (ref : string) (cur : ASTNode)
  (segments : list string) : result ASTNode :=
  match segments with
  | [] => OK cur
  | segment :: rest =>
      if String.eqb segment "#" then resolveRef_loop root ref root rest
      else match cur with
           | Object children =>
               match find_child children segment with
               | None => Throw (cannot_resolve_ref ref)
               | Some child => resolveRef_loop root ref child rest
               end
           | _ => Throw (cannot_resolve_ref ref)
           end
  end.

Definition resolveRef (root : ASTNode) (ref : string) : result ASTNode :=
  if negb (startsWith ref "#") then Throw (cannot_resolve_ref ref)
  else resolveRef_loop root ref root (split "/" ref).


(** ** The base class of the overlay

    [DocumentNode] and [LiteralNode] belong to the document-tree package the
    overlay is built on; the getters below render its contract: a property
    is looked up by key among the children of an object node (first match),
    a child or literal view wraps the property's value, [getArray] gives
    the items of an array node and nothing ([undefined]) for a property
    that is missing or no array, and the value of a literal view can only
    be read off a literal node. A view is represented by the tree node it
    wraps. *)

Definition getProperty (node : ASTNode) (key : string) : option ASTNode :=
  match node with
  | Object children => find_child children key
  | _ => None
  end.

Definition getChild (node : ASTNode) (key : string) : option ASTNode :=
  getProperty node key.

Definition getLiteral (node : ASTNode) (key : string) : option ASTNode :=
  getChild node key.

Definition getArray (node : ASTNode) (key : string)
  : result (option (list ASTNode)) :=
  match getProperty node key with
  | Some (Array children) => OK (Some children)
  | _ => OK None
  end.

Definition keys (node : ASTNode) : list string :=
  match node with
  | Object children => map fst children
  | _ => []
  end.

(** [literal.value] *)
Definition LiteralNode_value (node : ASTNode) : result Lit :=
  match node with
  | Literal v => OK v
  | _ => Throw "Cannot parse literal"
  end.

(** [literal?.value], with [None] for [undefined]. *)
Definition opt_value (literal : option ASTNode) : result (option Lit) :=
  match literal with
  | None => OK None
  | Some node => let? v := LiteralNode_value node in OK (Some v)
  end.

(** [literal!.value]: reading [value] off [undefined] is a TypeError. *)
Definition TypeError : string := "TypeError".

Definition bang_value (literal : option ASTNode) : result Lit :=
  match literal with
  | None => Throw TypeError
  | Some node => LiteralNode_value node
  end.

(** JavaScript truthiness of a literal value, and of a possibly undefined
    one. *)
Definition truthy (v : Lit) : bool :=
  match v with
  | LString s => negb (String.eqb s "")
  | LNumber n => negb (PrimFloat.is_zero n || PrimFloat.is_nan n)
  | LBoolean b => b
  | LNull => false
  end.

Definition opt_truthy (v : option Lit) : bool :=
  match v with
  | None => false
  | Some l => truthy l
  end.

(** ** References and child-or-reference fields *)

(** [isRef]: an object node with a [$ref] property. *)
Definition isRef (node : ASTNode) : bool :=
  match node with
  | Object children => existsb (fun n => String.eqb (fst n) "$ref") children
  | _ => false
  end.

(** [T | RefNode] *)
Inductive OrRef (T : Type) : Type :=
| Item (item : T)
| RefNode (node : ASTNode).
Arguments Item {T} item.
Arguments RefNode {T} node.

Definition isRefNode {T : Type} (x : OrRef T) : bool :=
  match x with RefNode _ => true | Item _ => false end.

(** [ref.$ref.value] *)
Definition ref_value (node : ASTNode) : result Lit :=
  bang_value (getLiteral node "$ref").

(** [resolveRef(root, ref.$ref.value)]: on a value that is not a string the
    call [ref.startsWith] is a TypeError. *)
Definition resolveRefNode (root node : ASTNode) : result ASTNode :=
  let? v := ref_value node in
  match v with
  | LString ref => resolveRef root ref
  | _ => Throw TypeError
  end.

(** [refRange] walks the same way as [resolveRef] and returns a range. *)
Definition refRange (root : ASTNode) (ref : string) : result unit :=
  let? _ := resolveRef root ref in OK tt.

Definition getChildOrRef (node : ASTNode) (key : string)
  : option (OrRef ASTNode) :=
  match getProperty node key with
  | None => None
  | Some value => if isRef value then Some (RefNode value) else Some (Item value)
  end.

(** [resolve(root, itemOrRef, Node)] for the views that wrap the node. *)
Definition resolve (root : ASTNode) (itemOrRef : OrRef ASTNode)
  : result ASTNode :=
  match itemOrRef with
  | RefNode node => resolveRefNode root node
  | Item item => OK item
  end.

Definition resolveParam (root : ASTNode) (paramOrRef : OrRef ASTNode)
  : result (option ASTNode) :=
  match paramOrRef with
  | Item param => OK (Some param)
  | RefNode ref =>
      let? node := resolveRefNode root ref in
      if negb (isObject node) then OK None else OK (Some node)
  end.

(** ** Schema variants and the classifier *)

Inductive SchemaNodeUnion : Type :=
| StringSchema (node : ASTNode)
| NumberSchema (node : ASTNode)
| BooleanSchema (node : ASTNode)
| ArraySchema (node : ASTNode)
| ObjectSchema (node : ASTNode).

Definition schema_node (s : SchemaNodeUnion) : ASTNode :=
  match s with
  | StringSchema n | NumberSchema n | BooleanSchema n
  | ArraySchema n | ObjectSchema n => n
  end.

Definition nodeType (s : SchemaNodeUnion) : string :=
  match s with
  | StringSchema _ => "StringSchema"
  | NumberSchema _ => "NumberSchema"
  | BooleanSchema _ => "BooleanSchema"
  | ArraySchema _ => "ArraySchema"
  | ObjectSchema _ => "ObjectSchema"
  end.

Definition SchemaOrRef : Type := OrRef SchemaNodeUnion.

Definition resolveSchema (root : ASTNode) (schemaOrRef : SchemaOrRef)
  : result (option SchemaNodeUnion) :=
  match schemaOrRef with
  | Item schema => OK (Some schema)
  | RefNode ref =>
      let? node := resolveRefNode root ref in
      match node with
      | Object children =>
          match find_child children "type" with
          | None =>
              (* Probably an allOf, anyOf, or oneOf *)
              OK (Some (ObjectSchema node))
          | Some (Literal (LString type)) =>
              if String.eqb type "string" then OK (Some (StringSchema node))
              else if String.eqb type "integer" then OK (Some (NumberSchema node))
              else if String.eqb type "number" then OK (Some (NumberSchema node))
              else if String.eqb type "boolean" then OK (Some (BooleanSchema node))
              else if String.eqb type "array" then OK (Some (ArraySchema node))
              else if String.eqb type "object" then OK (Some (ObjectSchema node))
              else OK None
          | Some _ => OK None
          end
      | _ => OK None
      end
  end.

Definition unknown_schema : string := "Unknown schema definition".

Definition toSchemaOrRef (value : option ASTNode) : result (option SchemaOrRef) :=
  match value with
  | None => OK None
  | Some value =>
      if isRef value then OK (Some (RefNode value))
      else match value with
           | Object children =>
               match find_child children "type" with
               | None =>
                   (* Probably an allOf, anyOf, or oneOf *)
                   OK (Some (Item (ObjectSchema value)))
               | Some (Literal (LString type)) =>
                   if String.eqb type "string"
                   then OK (Some (Item (StringSchema value)))
                   else if String.eqb type "number"
                   then OK (Some (Item (NumberSchema value)))
                   else if String.eqb type "integer"
                   then OK (Some (Item (NumberSchema value)))
                   else if String.eqb type "boolean"
                   then OK (Some (Item (BooleanSchema value)))
                   else if String.eqb type "array"
                   then OK (Some (Item (ArraySchema value)))
                   else if String.eqb type "object"
                   then OK (Some (Item (ObjectSchema value)))
                   else Throw unknown_schema
               | Some _ => Throw unknown_schema
               end
           | _ => Throw unknown_schema
           end
  end.

(** ** Security scheme variants *)

Inductive SecuritySchemeNode : Type :=
| HttpSecurityScheme (node : ASTNode)
| ApiKeySecurityScheme (node : ASTNode)
| OAuth2SecurityScheme (node : ASTNode)
| OpenIdConnectSecurityScheme (node : ASTNode).

Definition security_scheme_node (s : SecuritySchemeNode) : ASTNode :=
  match s with
  | HttpSecurityScheme n | ApiKeySecurityScheme n
  | OAuth2SecurityScheme n | OpenIdConnectSecurityScheme n => n
  end.

Definition unknown_security_scheme : string := "Unknown security scheme type".

Definition toSecuritySchemeOrRef (value : option ASTNode)
  : result (option (OrRef SecuritySchemeNode)) :=
  match value with
  | None => OK None
  | Some value =>
      if isRef value then OK (Some (RefNode value))
      else match value with
           | Object children =>
               match find_child children "type" with
               | Some (Literal (LString type)) =>
                   if String.eqb type "apiKey"
                   then OK (Some (Item (ApiKeySecurityScheme value)))
                   else if String.eqb type "http"
                   then OK (Some (Item (HttpSecurityScheme value)))
                   else if String.eqb type "oauth2"
                   then OK (Some (Item (OAuth2SecurityScheme value)))
                   else if String.eqb type "openIdConnect"
                   then OK (Some (Item (OpenIdConnectSecurityScheme value)))
                   else Throw unknown_security_scheme
               | _ => Throw unknown_security_scheme
               end
           | _ => Throw unknown_security_scheme
           end
  end.

(** ** JavaScript objects used as maps

    An object keeps its own string keys in insertion order; writing an
    existing key replaces the value and keeps the key's place, which is
    what [{ ...acc, [key]: value }] does. [Object.keys] lists the keys that
    are array indices first, in ascending numeric order, then the others in
    insertion order. *)

Definition JSObject (V : Type) : Type := list (string * V).

Fixpoint obj_set {V : Type} (o : JSObject V) (key : string) (value : V)
  : JSObject V :=
  match o with
  | [] => [(key, value)]
  | (k, v) :: rest =>
      if String.eqb k key then (k, value) :: rest
      else (k, v) :: obj_set rest key value
  end.

Fixpoint obj_get {V : Type} (o : JSObject V) (key : string) : option V :=
  match o with
  | [] => None
  | (k, v) :: rest => if String.eqb k key then Some v else obj_get rest key
  end.

Definition is_digit (c : ascii) : bool :=
  (48 <=? N_of_ascii c)%N && (N_of_ascii c <=? 57)%N.

Fixpoint digits_value (s : string) (acc : N) : option N :=
  match s with
  | EmptyString => Some acc
  | String c s' =>
      if is_digit c then digits_value s' (10 * acc + (N_of_ascii c - 48))%N
      else None
  end.

(** The array index a key denotes, when it is the canonical decimal form of
    an integer below [2^32 - 1]. *)
Definition array_index (key : string) : option N :=
  match key with
  | EmptyString => None
  | String c rest =>
      if Ascii.eqb c "0" && negb (String.eqb rest "") then None
      else match digits_value key 0 with
           | Some n => if (n <? 4294967295)%N then Some n else None
           | None => None
           end
  end.

Fixpoint insert_index (k : N * string) (l : list (N * string))
  : list (N * string) :=
  match l with
  | [] => [k]
  | h :: t => if (fst k <=? fst h)%N then k :: l else h :: insert_index k t
  end.

Definition sort_indices (l : list (N * string)) : list (N * string) :=
  fold_right insert_index [] l.

Fixpoint index_keys (ks : list string) : list (N * string) :=
  match ks with
  | [] => []
  | k :: rest =>
      match array_index k with
      | Some n => (n, k) :: index_keys rest
      | None => index_keys rest
      end
  end.

Definition is_plain_key (k : string) : bool :=
  match array_index k with None => true | Some _ => false end.

Definition Object_keys {V : Type} (o : JSObject V) : list string :=
  map snd (sort_indices (index_keys (map fst o)))
  ++ filter is_plain_key (map fst o).

(** [Object.keys(o).map((name) => o[name])] *)
Definition Object_values {V : Type} (o : JSObject V) : list V :=
  flat_map (fun name => match obj_get o name with
                        | Some v => [v]
                        | None => []
                        end) (Object_keys o).

(** [items.reduce((acc, item) => ({ ...acc, [name(item)]: item }), {})] *)
Definition by_name {V : Type} (name : V -> string) (items : list V) : JSObject V :=
  fold_left (fun acc item => obj_set acc (name item) item) items [].

(** ** JSON values *)

#[warnings="-register-all"]
Inductive Json : Type :=
| JLit (value : Lit)
| JArray (items : list Json)
| JObject (properties : JSObject Json).

Fixpoint toJson (node : ASTNode) : Json :=
  match node with
  | Literal value => JLit value
  | Object children =>
      JObject (fold_left
                 (fun acc child =>
                    match child with
                    | (key, value) => obj_set acc key (toJson value)
                    end) children [])
  | Array children => JArray (map toJson children)
  end.

(** ** The typed views: one module per overlay class, one definition per
    getter the parser reads *)

Module OpenAPINode.
Definition info (n : ASTNode) := getChild n "info".
Definition paths (n : ASTNode) := getChild n "paths".
Definition components (n : ASTNode) := getChild n "components".
Definition security (n : ASTNode) := getArray n "security".
End OpenAPINode.

Module InfoNode.
Definition title (n : ASTNode) := getLiteral n "title".
Definition version (n : ASTNode) := getLiteral n "version".
End InfoNode.

Module ComponentsNode.
Definition schemas (n : ASTNode) := getChild n "schemas".
Definition securitySchemes (n : ASTNode) := getChild n "securitySchemes".
End ComponentsNode.

Module PathsNode.
Definition read (n : ASTNode) (key : string) := getChildOrRef n key.
End PathsNode.

(** The parameters of a path item or of an operation. *)
Definition parameters_getter (n : ASTNode)
  : result (option (list (OrRef ASTNode))) :=
  match getProperty n "parameters" with
  | None => OK None
  | Some (Array children) =>
      OK (Some (map (fun value => if isRef value then RefNode value
                                  else Item value) children))
  | Some _ => Throw "Value is not an array"
  end.

Definition http_verbs : list string :=
  ["get"; "put"; "post"; "delete"; "options"; "head"; "patch"; "trace"].

(** A member of a view that is defined and is no operation node: a literal
    view, an array of views, the [nodeType] string or a method. The parser
    reads [tags], [operationId], [security], [parameters], [summary],
    [description], [requestBody] and [responses] off such a member and
    finds none of them, as on a node without properties, which stands for
    it. *)
Definition not_an_operation : ASTNode := Object [].

(** The members every overlay class has besides its getters: the
    [nodeType] field and the method [getChildOrRef] of [DocumentNode].
    The names the base class of the document-tree package defines are not
    listed: a document that uses one of them as a key of a path item is
    read as if the member were [undefined]. *)
Definition class_members : list string := ["nodeType"; "getChildOrRef"].

(** [ref[key]] on a [RefNode], as the loop of [allOperations] reads it off
    a path item given by reference: the [$ref] getter gives a literal view,
    and a key that names no member gives [undefined], whose [tags] cannot
    be read: the TypeError the source ends in is raised here. *)
Module RefNode.
Definition member (ref : ASTNode) (key : string) : result ASTNode :=
  if String.eqb key "$ref" then
    match getLiteral ref key with
    | Some _ => OK not_an_operation
    | None => Throw TypeError
    end
  else if existsb (String.eqb key) class_members then OK not_an_operation
  else Throw TypeError.
End RefNode.

Module PathItemNode.
Definition parameters := parameters_getter.

(** [pathItem[verb]]: the eight HTTP verbs are getters that give an
    operation node; [summary] and [description] are getters that give a
    literal view and [servers] one that gives an array, or [undefined] when
    the property is no array: members that are no operations. For any
    other key the member is [undefined], and the source ends in a TypeError
    when it reads the tags of that member; the model raises it here. *)
Definition member (pathItem : ASTNode) (verb : string) : result ASTNode :=
  if existsb (String.eqb verb) http_verbs then
    match getChild pathItem verb with
    | Some operation => OK operation
    | None => Throw TypeError
    end
  else if String.eqb verb "summary" || String.eqb verb "description" then
    match getLiteral pathItem verb with
    | Some _ => OK not_an_operation
    | None => Throw TypeError
    end
  else if String.eqb verb "servers" then
    match getArray pathItem verb with
    | OK (Some _) => OK not_an_operation
    | _ => Throw TypeError
    end
  else if existsb (String.eqb verb) class_members then OK not_an_operation
  else Throw TypeError.
End PathItemNode.

Module OperationNode.
Definition tags (n : ASTNode) := getArray n "tags".
Definition summary (n : ASTNode) := getLiteral n "summary".
Definition description (n : ASTNode) := getLiteral n "description".
Definition operationId (n : ASTNode) := getLiteral n "operationId".
Definition parameters := parameters_getter.
Definition requestBody (n : ASTNode) := getChildOrRef n "requestBody".
Definition responses (n : ASTNode) := getChild n "responses".
Definition security (n : ASTNode) := getArray n "security".
End OperationNode.

Module ParameterNode.
Definition name (n : ASTNode) := getLiteral n "name".
Definition in_ (n : ASTNode) := getLiteral n "in".
Definition description (n : ASTNode) := getLiteral n "description".
Definition required (n : ASTNode) := getLiteral n "required".
Definition style (n : ASTNode) := getLiteral n "style".
Definition explode (n : ASTNode) := getLiteral n "explode".
Definition schema (n : ASTNode) := toSchemaOrRef (getProperty n "schema").
End ParameterNode.

Module RequestBodyNode.
Definition description (n : ASTNode) := getLiteral n "description".
Definition content (n : ASTNode) := getChild n "content".
Definition required (n : ASTNode) := getLiteral n "required".
End RequestBodyNode.

Module MediaTypeNode.
Definition schema (n : ASTNode) := toSchemaOrRef (getProperty n "schema").
End MediaTypeNode.

Module MediaTypeIndexNode.
Definition read (n : ASTNode) (key : string) := getChild n key.
End MediaTypeIndexNode.

Module ResponsesNode.
Definition read (n : ASTNode) (key : string) := getChildOrRef n key.
End ResponsesNode.

Module ResponseNode.
Definition content (n : ASTNode) := getChild n "content".
End ResponseNode.

Module SchemaNode.
Definition description (n : ASTNode) := getLiteral n "description".
End SchemaNode.

Module StringSchemaNode.
Definition type (n : ASTNode) := getLiteral n "type".
Definition default (n : ASTNode) := getLiteral n "default".
Definition const (n : ASTNode) := getLiteral n "const".
Definition minLength (n : ASTNode) := getLiteral n "minLength".
Definition maxLength (n : ASTNode) := getLiteral n "maxLength".
Definition pattern (n : ASTNode) := getLiteral n "pattern".
Definition format (n : ASTNode) := getLiteral n "format".
Definition enum (n : ASTNode) := getArray n "enum".
End StringSchemaNode.

Module NumberSchemaNode.
Definition type (n : ASTNode) := getLiteral n "type".
Definition default (n : ASTNode) := getLiteral n "default".
Definition const (n : ASTNode) := getLiteral n "const".
Definition multipleOf (n : ASTNode) := getLiteral n "multipleOf".
Definition minimum (n : ASTNode) := getLiteral n "minimum".
Definition exclusiveMinimum (n : ASTNode) := getLiteral n "exclusiveMinimum".
Definition maximum (n : ASTNode) := getLiteral n "maximum".
Definition exclusiveMaximum (n : ASTNode) := getLiteral n "exclusiveMaximum".
Definition format (n : ASTNode) := getLiteral n "format".
End NumberSchemaNode.

Module BooleanSchemaNode.
Definition type (n : ASTNode) := getLiteral n "type".
Definition default (n : ASTNode) := getLiteral n "default".
Definition const (n : ASTNode) := getLiteral n "const".
End BooleanSchemaNode.

Module ArraySchemaNode.
Definition items (n : ASTNode) := toSchemaOrRef (getProperty n "items").
Definition minItems (n : ASTNode) := getLiteral n "minItems".
Definition maxItems (n : ASTNode) := getLiteral n "maxItems".
Definition uniqueItems (n : ASTNode) := getLiteral n "uniqueItems".
End ArraySchemaNode.

(** [isObjectSchemaOrRef] *)
Definition isObjectSchemaOrRef (node : option SchemaOrRef) : bool :=
  match node with
  | Some (Item (ObjectSchema _)) => true
  | Some (RefNode _) => true
  | _ => false
  end.

(** [prop.children.map(toSchemaOrRef).filter(isObjectSchemaOrRef)] *)
Definition object_schemas_or_refs (children : list ASTNode)
  : result (list SchemaOrRef) :=
  let? mapped := rmap (fun child => toSchemaOrRef (Some child)) children in
  OK (flat_map (fun node => if isObjectSchemaOrRef node
                            then match node with Some x => [x] | None => [] end
                            else []) mapped).

(** What the [additionalProperties] getter can hand back. *)
Inductive AdditionalProperties : Type :=
| AdditionalLiteral (literal : ASTNode)
| AdditionalSchema (schema : SchemaOrRef).

Module ObjectSchemaNode.
Definition description (n : ASTNode) := getLiteral n "description".
Definition required (n : ASTNode) := getArray n "required".
Definition properties (n : ASTNode) := getChild n "properties".

Definition allOf (n : ASTNode) : result (option (list SchemaOrRef)) :=
  match getProperty n "allOf" with
  | Some (Array children) =>
      let? l := object_schemas_or_refs children in OK (Some l)
  | _ => OK None
  end.

Definition oneOf (n : ASTNode) : result (option (list SchemaOrRef)) :=
  match getProperty n "oneOf" with
  | Some (Array children) =>
      let? l := object_schemas_or_refs children in OK (Some l)
  | _ => OK None
  end.

Definition anyOf (n : ASTNode) : result (option (list SchemaOrRef)) :=
  match getProperty n "oneOf" with
  | Some (Array children) =>
      let? l := object_schemas_or_refs children in OK (Some l)
  | _ => OK None
  end.

Definition minProperties (n : ASTNode) := getLiteral n "minProperties".
Definition maxProperties (n : ASTNode) := getLiteral n "maxProperties".

Definition additionalProperties (n : ASTNode)
  : result (option AdditionalProperties) :=
  match getProperty n "additionalProperties" with
  | Some (Literal _) =>
      match getLiteral n "additionalProperties" with
      | Some literal => OK (Some (AdditionalLiteral literal))
      | None => OK None
      end
  | Some (Object children) =>
      let? schema := toSchemaOrRef (Some (Object children)) in
      match schema with
      | Some s => OK (Some (AdditionalSchema s))
      | None => OK None
      end
  | _ => OK None
  end.
End ObjectSchemaNode.

Module PropertiesNode.
Definition read (n : ASTNode) (key : string) :=
  toSchemaOrRef (getProperty n key).
End PropertiesNode.

Module SchemaIndexNode.
Definition read (n : ASTNode) (key : string) :=
  toSchemaOrRef (getProperty n key).
End SchemaIndexNode.

Module SecuritySchemeIndexNode.
Definition read (n : ASTNode) (key : string) :=
  toSecuritySchemeOrRef (getProperty n key).
End SecuritySchemeIndexNode.

Module SecurityRequirementNode.
Definition read (n : ASTNode) (key : string) := getArray n key.
End SecurityRequirementNode.

Module SecuritySchemeNodes.
Definition type (n : ASTNode) := getLiteral n "type".
Definition description (n : ASTNode) := getLiteral n "description".
Definition name (n : ASTNode) := getLiteral n "name".
Definition in_ (n : ASTNode) := getLiteral n "in".
Definition flows (n : ASTNode) := getChild n "flows".
End SecuritySchemeNodes.

Module OAuthFlowsNode.
Definition implicit (n : ASTNode) := getChild n "implicit".
Definition password (n : ASTNode) := getChild n "password".
Definition clientCredentials (n : ASTNode) := getChild n "clientCredentials".
Definition authorizationCode (n : ASTNode) := getChild n "authorizationCode".
End OAuthFlowsNode.

Module OAuthFlowNode.
Definition refreshUrl (n : ASTNode) := getLiteral n "refreshUrl".
Definition scopes (n : ASTNode) := getChild n "scopes".
Definition authorizationUrl (n : ASTNode) := getLiteral n "authorizationUrl".
Definition tokenUrl (n : ASTNode) := getLiteral n "tokenUrl".
End OAuthFlowNode.

Module StringMappingNode.
Definition read (n : ASTNode) (key : string) := getLiteral n key.
End StringMappingNode.

(** ** The intermediate representation

    The records carry the fields of the emitted entities without their
    source ranges. A [Scalar] is represented by its [value]; a value the
    parser copies from a literal node is a [Lit], a value it computes is a
    [string] or a number. *)

Inductive ValidationRule : Type :=
| Required
| StringMaxLength (length : float)
| StringMinLength (length : float)
| StringPattern (pattern : string)
| StringFormat (format : string)
| StringEnum (values : list Lit)
| NumberMultipleOf (value : float)
| NumberGT (value : float)
| NumberGTE (value : float)
| NumberLT (value : float)
| NumberLTE (value : float)
| ArrayMaxItems (max : float)
| ArrayMinItems (min : float)
| ArrayUniqueItems (required : bool).

(** The [id] of a rule. *)
Definition rule_id (r : ValidationRule) : string :=
  match r with
  | Required => "required"
  | StringMaxLength _ => "string-max-length"
  | StringMinLength _ => "string-min-length"
  | StringPattern _ => "string-pattern"
  | StringFormat _ => "string-format"
  | StringEnum _ => "string-enum"
  | NumberMultipleOf _ => "number-multiple-of"
  | NumberGT _ => "number-gt"
  | NumberGTE _ => "number-gte"
  | NumberLT _ => "number-lt"
  | NumberLTE _ => "number-lte"
  | ArrayMaxItems _ => "array-max-items"
  | ArrayMinItems _ => "array-min-items"
  | ArrayUniqueItems _ => "array-unique-items"
  end.

Inductive ObjectValidationRule : Type :=
| ObjectMinProperties (min : float)
| ObjectMaxProperties (max : float)
| ObjectAdditionalProperties (forbidden : bool).

Definition object_rule_id (r : ObjectValidationRule) : string :=
  match r with
  | ObjectMinProperties _ => "object-min-properties"
  | ObjectMaxProperties _ => "object-max-properties"
  | ObjectAdditionalProperties _ => "object-additional-properties"
  end.

Record MetaValue : Type := {
  meta_key : string;
  meta_value : Json
}.

Definition Meta : Type := list MetaValue.

(** [Scalar<string> | Scalar<string>[] | undefined] *)
Inductive Description : Type :=
| NoDescription
| OneDescription (text : Lit)
| TwoDescriptions (summary description : Lit).

(** The typed value [parseType] returns. *)
Record TypedValue : Type := {
  typeName : Lit;
  isPrimitive : bool;
  isArray_ : bool;
  rules : list ValidationRule;
  default : option Lit;
  constant : option Lit
}.

Record Parameter_ : Type := {
  parameter_name : Lit;
  parameter_description : Description;
  parameter_type : TypedValue;
  parameter_meta : option Meta
}.

Record Property : Type := {
  property_name : string;
  property_description : option Lit;
  property_type : TypedValue;
  property_meta : option Meta
}.

Record Type_ : Type := {
  type_name : string;
  type_description : option Lit;
  type_properties : list Property;
  type_rules : list ObjectValidationRule;
  type_meta : option Meta
}.

Record Enum : Type := {
  enum_name : string;
  enum_values : list Lit
}.

Record Union : Type := {
  union_name : string;
  union_members : list TypedValue;
  union_meta : option Meta
}.

Record OAuth2Scope : Type := {
  scope_name : string;
  scope_description : option Lit
}.

Inductive OAuth2Flow : Type :=
| OAuth2AuthorizationCodeFlow
    (authorizationUrl refreshUrl tokenUrl : option Lit)
    (scopes : list OAuth2Scope)
| OAuth2ClientCredentialsFlow
    (refreshUrl tokenUrl : option Lit) (scopes : list OAuth2Scope)
| OAuth2ImplicitFlow
    (authorizationUrl refreshUrl : option Lit) (scopes : list OAuth2Scope)
| OAuth2PasswordFlow
    (refreshUrl tokenUrl : option Lit) (scopes : list OAuth2Scope).

Inductive SecurityScheme : Type :=
| BasicScheme (name : string) (meta : option Meta)
| ApiKeyScheme (name : string) (description : option Lit)
    (parameter in_ : option Lit) (meta : option Meta)
| OAuth2Scheme (name : string) (description : option Lit)
    (flows : list OAuth2Flow) (meta : option Meta).

Definition SecurityOption : Type := list SecurityScheme.

Record Method : Type := {
  method_name : Lit;
  method_security : list SecurityOption;
  method_parameters : list Parameter_;
  method_description : Description;
  method_returnType : option TypedValue;
  method_meta : option Meta
}.

Record HttpParameter : Type := {
  http_parameter_name : Lit;
  http_parameter_in : Lit;
  http_parameter_array : option string
}.

Record HttpMethod : Type := {
  http_method_name : Lit;
  http_method_verb : string;
  http_method_parameters : list HttpParameter;
  http_method_successCode : float
}.

Record HttpPath : Type := {
  http_path : string;
  http_path_methods : list HttpMethod
}.

Record Interface : Type := {
  interface_name : Lit;
  interface_methods : list Method;
  interface_http : list HttpPath
}.

Record Violation : Type := {
  violation_code : string;
  violation_message : string;
  violation_severity : string
}.

Record Service : Type := {
  service_sourcePath : string;
  service_title : string;
  service_majorVersion : float;
  service_interfaces : list Interface;
  service_types : list Type_;
  service_enums : list Enum;
  service_unions : list Union;
  service_meta : option Meta
}.

(** ** What the parser imports from other packages

    The case, pluralize and semver helpers and the two number conversions of
    the language are taken as they come: every statement below holds for
    any choice of them. [pascal], [singular] and [major] receive whatever
    literal value the document holds at that place. *)

Record Externals : Type := {
  camel : string -> string;
  kebab : string -> string;
  pascal : Lit -> result string;
  singular : option Lit -> result Lit;
  major : Lit -> result float;
  StringToNumber : string -> float;     (* Number(s) on a string *)
  NumberToString : float -> string;     (* a number inside a template literal *)
  relative_to_cwd : string -> string    (* relative(process.cwd(), path) *)
}.

(** ** Validation rule factories *)

Definition stringMaxLengthFactory (def : SchemaNodeUnion)
  : result (option ValidationRule) :=
  match def with
  | StringSchema node =>
      let? v := opt_value (StringSchemaNode.maxLength node) in
      match v with
      | Some (LNumber n) => OK (Some (StringMaxLength n))
      | _ => OK None
      end
  | _ => OK None
  end.

Definition stringMinLengthFactory (def : SchemaNodeUnion)
  : result (option ValidationRule) :=
  match def with
  | StringSchema node =>
      let? v := opt_value (StringSchemaNode.minLength node) in
      match v with
      | Some (LNumber n) => OK (Some (StringMinLength n))
      | _ => OK None
      end
  | _ => OK None
  end.

Definition stringPatternFactory (def : SchemaNodeUnion)
  : result (option ValidationRule) :=
  match def with
  | StringSchema node =>
      let? v := opt_value (StringSchemaNode.pattern node) in
      match v with
      | Some (LString s) => OK (Some (StringPattern s))
      | _ => OK None
      end
  | _ => OK None
  end.

Definition stringFormatFactory (def : SchemaNodeUnion)
  : result (option ValidationRule) :=
  match def with
  | StringSchema node =>
      let? v := opt_value (StringSchemaNode.format node) in
      match v with
      | Some (LString s) => OK (Some (StringFormat s))
      | _ => OK None
      end
  | _ => OK None
  end.

Definition stringEnumFactory (def : SchemaNodeUnion)
  : result (option ValidationRule) :=
  match def with
  | StringSchema node =>
      let? enum := StringSchemaNode.enum node in
      match enum with
      | Some members =>
          let? values := rmap LiteralNode_value members in
          OK (Some (StringEnum values))
      | None => OK None
      end
  | _ => OK None
  end.

Definition numberMultipleOfFactory (def : SchemaNodeUnion)
  : result (option ValidationRule) :=
  match def with
  | NumberSchema node =>
      let? v := opt_value (NumberSchemaNode.multipleOf node) in
      match v with
      | Some (LNumber n) => OK (Some (NumberMultipleOf n))
      | _ => OK None
      end
  | _ => OK None
  end.

Definition numberGreaterThanFactory (def : SchemaNodeUnion)
  : result (option ValidationRule) :=
  match def with
  | NumberSchema node =>
      let? v := opt_value (NumberSchemaNode.minimum node) in
      match v with
      | Some (LNumber n) =>
          let? exclusive := opt_value (NumberSchemaNode.exclusiveMinimum node) in
          OK (Some (if opt_truthy exclusive then NumberGT n else NumberGTE n))
      | _ => OK None
      end
  | _ => OK None
  end.

Definition numberLessThanFactory (def : SchemaNodeUnion)
  : result (option ValidationRule) :=
  match def with
  | NumberSchema node =>
      let? v := opt_value (NumberSchemaNode.maximum node) in
      match v with
      | Some (LNumber n) =>
          let? exclusive := opt_value (NumberSchemaNode.exclusiveMinimum node) in
          OK (Some (if opt_truthy exclusive then NumberLT n else NumberLTE n))
      | _ => OK None
      end
  | _ => OK None
  end.

Definition arrayMinItemsFactory (def : SchemaNodeUnion)
  : result (option ValidationRule) :=
  match def with
  | ArraySchema node =>
      let? v := opt_value (ArraySchemaNode.minItems node) in
      match v with
      | Some (LNumber n) => OK (Some (ArrayMinItems n))
      | _ => OK None
      end
  | _ => OK None
  end.

Definition arrayMaxItemsFactory (def : SchemaNodeUnion)
  : result (option ValidationRule) :=
  match def with
  | ArraySchema node =>
      let? v := opt_value (ArraySchemaNode.maxItems node) in
      match v with
      | Some (LNumber n) => OK (Some (ArrayMaxItems n))
      | _ => OK None
      end
  | _ => OK None
  end.

Definition arrayUniqueItemsFactory (def : SchemaNodeUnion)
  : result (option ValidationRule) :=
  match def with
  | ArraySchema node =>
      match ArraySchemaNode.uniqueItems node with
      | Some _ => OK (Some (ArrayUniqueItems true))
      | None => OK None
      end
  | _ => OK None
  end.

Definition objectMinPropertiesFactory (def : SchemaNodeUnion)
  : result (option ObjectValidationRule) :=
  match def with
  | ObjectSchema node =>
      let? v := opt_value (ObjectSchemaNode.minProperties node) in
      match v with
      | Some (LNumber n) => OK (Some (ObjectMinProperties n))
      | _ => OK None
      end
  | _ => OK None
  end.

Definition objectMaxPropertiesFactory (def : SchemaNodeUnion)
  : result (option ObjectValidationRule) :=
  match def with
  | ObjectSchema node =>
      let? v := opt_value (ObjectSchemaNode.maxProperties node) in
      match v with
      | Some (LNumber n) => OK (Some (ObjectMaxProperties n))
      | _ => OK None
      end
  | _ => OK None
  end.

Definition objectAdditionalPropertiesFactory (def : SchemaNodeUnion)
  : result (option ObjectValidationRule) :=
  match def with
  | ObjectSchema node =>
      let? additional := ObjectSchemaNode.additionalProperties node in
      match additional with
      | Some (AdditionalLiteral literal) =>
          let? v := LiteralNode_value literal in
          match v with
          | LBoolean false => OK (Some (ObjectAdditionalProperties true))
          | _ => OK None
          end
      | _ => OK None
      end
  | _ => OK None
  end.

Definition factories : list (SchemaNodeUnion -> result (option ValidationRule)) :=
  [ stringEnumFactory;
    stringFormatFactory;
    stringMaxLengthFactory;
    stringMinLengthFactory;
    stringPatternFactory;
    numberMultipleOfFactory;
    numberGreaterThanFactory;
    numberLessThanFactory;
    arrayMaxItemsFactory;
    arrayMinItemsFactory;
    arrayUniqueItemsFactory ].

Definition objectFactories
  : list (SchemaNodeUnion -> result (option ObjectValidationRule)) :=
  [ objectMaxPropertiesFactory;
    objectMinPropertiesFactory;
    objectAdditionalPropertiesFactory ].

(** [fs.map((f) => f(def)).filter((x) => !!x)] *)
Definition run_factories {R : Type}
  (fs : list (SchemaNodeUnion -> result (option R))) (def : SchemaNodeUnion)
  : result (list R) :=
  let? produced := rmap (fun f => f def) fs in
  OK (flat_map (fun x => match x with Some r => [r] | None => [] end) produced).

Definition safeConcat {T : Type} (a b : option (list T)) : option (list T) :=
  match a, b with
  | Some a, Some b => Some (a ++ b)%list
  | Some a, None => Some a
  | None, Some b => Some b
  | None, None => None
  end.

(** [literal(node)] and [toScalar(node)] *)
Definition literal (node : option ASTNode) : result (option Lit) :=
  opt_value node.

Definition toScalar (node : option ASTNode) : result (option Lit) :=
  opt_value node.

(** ** The parser: its state and its monad

    The class keeps four growing arrays; a method either returns a value
    and the arrays as it left them, or throws. *)

Record ParserState : Type := {
  violations : list Violation;
  enums : list Enum;
  anonymousTypes : list Type_;
  unions : list Union
}.

Definition M (A : Type) : Type := ParserState -> result (A * ParserState).

Definition ret {A : Type} (a : A) : M A := fun s => OK (a, s).

Definition bind {A B : Type} (m : M A) (k : A -> M B) : M B :=
  fun s => match m s with
           | OK (a, s') => k a s'
           | Throw e => Throw e
           end.

Definition lift {A : Type} (r : result A) : M A :=
  fun s => match r with
           | OK a => OK (a, s)
           | Throw e => Throw e
           end.

Definition throw {A : Type} (e : string) : M A := fun _ => Throw e.

Declare Scope parser_scope.
Delimit Scope parser_scope with parser.
Notation "'let*' x := m 'in' k" := (bind m (fun x => k))
  (at level 10, x pattern, m at level 100, k at level 200) : parser_scope.
Open Scope parser_scope.

Fixpoint mapM {A B : Type} (f : A -> M B) (l : list A) : M (list B) :=
  match l with
  | [] => ret []
  | x :: xs =>
      let* y := f x in
      let* ys := mapM f xs in
      ret (y :: ys)
  end.

Definition push_violation (v : Violation) : M unit :=
  fun s => OK (tt, {| violations := violations s ++ [v];
                      enums := enums s;
                      anonymousTypes := anonymousTypes s;
                      unions := unions s |}).

Definition push_enum (e : Enum) : M unit :=
  fun s => OK (tt, {| violations := violations s;
                      enums := enums s ++ [e];
                      anonymousTypes := anonymousTypes s;
                      unions := unions s |}).

Definition push_anonymousType (t : Type_) : M unit :=
  fun s => OK (tt, {| violations := violations s;
                      enums := enums s;
                      anonymousTypes := anonymousTypes s ++ [t];
                      unions := unions s |}).

Definition push_union (u : Union) : M unit :=
  fun s => OK (tt, {| violations := violations s;
                      enums := enums s;
                      anonymousTypes := anonymousTypes s;
                      unions := unions s ++ [u] |}).

(** The field initialisers of the class: [violations = []] and
    [unions = []]; [parse] itself sets the other two arrays. *)
Definition new_OAS3Parser : ParserState :=
  {| violations := []; enums := []; anonymousTypes := []; unions := [] |}.

Definition unsupported_feature (message : string) : Violation :=
  {| violation_code := "openapi-3/unsupported-feature";
     violation_message := message;
     violation_severity := "warning" |}.

(** [a || b] on possibly undefined literal values. *)
Definition or_else (a : option Lit) (b : Lit) : Lit :=
  match a with
  | Some v => if truthy v then v else b
  | None => b
  end.

(** [a === b] and the comparison a [Set] uses, on values that are a literal
    or [undefined]. *)
Definition strict_equals (a b : option Lit) : bool :=
  match a, b with
  | None, None => true
  | Some (LString x), Some (LString y) => String.eqb x y
  | Some (LNumber x), Some (LNumber y) => PrimFloat.eqb x y
  | Some (LBoolean x), Some (LBoolean y) => Bool.eqb x y
  | Some LNull, Some LNull => true
  | _, _ => false
  end.

Definition same_value_zero (a b : option Lit) : bool :=
  match a, b with
  | Some (LNumber x), Some (LNumber y) =>
      PrimFloat.eqb x y || (PrimFloat.is_nan x && PrimFloat.is_nan y)
  | _, _ => strict_equals a b
  end.

(** [Array.from(new Set(values))] *)
Fixpoint set_values (values : list (option Lit)) (seen : list (option Lit))
  : list (option Lit) :=
  match values with
  | [] => seen
  | v :: rest =>
      if existsb (same_value_zero v) seen then set_values rest seen
      else set_values rest (seen ++ [v])
  end.

(** What [parsePrimaryResponseKey] hands back: a number or ['default']. *)
Inductive PrimaryResponseKey : Type :=
| NumberKey (n : float)
| DefaultKey.

(** ** The parser class *)

Section Parser.

Variable ext : Externals.
Variable sourcePath : string.

(** [this.schema]: the view over the root of the parsed document. *)
Variable schema : ASTNode.

(** A literal value inside a template literal. *)
Definition ToString (v : Lit) : string :=
  match v with
  | LString s => s
  | LNumber n => NumberToString ext n
  | LBoolean true => "true"
  | LBoolean false => "false"
  | LNull => "null"
  end.

Definition parseMeta (node : ASTNode) : option Meta :=
  match node with
  | Object children =>
      let meta :=
        map (fun child => {| meta_key := substring_from 2 (fst child);
                             meta_value := toJson (snd child) |})
            (filter (fun child => startsWith (fst child) "x-") children) in
      match meta with
      | [] => None
      | _ :: _ => Some meta
      end
  | _ => None
  end.

Definition parseDescription (summary description : option ASTNode)
  : result Description :=
  match summary, description with
  | Some s, Some d =>
      let? sv := LiteralNode_value s in
      let? dv := LiteralNode_value d in
      OK (TwoDescriptions sv dv)
  | Some s, None => let? sv := LiteralNode_value s in OK (OneDescription sv)
  | None, Some d => let? dv := LiteralNode_value d in OK (OneDescription dv)
  | None, None => OK NoDescription
  end.

Definition parseDescriptionOnly (description : option ASTNode)
  : result (option Lit) :=
  opt_value description.

(** *** Success status code *)

Definition parsePrimaryResponseKey (operation : ASTNode)
  : result (option PrimaryResponseKey) :=
  match OperationNode.responses operation with
  | None => Throw TypeError
  | Some responses =>
      let hasDefault :=
        match ResponsesNode.read responses "default" with
        | Some _ => true
        | None => false
        end in
      let code := hd_error (filter (fun c => startsWith c "2") (keys responses)) in
      if match code with Some c => String.eqb c "default" | None => false end
      then OK (Some DefaultKey)
      else
        let n := match code with
                 | Some c => StringToNumber ext c
                 | None => PrimFloat.nan
                 end in
        if negb (PrimFloat.is_nan n) then OK (Some (NumberKey n))
        else if hasDefault then OK (Some DefaultKey)
        else OK None
  end.

Definition parseResponseCode (verb : string) (operation : ASTNode)
  : result float :=
  let? primary := parsePrimaryResponseKey operation in
  match primary with
  | Some (NumberKey n) => OK n
  | Some DefaultKey =>
      match OperationNode.responses operation with
      | None => Throw TypeError
      | Some responses =>
          let? hasContent :=
            match ResponsesNode.read responses "default" with
            | None => OK false
            | Some res =>
                let? response := resolve schema res in
                match ResponseNode.content response with
                | None => OK false
                | Some content => OK (negb (Nat.eqb (List.length (keys content)) 0))
                end
            end in
          if hasContent then
            if String.eqb verb "delete" then OK 202%float
            else if String.eqb verb "options" then OK 204%float
            else if String.eqb verb "post" then OK 201%float
            else OK 200%float
          else OK 204%float
      end
  | None => OK 200%float
  end.

(** *** Interface names *)

Definition parseInterfaceName (path : string) (operation : ASTNode)
  : result (option Lit) :=
  let fromPath := option_map LString (nth_error (split "/" path) 1) in
  let? tags := OperationNode.tags operation in
  match tags with
  | None => OK fromPath
  | Some [] => Throw TypeError
  | Some (tag :: _) =>
      let? v := LiteralNode_value tag in
      if truthy v then OK (Some v) else OK fromPath
  end.

(** *** Security *)

Definition parseScopes (scopes : option ASTNode) : result (list OAuth2Scope) :=
  match scopes with
  | None => Throw TypeError
  | Some scopes =>
      rmap (fun k =>
              let? description :=
                parseDescriptionOnly (StringMappingNode.read scopes k) in
              OK {| scope_name := k; scope_description := description |})
           (keys scopes)
  end.

Definition parseOAuth2Flows (flows : option ASTNode) : result (list OAuth2Flow) :=
  match flows with
  | None => Throw TypeError
  | Some flows =>
      let? authorizationCode :=
        match OAuthFlowsNode.authorizationCode flows with
        | Some flow =>
            let? authorizationUrl := literal (OAuthFlowNode.authorizationUrl flow) in
            let? refreshUrl := literal (OAuthFlowNode.refreshUrl flow) in
            let? tokenUrl := literal (OAuthFlowNode.tokenUrl flow) in
            let? scopes := parseScopes (OAuthFlowNode.scopes flow) in
            OK [OAuth2AuthorizationCodeFlow authorizationUrl refreshUrl tokenUrl scopes]
        | None => OK []
        end in
      let? clientCredentials :=
        match OAuthFlowsNode.clientCredentials flows with
        | Some flow =>
            let? refreshUrl := literal (OAuthFlowNode.refreshUrl flow) in
            let? tokenUrl := literal (OAuthFlowNode.tokenUrl flow) in
            let? scopes := parseScopes (OAuthFlowNode.scopes flow) in
            OK [OAuth2ClientCredentialsFlow refreshUrl tokenUrl scopes]
        | None => OK []
        end in
      let? implicit :=
        match OAuthFlowsNode.implicit flows with
        | Some flow =>
            let? authorizationUrl := literal (OAuthFlowNode.authorizationUrl flow) in
            let? refreshUrl := literal (OAuthFlowNode.refreshUrl flow) in
            let? scopes := parseScopes (OAuthFlowNode.scopes flow) in
            OK [OAuth2ImplicitFlow authorizationUrl refreshUrl scopes]
        | None => OK []
        end in
      let? password :=
        match OAuthFlowsNode.password flows with
        | Some flow =>
            let? refreshUrl := literal (OAuthFlowNode.refreshUrl flow) in
            let? tokenUrl := literal (OAuthFlowNode.tokenUrl flow) in
            let? scopes := parseScopes (OAuthFlowNode.scopes flow) in
            OK [OAuth2PasswordFlow refreshUrl tokenUrl scopes]
        | None => OK []
        end in
      OK (authorizationCode ++ clientCredentials ++ implicit ++ password)%list
  end.

Definition parseHttpSecurity (definition : ASTNode) (name : string)
  : result SecurityScheme :=
  OK (BasicScheme name (parseMeta definition)).

Definition parseApiKeySecurity (definition : ASTNode) (name : string)
  : result SecurityScheme :=
  let? description :=
    parseDescriptionOnly (SecuritySchemeNodes.description definition) in
  let? parameter := literal (SecuritySchemeNodes.name definition) in
  let? in_ := literal (SecuritySchemeNodes.in_ definition) in
  OK (ApiKeyScheme name description parameter in_ (parseMeta definition)).

Definition parseOAuth2Security (definition : ASTNode) (name : string)
  : result SecurityScheme :=
  let? description :=
    parseDescriptionOnly (SecuritySchemeNodes.description definition) in
  let? flows := parseOAuth2Flows (SecuritySchemeNodes.flows definition) in
  OK (OAuth2Scheme name description flows (parseMeta definition)).

(** The callback [parseSecurity] maps over the keys of one requirement. *)
Definition parseSecurity_scheme (securitySchemes : option ASTNode)
  (requirements : ASTNode) (key : string) : result (option SecurityScheme) :=
  let? requirement := SecurityRequirementNode.read requirements key in
  let? definition :=
    match securitySchemes with
    | Some index => SecuritySchemeIndexNode.read index key
    | None => OK None
    end in
  match requirement, definition with
  | Some _, Some definition =>
      match definition with
      | Item (HttpSecurityScheme node) =>
          let? scheme := parseHttpSecurity node key in OK (Some scheme)
      | Item (ApiKeySecurityScheme node) =>
          let? scheme := parseApiKeySecurity node key in OK (Some scheme)
      | Item (OAuth2SecurityScheme node) =>
          let? scheme := parseOAuth2Security node key in OK (Some scheme)
      | Item (OpenIdConnectSecurityScheme _) => OK None
      | RefNode _ => OK None
      end
  | _, _ => OK None
  end.

(** The callback [parseSecurity] maps over the requirements. *)
Definition parseSecurity_option (securitySchemes : option ASTNode)
  (requirements : ASTNode) : result SecurityOption :=
  let? schemes :=
    rmap (parseSecurity_scheme securitySchemes requirements) (keys requirements) in
  OK (flat_map (fun scheme => match scheme with
                              | Some s => [s]
                              | None => []
                              end) schemes).

Definition parseSecurity (operation : ASTNode) : result (list SecurityOption) :=
  let? defaultSecurity := OpenAPINode.security schema in
  let securitySchemes :=
    match OpenAPINode.components schema with
    | Some components => ComponentsNode.securitySchemes components
    | None => None
    end in
  let? operationSecurity := OperationNode.security operation in
  let security :=
    match operationSecurity, defaultSecurity with
    | Some s, _ => s
    | None, Some s => s
    | None, None => []
    end in
  rmap (parseSecurity_option securitySchemes) security.

(** *** Rules *)

(** [SchemaNodeUnion | ParameterNode] *)
Inductive SchemaOrParameter : Type :=
| IsSchema (s : SchemaNodeUnion)
| IsParameter (p : ASTNode).

Definition parseSchema (node : option SchemaOrParameter)
  : result (option SchemaNodeUnion) :=
  match node with
  | None => OK None
  | Some (IsSchema s) => OK (Some s)
  | Some (IsParameter p) =>
      let? unresolved := ParameterNode.schema p in
      match unresolved with
      | None => OK None
      | Some s => resolveSchema schema s
      end
  end.

Definition parseRules (def : SchemaOrParameter) (required : option Lit)
  : result (list ValidationRule) :=
  let? resolved := parseSchema (Some def) in
  match resolved with
  | None => OK (if opt_truthy required then [Required] else [])
  | Some s =>
      let? localRules := run_factories factories s in
      let? items :=
        match s with
        | ArraySchema node => ArraySchemaNode.items node
        | _ => OK None
        end in
      match items with
      | None =>
          OK (if opt_truthy required then Required :: localRules else localRules)
      | Some items =>
          let? itemsSchema := resolveSchema schema items in
          match itemsSchema with
          | None => OK []
          | Some itemsSchema =>
              let? itemRules := run_factories factories itemsSchema in
              let rules := (localRules ++ itemRules)%list in
              OK (if opt_truthy required then Required :: rules else rules)
          end
      end
  end.

Definition parseObjectRules (def : SchemaNodeUnion)
  : result (list ObjectValidationRule) :=
  run_factories objectFactories def.

(** *** Content, array styles, primitive names *)

Definition multiple_content_types : string :=
  "Multiple content types are not yet supported. The first content type will be used and all following content types will be ignored.".

Definition getSchemaOrRef (content : option ASTNode) : M (option SchemaOrRef) :=
  match content with
  | None => ret None
  | Some content =>
      match keys content with
      | [] => ret None
      | first :: others =>
          let* _ := match others with
                    | [] => ret tt
                    | _ :: _ =>
                        push_violation (unsupported_feature multiple_content_types)
                    end in
          match MediaTypeIndexNode.read content first with
          | None => ret None
          | Some mediaType => lift (MediaTypeNode.schema mediaType)
          end
      end
  end.

Definition parseArrayStyle (paramNode : ASTNode) : M string :=
  match ParameterNode.style paramNode with
  | None => ret "csv"
  | Some style =>
      let* v := lift (LiteralNode_value style) in
      if strict_equals (Some v) (Some (LString "matrix"))
         || strict_equals (Some v) (Some (LString "label"))
      then
        let* _ := push_violation
                    (unsupported_feature
                       ("Parameter style '" ++ ToString v
                        ++ "' is not yet supported. The default 'csv' array style will be used instead.")) in
        ret "csv"
      else if strict_equals (Some v) (Some (LString "form")) then
        let* explode := lift (opt_value (ParameterNode.explode paramNode)) in
        ret (if opt_truthy explode then "multi" else "csv")
      else if strict_equals (Some v) (Some (LString "simple")) then ret "csv"
      else if strict_equals (Some v) (Some (LString "spaceDelimited")) then ret "ssv"
      else if strict_equals (Some v) (Some (LString "pipeDelimited")) then ret "pipes"
      else ret "csv"
  end.

(** [parseStringName] on a string schema: the parser has no other call. *)
Definition parseStringName (def : ASTNode) : result Lit :=
  let type := StringSchemaNode.type def in
  let? format := opt_value (StringSchemaNode.format def) in
  if strict_equals format (Some (LString "date")) then OK (LString "date")
  else if strict_equals format (Some (LString "date-time"))
  then OK (LString "date-time")
  else bang_value type.

(** [parseNumberName] on a number schema: the parser has no other call. *)
Definition parseNumberName (def : ASTNode) : result Lit :=
  let type := NumberSchemaNode.type def in
  let? typeValue := bang_value type in
  if strict_equals (Some typeValue) (Some (LString "integer")) then
    let? format := opt_value (NumberSchemaNode.format def) in
    if strict_equals format (Some (LString "int32")) then OK (LString "integer")
    else if strict_equals format (Some (LString "int64")) then OK (LString "long")
    else OK typeValue
  else if strict_equals (Some typeValue) (Some (LString "number")) then
    let? format := opt_value (NumberSchemaNode.format def) in
    if strict_equals format (Some (LString "float")) then OK (LString "float")
    else if strict_equals format (Some (LString "double")) then OK (LString "double")
    else OK typeValue
  else OK typeValue.

Definition parseBodyParamName (operation : ASTNode) : string :=
  match parseMeta operation with
  | Some meta =>
      match find (fun m => String.eqb (kebab ext (meta_key m))
                                      "codegen-request-body-name") meta with
      | Some m =>
          match meta_value m with
          | JLit (LString name) => name
          | _ => "body"
          end
      | None => "body"
      end
  | None => "body"
  end.

(** *** Types, enums and unions

    [parseType] and [parseProperties] call each other, and through a
    reference the recursion leaves the node at hand; the model bounds the
    call depth by [fuel], and a call chain that exhausts it throws, as a
    chain that exhausts the call stack does. *)

Definition stack_exhausted : string :=
  "RangeError: Maximum call stack size exceeded".

Definition components_schemas_prefix : string := "#/components/schemas/".

(** [this.resolve(subDef, OAS3.ObjectSchemaNode)] *)
Definition resolve_as_object (subDef : SchemaOrRef) : result ASTNode :=
  match subDef with
  | RefNode ref => resolveRefNode schema ref
  | Item s => OK (schema_node s)
  end.

Definition non_primitive (name : Lit) (rules : list ValidationRule)
  : TypedValue :=
  {| typeName := name; isPrimitive := false; isArray_ := false;
     rules := rules; default := None; constant := None |}.

Fixpoint parseType (fuel : nat) (schemaOrRef : SchemaOrRef)
  (localName parentName : Lit) {struct fuel} : M TypedValue :=
  match fuel with
  | O => throw stack_exhausted
  | S fuel' =>
      match schemaOrRef with
      | RefNode ref =>
          let* resolved := lift (resolveSchema schema schemaOrRef) in
          let* refValue := lift (ref_value ref) in
          match resolved with
          | None =>
              throw ("Cannot resolve reference: '" ++ ToString refValue ++ "'")
          | Some s =>
              match refValue with
              | LString ref =>
                  if startsWith ref components_schemas_prefix then
                    let name :=
                      substring_from (String.length components_schemas_prefix) ref in
                    match s with
                    | ObjectSchema _ =>
                        let* _ := lift (refRange schema ref) in
                        let* rules := lift (parseRules (IsSchema s) None) in
                        ret (non_primitive (LString name) rules)
                    | StringSchema node =>
                        let* enum := lift (StringSchemaNode.enum node) in
                        match enum with
                        | Some members =>
                            let* _ := lift (refRange schema ref) in
                            let* values := lift (rmap LiteralNode_value members) in
                            let* _ := push_enum {| enum_name := name;
                                                   enum_values := values |} in
                            let* rules := lift (parseRules (IsSchema s) None) in
                            ret (non_primitive (LString name) rules)
                        | None => parseType fuel' (Item s) localName parentName
                        end
                    | _ => parseType fuel' (Item s) localName parentName
                    end
                  else
                    let* _ := lift (refRange schema ref) in
                    let* rules := lift (parseRules (IsSchema s) None) in
                    ret (non_primitive (LString ref) rules)
              | _ => throw TypeError
              end
          end
      | Item s =>
          let* rules := lift (parseRules (IsSchema s) None) in
          match s with
          | StringSchema node =>
              let* enum := lift (StringSchemaNode.enum node) in
              match enum with
              | Some members =>
                  let* single := lift (singular ext (Some localName)) in
                  let enumName :=
                    camel ext (ToString parentName ++ "_" ++ ToString single) in
                  let* values := lift (rmap LiteralNode_value members) in
                  let* _ := push_enum {| enum_name := enumName;
                                         enum_values := values |} in
                  ret (non_primitive (LString enumName) rules)
              | None =>
                  let* name := lift (parseStringName node) in
                  let* d := lift (toScalar (StringSchemaNode.default node)) in
                  let* c := lift (toScalar (StringSchemaNode.const node)) in
                  ret {| typeName := name; isPrimitive := true;
                         isArray_ := false; rules := rules;
                         default := d; constant := c |}
              end
          | NumberSchema node =>
              let* name := lift (parseNumberName node) in
              let* d := lift (toScalar (NumberSchemaNode.default node)) in
              let* c := lift (toScalar (NumberSchemaNode.const node)) in
              ret {| typeName := name; isPrimitive := true;
                     isArray_ := false; rules := rules;
                     default := d; constant := c |}
          | BooleanSchema node =>
              let* name := lift (bang_value (BooleanSchemaNode.type node)) in
              let* d := lift (toScalar (BooleanSchemaNode.default node)) in
              let* c := lift (toScalar (BooleanSchemaNode.const node)) in
              ret {| typeName := name; isPrimitive := true;
                     isArray_ := false; rules := rules;
                     default := d; constant := c |}
          | ArraySchema node =>
              let* items := lift (ArraySchemaNode.items node) in
              match items with
              | None => throw "Expected array items but found undefined"
              | Some items =>
                  let* x := parseType fuel' items localName parentName in
                  ret {| typeName := typeName x; isPrimitive := isPrimitive x;
                         isArray_ := true; rules := rules;
                         default := None; constant := None |}
              end
          | ObjectSchema node =>
              let name :=
                camel ext (ToString parentName ++ "_" ++ ToString localName) in
              let* oneOf := lift (ObjectSchemaNode.oneOf node) in
              let* _ :=
                match oneOf with
                | Some alternatives =>
                    let* members :=
                      mapM (fun subDef =>
                              parseType fuel' subDef localName parentName)
                           alternatives in
                    push_union {| union_name := name;
                                  union_members := members;
                                  union_meta := parseMeta node |}
                | None =>
                    let* required := lift (ObjectSchemaNode.required node) in
                    let* allOf := lift (ObjectSchemaNode.allOf node) in
                    let* properties :=
                      parseProperties fuel' (ObjectSchemaNode.properties node)
                                      required allOf name in
                    let* description :=
                      lift (opt_value (ObjectSchemaNode.description node)) in
                    let* objectRules := lift (parseObjectRules s) in
                    push_anonymousType {| type_name := name;
                                          type_description := description;
                                          type_properties := properties;
                                          type_rules := objectRules;
                                          type_meta := None |}
                end in
              ret (non_primitive (LString name) rules)
          end
      end
  end

with parseProperties (fuel : nat) (properties : option ASTNode)
  (required : option (list ASTNode)) (allOf : option (list SchemaOrRef))
  (parentName : string) {struct fuel} : M (list Property) :=
  match fuel with
  | O => throw stack_exhausted
  | S fuel' =>
      match allOf with
      | Some subDefs =>
          let* lists :=
            mapM (fun subDef =>
                    let* resolved := lift (resolve_as_object subDef) in
                    let p := ObjectSchemaNode.properties resolved in
                    let* own := lift (ObjectSchemaNode.required resolved) in
                    let r := safeConcat own required in
                    parseProperties fuel' p r None parentName)
                 subDefs in
          ret (concat lists)
      | None =>
          let* requiredValues :=
            lift (match required with
                  | Some rs => rmap LiteralNode_value rs
                  | None => OK []
                  end) in
          let requiredSet_has name :=
            existsb (fun v => strict_equals (Some v) (Some (LString name)))
                    requiredValues in
          let* props :=
            mapM (fun name =>
                    let* prop :=
                      lift (match properties with
                            | Some p => PropertiesNode.read p name
                            | None => OK None
                            end) in
                    match prop with
                    | None => ret []
                    | Some prop =>
                        let* resolvedProp := lift (resolveSchema schema prop) in
                        match resolvedProp with
                        | None => throw "Cannot resolve reference"
                        | Some resolvedProp =>
                            let* x :=
                              parseType fuel' prop (LString name)
                                        (LString parentName) in
                            let* description :=
                              lift (parseDescriptionOnly
                                      (SchemaNode.description
                                         (schema_node resolvedProp))) in
                            let* rules :=
                              lift (parseRules (IsSchema resolvedProp)
                                      (Some (LBoolean (requiredSet_has name)))) in
                            ret [{| property_name := name;
                                    property_description := description;
                                    property_type :=
                                      {| typeName := typeName x;
                                         isPrimitive := isPrimitive x;
                                         isArray_ := isArray_ x;
                                         rules := rules;
                                         default :=
                                           if isPrimitive x then default x
                                           else None;
                                         constant :=
                                           if isPrimitive x then constant x
                                           else None |};
                                    property_meta :=
                                      parseMeta (schema_node resolvedProp) |}]
                        end
                    end)
                 (match properties with
                  | Some p => keys p
                  | None => []
                  end) in
          ret (concat props)
      end
  end.

(** *** Parameters, request bodies and return types *)

Definition parseRequestBody (fuel : nat) (bodyOrRef : option (OrRef ASTNode))
  (methodName : Lit) (paramName : string) : M (option Parameter_) :=
  match bodyOrRef with
  | None => ret None
  | Some bodyOrRef =>
      let* body := lift (resolve schema bodyOrRef) in
      let* schemaOrRef := getSchemaOrRef (RequestBodyNode.content body) in
      match schemaOrRef with
      | None => ret None
      | Some schemaOrRef =>
          let* resolved := lift (resolveSchema schema schemaOrRef) in
          match resolved with
          | None => ret None
          | Some s =>
              let* x := parseType fuel schemaOrRef (LString paramName) methodName in
              let* description :=
                lift (parseDescription None (RequestBodyNode.description body)) in
              let* required := lift (opt_value (RequestBodyNode.required body)) in
              let* rules := lift (parseRules (IsSchema s) required) in
              ret (Some {| parameter_name := LString paramName;
                           parameter_description := description;
                           parameter_type :=
                             {| typeName := typeName x;
                                isPrimitive := isPrimitive x;
                                isArray_ := isArray_ x;
                                rules := rules;
                                default := None;
                                constant := None |};
                           parameter_meta := parseMeta body |})
          end
      end
  end.

Definition parseParameter (fuel : nat) (param : ASTNode) (methodName : Lit)
  : M Parameter_ :=
  let* unresolved := lift (ParameterNode.schema param) in
  match unresolved with
  | None => throw "Unexpected undefined schema"
  | Some unresolved =>
      let* resolved := lift (resolveSchema schema unresolved) in
      match resolved with
      | None => throw "Cannot resolve reference"
      | Some resolved =>
          let* localName := lift (bang_value (ParameterNode.name param)) in
          let* x := parseType fuel unresolved localName methodName in
          let* description :=
            lift (parseDescription None (ParameterNode.description param)) in
          let* required := lift (opt_value (ParameterNode.required param)) in
          let* rules := lift (parseRules (IsSchema resolved) required) in
          ret {| parameter_name := localName;
                 parameter_description := description;
                 parameter_type :=
                   {| typeName := typeName x;
                      isPrimitive := isPrimitive x;
                      isArray_ := isArray_ x;
                      rules := rules;
                      default := if isPrimitive x then default x else None;
                      constant := None |};
                 parameter_meta := parseMeta param |}
      end
  end.

(** [list.filter((p) => !!p)] on a list of possibly undefined items. *)
Definition defined {A : Type} (l : list (option A)) : list A :=
  flat_map (fun x => match x with Some a => [a] | None => [] end) l.

Definition or_empty {A : Type} (l : option (list A)) : list A :=
  match l with
  | Some l => l
  | None => []
  end.

Definition parseParameters (fuel : nat) (operation : ASTNode)
  (commonParameters : list (OrRef ASTNode)) : M (list Parameter_) :=
  let* own := lift (OperationNode.parameters operation) in
  let parametersOrRefs := (commonParameters ++ or_empty own)%list in
  let* resolved := lift (rmap (resolveParam schema) parametersOrRefs) in
  let parameters := defined resolved in
  let* nonBodyParams :=
    mapM (fun p =>
            let* id := lift (opt_value (OperationNode.operationId operation)) in
            parseParameter fuel p (or_else id (LString "")))
         parameters in
  let* id := lift (opt_value (OperationNode.operationId operation)) in
  let* bodyParam :=
    parseRequestBody fuel (OperationNode.requestBody operation)
                     (or_else id (LString ""))
                     (parseBodyParamName operation) in
  match bodyParam with
  | Some bodyParam => ret (bodyParam :: nonBodyParams)
  | None => ret nonBodyParams
  end.

Definition components_responses_prefix : string := "#/components/responses/".

Definition parseReturnType (fuel : nat) (operation : ASTNode)
  : M (option TypedValue) :=
  let* primaryCode := lift (parsePrimaryResponseKey operation) in
  let key :=
    match primaryCode with
    | Some (NumberKey n) => NumberToString ext n
    | Some DefaultKey => "default"
    | None => "undefined"
    end in
  match OperationNode.responses operation with
  | None => throw TypeError
  | Some responses =>
      match ResponsesNode.read responses key with
      | None => ret None
      | Some success =>
          let* response := lift (resolve schema success) in
          let* name :=
            lift (match success with
                  | RefNode ref =>
                      let? v := ref_value ref in
                      match v with
                      | LString r =>
                          if startsWith r components_responses_prefix
                          then OK (Some (substring_from
                                           (String.length components_responses_prefix) r))
                          else OK None
                      | _ => Throw TypeError
                      end
                  | Item _ => OK None
                  end) in
          let* schemaOrRef := getSchemaOrRef (ResponseNode.content response) in
          match schemaOrRef with
          | None => ret None
          | Some schemaOrRef =>
              let* parentName :=
                match name with
                | Some n =>
                    if negb (String.eqb n "") then ret (LString n)
                    else
                      let* id := lift (opt_value (OperationNode.operationId operation)) in
                      ret (or_else id (LString ""))
                | None =>
                    let* id := lift (opt_value (OperationNode.operationId operation)) in
                    ret (or_else id (LString ""))
                end in
              let* x := parseType fuel schemaOrRef (LString "response") parentName in
              ret (Some x)
          end
      end
  end.

(** *** Operations, methods and the HTTP binding *)

(** [for (const { path, verb, operation } of this.allOperations())]: the
    generator and the body of the loop run in turn, so the model threads
    the body through the two nested loops of [allOperations]. A body that
    yields [None] stands for [continue]. The generator reads the member
    off the path item as [paths] holds it, without resolving a path item
    given by reference. *)
Definition forAllOperations {A : Type}
  (body : string -> string -> ASTNode -> M (option A)) : M (list A) :=
  match OpenAPINode.paths schema with
  | None => throw TypeError
  | Some paths =>
      let* perPath :=
        mapM (fun path =>
                match PathsNode.read paths path with
                | None => throw TypeError
                | Some pathItem =>
                    let pathItemKeys :=
                      match pathItem with
                      | Item n | RefNode n => keys n
                      end in
                    let* perVerb :=
                      mapM (fun verb =>
                              if String.eqb verb "parameters" || startsWith verb "x-"
                              then ret None
                              else
                                let* operation :=
                                  lift (match pathItem with
                                        | Item n => PathItemNode.member n verb
                                        | RefNode n => RefNode.member n verb
                                        end) in
                                body path verb operation)
                           pathItemKeys in
                    ret (defined perVerb)
                end)
             (keys paths) in
      ret (concat perPath)
  end.

Definition parserInterfaceNames : M (list (option Lit)) :=
  let* names :=
    forAllOperations (fun path _ operation =>
                        let* name := lift (parseInterfaceName path operation) in
                        ret (Some name)) in
  ret (set_values names []).

(** The body of the loop of [parseMethods]. *)
Definition parseMethods_body (fuel : nat) (interfaceName : option Lit)
  (path verb : string) (operation : ASTNode) : M (option Method) :=
  match OpenAPINode.paths schema with
  | None => throw TypeError
  | Some paths =>
      match PathsNode.read paths path with
      | None => throw TypeError
      | Some pathItem =>
          let* pathNode := lift (resolve schema pathItem) in
          let* common := lift (PathItemNode.parameters pathNode) in
          let commonParameters := or_empty common in
          let* name := lift (parseInterfaceName path operation) in
          if negb (strict_equals name interfaceName) then ret None
          else
            let* id := lift (opt_value (OperationNode.operationId operation)) in
            let* security := lift (parseSecurity operation) in
            let* parameters := parseParameters fuel operation commonParameters in
            let* description :=
              lift (parseDescription (OperationNode.summary operation)
                                     (OperationNode.description operation)) in
            let* returnType := parseReturnType fuel operation in
            ret (Some {| method_name := or_else id (LString "UNNAMED");
                         method_security := security;
                         method_parameters := parameters;
                         method_description := description;
                         method_returnType := returnType;
                         method_meta := parseMeta operation |})
      end
  end.

Definition parseMethods (fuel : nat) (interfaceName : option Lit)
  : M (list Method) :=
  forAllOperations (parseMethods_body fuel interfaceName).

Definition parseParameterName (def : OrRef ASTNode) : result (option ASTNode) :=
  let? resolved := resolveParam schema def in
  match resolved with
  | None => Throw "Cannot resolve reference"
  | Some resolved => OK (ParameterNode.name resolved)
  end.

Definition parseParameterLocation (def : OrRef ASTNode)
  : result (option ASTNode) :=
  let? resolved := resolveParam schema def in
  match resolved with
  | None => Throw "Cannot resolve reference"
  | Some resolved => OK (ParameterNode.in_ resolved)
  end.

Definition cookie_not_supported : string :=
  "Cookie is not yet supported. This parameter will be ignored.".

(** The body of the loop of [parseHttpProtocol] over the parameters of one
    operation; [None] stands for [continue]. *)
Definition parseHttpProtocol_parameter (param : OrRef ASTNode)
  : M (option HttpParameter) :=
  let* name := lift (parseParameterName param) in
  let* resolved := lift (resolveParam schema param) in
  match resolved with
  | None => throw "Cannot resolve reference"
  | Some resolved =>
      let* location := lift (parseParameterLocation param) in
      let* locationValue := lift (bang_value location) in
      if strict_equals (Some locationValue) (Some (LString "cookie")) then
        let* _ := push_violation (unsupported_feature cookie_not_supported) in
        ret None
      else
        let* inValue := lift (bang_value (ParameterNode.in_ resolved)) in
        let* isArrayParameter :=
          if strict_equals (Some inValue) (Some (LString "header"))
             || strict_equals (Some inValue) (Some (LString "path"))
             || strict_equals (Some inValue) (Some (LString "query"))
          then
            let* s := lift (ParameterNode.schema resolved) in
            ret (match s with
                 | Some (Item (ArraySchema _)) => true
                 | _ => false
                 end)
          else ret false in
        let* nameValue := lift (bang_value name) in
        if isArrayParameter then
          let* style := parseArrayStyle resolved in
          ret (Some {| http_parameter_name := nameValue;
                       http_parameter_in := locationValue;
                       http_parameter_array := Some style |})
        else
          ret (Some {| http_parameter_name := nameValue;
                       http_parameter_in := locationValue;
                       http_parameter_array := None |})
  end.

(** The body of the loop of [parseHttpProtocol] over the keys of one path
    item; [None] stands for [continue]. *)
Definition parseHttpProtocol_method (fuel : nat) (interfaceName : option Lit)
  (path : string) (pathItem : ASTNode) (commonParameters : list (OrRef ASTNode))
  (verb : string) : M (option HttpMethod) :=
  if String.eqb verb "parameters" then ret None
  else
    let* operation := lift (PathItemNode.member pathItem verb) in
    let* name := lift (parseInterfaceName path operation) in
    if negb (strict_equals name interfaceName) then ret None
    else
      let* id := lift (opt_value (OperationNode.operationId operation)) in
      let methodName := or_else id (LString "unknown") in
      let* successCode := lift (parseResponseCode verb operation) in
      let bodyParamName := parseBodyParamName operation in
      let* body :=
        parseRequestBody fuel (OperationNode.requestBody operation)
                         methodName bodyParamName in
      let bodyParameters :=
        match body with
        | Some body => [{| http_parameter_name := parameter_name body;
                           http_parameter_in := LString "body";
                           http_parameter_array := None |}]
        | None => []
        end in
      let* own := lift (OperationNode.parameters operation) in
      let* others :=
        mapM parseHttpProtocol_parameter (or_empty own ++ commonParameters)%list in
      ret (Some {| http_method_name := methodName;
                   http_method_verb := verb;
                   http_method_parameters := (bodyParameters ++ defined others)%list;
                   http_method_successCode := successCode |}).

Definition parseHttpProtocol (fuel : nat) (interfaceName : option Lit)
  : M (list HttpPath) :=
  match OpenAPINode.paths schema with
  | None => throw TypeError
  | Some paths =>
      let* httpPaths :=
        mapM (fun path =>
                match PathsNode.read paths path with
                | None => throw TypeError
                | Some itemOrRef =>
                    let* pathItem := lift (resolve schema itemOrRef) in
                    let* common := lift (PathItemNode.parameters pathItem) in
                    let commonParameters := or_empty common in
                    let* methods :=
                      mapM (parseHttpProtocol_method fuel interfaceName path
                                                     pathItem commonParameters)
                           (keys pathItem) in
                    match defined methods with
                    | [] => ret []
                    | ms => ret [{| http_path := path; http_path_methods := ms |}]
                    end
                end)
             (keys paths) in
      ret (concat httpPaths)
  end.

Definition parseInterfaces (fuel : nat) : M (list Interface) :=
  let* names := parserInterfaceNames in
  mapM (fun name =>
          let* single := lift (singular ext name) in
          let* methods := parseMethods fuel name in
          let* http := parseHttpProtocol fuel name in
          ret {| interface_name := single;
                 interface_methods := methods;
                 interface_http := http |})
       names.

(** *** Component schemas *)

Definition getSchemas : option ASTNode :=
  match OpenAPINode.components schema with
  | Some components => ComponentsNode.schemas components
  | None => None
  end.

Definition getSchema (name : string) : result (option SchemaNodeUnion) :=
  match getSchemas with
  | None => OK None
  | Some schemas =>
      let? schemaOrRef := SchemaIndexNode.read schemas name in
      match schemaOrRef with
      | None => OK None
      | Some (RefNode ref) => resolveSchema schema (RefNode ref)
      | Some (Item s) => OK (Some s)
      end
  end.

Definition parseDefinitions (fuel : nat) : M (list Type_) :=
  match getSchemas with
  | None => ret []
  | Some schemas =>
      let* entries :=
        lift (rmap (fun name => let? node := getSchema name in OK (name, node))
                   (keys schemas)) in
      let* definitions :=
        lift (rmap (fun entry =>
                      match snd entry with
                      | None => Throw TypeError
                      | Some (ObjectSchema node) => OK [(fst entry, node)]
                      | Some _ => OK []
                      end) entries) in
      mapM (fun definition =>
              let name := fst definition in
              let node := snd definition in
              let* description :=
                lift (opt_value (ObjectSchemaNode.description node)) in
              let* required := lift (ObjectSchemaNode.required node) in
              let* allOf := lift (ObjectSchemaNode.allOf node) in
              let* properties :=
                parseProperties fuel (ObjectSchemaNode.properties node)
                                required allOf name in
              let* objectRules := lift (parseObjectRules (ObjectSchema node)) in
              ret {| type_name := name;
                     type_description := description;
                     type_properties := properties;
                     type_rules := objectRules;
                     type_meta := parseMeta node |})
           (concat definitions)
  end.

(** *** The driver *)

Definition reset_arrays : M unit :=
  fun s => OK (tt, {| violations := violations s;
                      enums := [];
                      anonymousTypes := [];
                      unions := unions s |}).

Definition get_state : M ParserState := fun s => OK (s, s).

Definition parse (fuel : nat) : M Service :=
  let* _ := reset_arrays in
  let* interfaces := parseInterfaces fuel in
  let* types := parseDefinitions fuel in
  let* this := get_state in
  let typesByName := by_name type_name (types ++ anonymousTypes this)%list in
  let enumsByName := by_name enum_name (enums this) in
  let unionsByName := by_name union_name (unions this) in
  match OpenAPINode.info schema with
  | None => throw TypeError
  | Some info =>
      let* title := lift (bang_value (InfoNode.title info)) in
      let* title := lift (pascal ext title) in
      let* version := lift (bang_value (InfoNode.version info)) in
      let* majorVersion := lift (major ext version) in
      ret {| service_sourcePath := relative_to_cwd ext sourcePath;
             service_title := title;
             service_majorVersion := majorVersion;
             service_interfaces := interfaces;
             service_types := Object_values typesByName;
             service_enums := Object_values enumsByName;
             service_unions := Object_values unionsByName;
             service_meta := parseMeta schema |}
  end.

End Parser.

(** The exported [parser]: a fresh [OAS3Parser] and one call of [parse];
    the document tree stands for the text the tree parser has read. *)
Definition parser (ext : Externals) (fuel : nat) (input : ASTNode)
  (sourcePath : string) : result (Service * list Violation) :=
  match parse ext sourcePath input fuel new_OAS3Parser with
  | OK (service, this) => OK (service, violations this)
  | Throw e => Throw e
  end.

(** ** An instance of the imported helpers for the examples

    The examples below need the helpers at a handful of inputs; this
    instance agrees with the real ones there: identifiers made of lower-case
    words joined by [_] for [camel], words that are already singular for
    [singular], decimal status codes for the number conversions. *)

Definition upper (c : ascii) : ascii :=
  let n := N_of_ascii c in
  if (97 <=? n)%N && (n <=? 122)%N then ascii_of_N (n - 32) else c.

Fixpoint example_camel (s : string) : string :=
  match s with
  | EmptyString => EmptyString
  | String c rest =>
      if Ascii.eqb c "_" then
        match rest with
        | EmptyString => EmptyString
        | String d rest' => String (upper d) (example_camel rest')
        end
      else String c (example_camel rest)
  end.

Definition example_StringToNumber (s : string) : float :=
  match s with
  | EmptyString => PrimFloat.zero
  | _ =>
      match digits_value s 0 with
      | Some n => PrimFloat.of_uint63 (Uint63.of_Z (Z.of_N n))
      | None => PrimFloat.nan
      end
  end.

Definition example_NumberToString (n : float) : string :=
  if PrimFloat.eqb n 200 then "200"
  else if PrimFloat.eqb n 201 then "201"
  else if PrimFloat.eqb n 202 then "202"
  else if PrimFloat.eqb n 204 then "204"
  else "NaN".

Definition example_ext : Externals :=
  {| camel := example_camel;
     kebab := fun s => s;
     pascal := fun v => match v with
                        | LString s => OK s
                        | _ => Throw TypeError
                        end;
     singular := fun v => match v with
                          | Some (LString s) => OK (LString s)
                          | _ => Throw TypeError
                          end;
     major := fun _ => OK 1%float;
     StringToNumber := example_StringToNumber;
     NumberToString := example_NumberToString;
     relative_to_cwd := fun p => p |}.

(** ** Definitions for the statements

    The functions and relations below are not part of the parser: they say,
    in the words of the specification, what the properties of the next part
    compare the parser with. *)

(** *** Runs of the parser *)

(** Whatever the first computation returns, the second returns too. *)
Definition refines {A : Type} (m1 m2 : M A) : Prop :=
  forall s r, m1 s = OK r -> m2 s = OK r.

(** *** Classification and pointers *)

(** The classifier as the specification words it: no [type] on an object
    node is an object schema, the six known types map to their variant,
    anything else has no classification. *)
Definition classification (node : ASTNode) : option SchemaNodeUnion :=
  match node with
  | Object children =>
      match find_child children "type" with
      | None => Some (ObjectSchema node)
      | Some (Literal (LString type)) =>
          if String.eqb type "string" then Some (StringSchema node)
          else if String.eqb type "integer" || String.eqb type "number"
          then Some (NumberSchema node)
          else if String.eqb type "boolean" then Some (BooleanSchema node)
          else if String.eqb type "array" then Some (ArraySchema node)
          else if String.eqb type "object" then Some (ObjectSchema node)
          else None
      | Some _ => None
      end
  | _ => None
  end.

(** The walk of a pointer as the specification words it: [reaches root
    segments node] when the segments, read from the left, lead from the
    root to [node], each one naming a property of the object node reached
    so far ([#] leads back to the root). *)
Inductive reaches (root : ASTNode) : list string -> ASTNode -> Prop :=
| reaches_start : reaches root [] root
| reaches_root : forall segments node,
    reaches root segments node ->
    reaches root (segments ++ ["#"]) root
| reaches_property : forall segments children segment child,
    reaches root segments (Object children) ->
    segment <> "#" ->
    find_child children segment = Some child ->
    reaches root (segments ++ [segment]) child.

(** A segment cannot be looked up on a node: the node is not an object, or
    it is an object without that property. *)
Definition lookup_fails (node : ASTNode) (segment : string) : Prop :=
  match node with
  | Object children => ~ In segment (map fst children)
  | _ => True
  end.

(** The node a list of segments leads to from [cur], if every lookup on
    the way succeeds. *)
Fixpoint walk_from (root cur : ASTNode) (segments : list string)
  : option ASTNode :=
  match segments with
  | [] => Some cur
  | segment :: rest =>
      if String.eqb segment "#" then walk_from root root rest
      else match cur with
           | Object children =>
               match find_child children segment with
               | Some child => walk_from root child rest
               | None => None
               end
           | _ => None
           end
  end.

(** *** Rules *)

(** The rule that forbids additional properties, by its [id]. *)
Definition forbids_additional (r : ObjectValidationRule) : bool :=
  String.eqb (object_rule_id r) "object-additional-properties".

(** The list of at most one item an optional value stands for. *)
Definition optional {A : Type} (x : option A) : list A :=
  match x with
  | Some a => [a]
  | None => []
  end.

(** A property that, when present, holds a literal: its value can be read. *)
Definition literal_or_absent (node : ASTNode) (key : string) : Prop :=
  match getProperty node key with
  | Some (Literal _) | None => True
  | Some _ => False
  end.

(** The truthiness of a flag: a literal property that holds a truthy value;
    for a boolean flag, the flag itself. *)
Definition flag_set (node : ASTNode) (key : string) : bool :=
  match getProperty node key with
  | Some (Literal v) => truthy v
  | _ => false
  end.

(** Upper-bound and lower-bound rules, by their [id]. *)
Definition is_upper_bound (r : ValidationRule) : bool :=
  String.eqb (rule_id r) "number-lt" || String.eqb (rule_id r) "number-lte".

Definition is_lower_bound (r : ValidationRule) : bool :=
  String.eqb (rule_id r) "number-gt" || String.eqb (rule_id r) "number-gte".

(** A number schema with both bounds and both flags. *)
Definition bounded_number_schema : ASTNode :=
  Object [("type", Literal (LString "number"));
          ("minimum", Literal (LNumber 1));
          ("maximum", Literal (LNumber 5));
          ("exclusiveMinimum", Literal (LBoolean true));
          ("exclusiveMaximum", Literal (LBoolean false))].

(** *** Success status codes *)

(** The first response key that starts with [2], in document order. *)
Definition first_2xx (responses : ASTNode) : option string :=
  hd_error (filter (fun c => startsWith c "2") (keys responses)).

(** Its numeric value, when it has one. *)
Definition numeric_2xx (ext : Externals) (responses : ASTNode) : option float :=
  match first_2xx responses with
  | Some c =>
      if PrimFloat.is_nan (StringToNumber ext c) then None
      else Some (StringToNumber ext c)
  | None => None
  end.

(** A response declares body content when its [content] has a key. *)
Definition declares_content (response : ASTNode) : bool :=
  match ResponseNode.content response with
  | Some content => negb (Nat.eqb (List.length (keys content)) 0)
  | None => false
  end.

(** The status code a [default] response with content stands for. *)
Definition default_code (verb : string) : float :=
  if String.eqb verb "delete" then 202
  else if String.eqb verb "options" then 204
  else if String.eqb verb "post" then 201
  else 200.

(** An operation whose only response is [default], with a body. *)
Definition default_only_operation : ASTNode :=
  Object [("responses",
           Object [("default",
                    Object [("description", Literal (LString "created"));
                            ("content",
                             Object [("application/json", Object [])])])])].

(** *** Security *)

(** [this.schema.components?.securitySchemes] *)
Definition declared_securitySchemes (schema : ASTNode) : option ASTNode :=
  match OpenAPINode.components schema with
  | Some components => ComponentsNode.securitySchemes components
  | None => None
  end.

(** The [security] list a node declares: the items of its [security]
    property, when that is an array. *)
Definition declared_security (node : ASTNode) : option (list ASTNode) :=
  match getProperty node "security" with
  | Some (Array requirements) => Some requirements
  | _ => None
  end.

(** The requirements that apply to an operation, as the specification
    words it: its own list when it declares one, otherwise the list of the
    document, otherwise none. *)
Definition applicable_security (schema operation : ASTNode) : list ASTNode :=
  match declared_security operation with
  | Some own => own
  | None =>
      match declared_security schema with
      | Some shared => shared
      | None => []
      end
  end.

(** [scheme.name.value] *)
Definition scheme_name (scheme : SecurityScheme) : string :=
  match scheme with
  | BasicScheme name _ => name
  | ApiKeyScheme name _ _ _ _ => name
  | OAuth2Scheme name _ _ _ => name
  end.

(** A key of a requirement that gives a scheme: the requirement holds an
    array under it, and the scheme it names under [securitySchemes] is an
    [http], [apiKey] or [oauth2] scheme written in place. *)
Definition representable (securitySchemes : option ASTNode)
  (requirements : ASTNode) (key : string) : bool :=
  match getProperty requirements key with
  | Some (Array _) =>
      match securitySchemes with
      | Some index =>
          match SecuritySchemeIndexNode.read index key with
          | OK (Some (Item (HttpSecurityScheme _)))
          | OK (Some (Item (ApiKeySecurityScheme _)))
          | OK (Some (Item (OAuth2SecurityScheme _))) => true
          | _ => false
          end
      | None => false
      end
  | _ => false
  end.

(** A name under which the document declares, in place, a scheme of type
    [openIdConnect]. *)
Definition declares_openIdConnect (schema : ASTNode) (key : string) : bool :=
  match declared_securitySchemes schema with
  | Some index =>
      match getProperty index key with
      | Some node =>
          negb (isRef node)
          && match getProperty node "type" with
             | Some (Literal (LString type)) => String.eqb type "openIdConnect"
             | _ => false
             end
      | None => false
      end
  | None => false
  end.

(** A document with a document-level requirement and three schemes, and
    an operation with a requirement of its own. *)
Definition secured_document : ASTNode :=
  Object [("security", Array [Object [("basic", Array [])]]);
          ("components",
           Object [("securitySchemes",
                    Object [("basic", Object [("type", Literal (LString "http"))]);
                            ("key",
                             Object [("type", Literal (LString "apiKey"));
                                     ("name", Literal (LString "X-Key"));
                                     ("in", Literal (LString "header"))]);
                            ("sso",
                             Object [("type", Literal (LString "openIdConnect"));
                                     ("openIdConnectUrl",
                                      Literal (LString "https://example.test"))])])])].

Definition secured_operation : ASTNode :=
  Object [("security",
           Array [Object [("sso", Array []); ("key", Array [])]])].

(** *** Operations without [operationId] *)

(** A document with one operation that has neither tags nor [operationId],
    and that operation. *)
Definition untagged_document : ASTNode :=
  Object [("info", Object [("title", Literal (LString "Pets"));
                           ("version", Literal (LString "1.0.0"))]);
          ("paths",
           Object [("/pets",
                    Object [("get",
                             Object [("responses",
                                      Object [("200",
                                               Object [("description",
                                                        Literal (LString "ok"))])])])])])].

Definition untagged_operation : ASTNode :=
  Object [("responses",
           Object [("200", Object [("description", Literal (LString "ok"))])])].

(** *** Parameter lists *)

(** The schema of the first content type, without the warning
    [getSchemaOrRef] may record. *)
Definition content_schema (content : option ASTNode) : result (option SchemaOrRef) :=
  match content with
  | None => OK None
  | Some content =>
      match keys content with
      | [] => OK None
      | first :: _ =>
          match MediaTypeIndexNode.read content first with
          | None => OK None
          | Some mediaType => MediaTypeNode.schema mediaType
          end
      end
  end.

(** The schema a request body hands to the parser: the resolved schema of
    the first content type of the resolved body, if there is one. *)
Definition requestBody_schema (schema operation : ASTNode)
  : result (option SchemaNodeUnion) :=
  match OperationNode.requestBody operation with
  | None => OK None
  | Some bodyOrRef =>
      let? body := resolve schema bodyOrRef in
      let? schemaOrRef := content_schema (RequestBodyNode.content body) in
      match schemaOrRef with
      | None => OK None
      | Some schemaOrRef => resolveSchema schema schemaOrRef
      end
  end.

(** The properties of an object node, in document order. *)
Definition children_of (node : ASTNode) : list (string * ASTNode) :=
  match node with
  | Object children => children
  | _ => []
  end.

(** A property of an operation that renames the body parameter: an
    extension [x-...] whose name, after the prefix, is
    [codegen-request-body-name] in kebab case. *)
Definition names_request_body (ext : Externals) (child : string * ASTNode)
  : bool :=
  startsWith (fst child) "x-"
  && String.eqb (kebab ext (substring_from 2 (fst child)))
                "codegen-request-body-name".

(** The name of the body parameter, as the specification words it: [body],
    unless the extension overrides it, which the first such property does
    when it holds a string. *)
Definition body_parameter_name (ext : Externals) (operation : ASTNode)
  : string :=
  match find (names_request_body ext) (children_of operation) with
  | Some (_, Literal (LString name)) => name
  | _ => "body"
  end.

(** The names at the head of both parameter lists: the name of the body
    parameter when the request body has a schema. *)
Definition body_names (ext : Externals) (schema operation : ASTNode) : list Lit :=
  match requestBody_schema schema operation with
  | OK (Some _) => [LString (body_parameter_name ext operation)]
  | _ => []
  end.

(** The names of declared parameters in a method's parameter list, in the
    order of the declarations: a reference to something that is not an
    object is passed over. *)
Inductive parameter_names (schema : ASTNode)
  : list (OrRef ASTNode) -> list Lit -> Prop :=
| parameter_names_nil : parameter_names schema [] []
| parameter_names_skip : forall p ps names,
    resolveParam schema p = OK None ->
    parameter_names schema ps names ->
    parameter_names schema (p :: ps) names
| parameter_names_keep : forall p ps names resolved name,
    resolveParam schema p = OK (Some resolved) ->
    bang_value (ParameterNode.name resolved) = OK name ->
    parameter_names schema ps names ->
    parameter_names schema (p :: ps) (name :: names).

(** The names of declared parameters in an HTTP binding, in the order of
    the declarations: a parameter located in [cookie] is left out. *)
Inductive binding_names (schema : ASTNode)
  : list (OrRef ASTNode) -> list Lit -> Prop :=
| binding_names_nil : binding_names schema [] []
| binding_names_cookie : forall p ps names resolved,
    resolveParam schema p = OK (Some resolved) ->
    bang_value (ParameterNode.in_ resolved) = OK (LString "cookie") ->
    binding_names schema ps names ->
    binding_names schema (p :: ps) names
| binding_names_keep : forall p ps names resolved location name,
    resolveParam schema p = OK (Some resolved) ->
    bang_value (ParameterNode.in_ resolved) = OK location ->
    location <> LString "cookie" ->
    bang_value (ParameterNode.name resolved) = OK name ->
    binding_names schema ps names ->
    binding_names schema (p :: ps) (name :: names).

(** A path-level parameter, an operation-level parameter, and a document
    that declares one of each. *)
Definition shared_parameter : ASTNode :=
  Object [("name", Literal (LString "shared"));
          ("in", Literal (LString "query"));
          ("schema", Object [("type", Literal (LString "string"))])].

Definition own_parameter : ASTNode :=
  Object [("name", Literal (LString "own"));
          ("in", Literal (LString "query"));
          ("schema", Object [("type", Literal (LString "string"))])].

Definition two_parameter_document : ASTNode :=
  Object [("info", Object [("title", Literal (LString "Pets"));
                           ("version", Literal (LString "1.0.0"))]);
          ("paths",
           Object [("/pets",
                    Object [("parameters", Array [shared_parameter]);
                            ("get",
                             Object [("operationId", Literal (LString "listPets"));
                                     ("parameters", Array [own_parameter]);
                                     ("responses",
                                      Object [("200",
                                               Object [("description",
                                                        Literal (LString "ok"))])])])])])].

(** An operation with a request body that the extension renames, and the
    same document with that operation. *)
Definition renamed_body_operation : ASTNode :=
  Object [("operationId", Literal (LString "addPet"));
          ("x-codegen-request-body-name", Literal (LString "payload"));
          ("parameters", Array [own_parameter]);
          ("requestBody",
           Object [("content",
                    Object [("application/json",
                             Object [("schema",
                                      Object [("type", Literal (LString "string"))])])])]);
          ("responses",
           Object [("201", Object [("description", Literal (LString "ok"))])])].

Definition renamed_body_document : ASTNode :=
  Object [("info", Object [("title", Literal (LString "Pets"));
                           ("version", Literal (LString "1.0.0"))]);
          ("paths",
           Object [("/pets",
                    Object [("parameters", Array [shared_parameter]);
                            ("post", renamed_body_operation)])])].

(** The parameter names of the methods and of the HTTP methods of a
    service, interface by interface. *)
Definition method_parameter_names (service : Service) : list (list Lit) :=
  flat_map (fun i => map (fun m => map parameter_name (method_parameters m))
                         (interface_methods i))
           (service_interfaces service).

Definition http_parameter_names (service : Service) : list (list Lit) :=
  flat_map (fun i =>
              flat_map (fun p => map (fun m => map http_parameter_name
                                                   (http_method_parameters m))
                                     (http_path_methods p))
                       (interface_http i))
           (service_interfaces service).

(** *** Name tables *)

(** The last item of a list that carries a given name. *)
Definition last_named {V : Type} (name : V -> string) (items : list V)
  (n : string) : option V :=
  find (fun x => String.eqb (name x) n) (rev items).

(** The step of the reduction that keys items by name. *)
Definition add_by_name {V : Type} (name : V -> string) (acc : JSObject V)
  (item : V) : JSObject V :=
  obj_set acc (name item) item.

(** A document whose operation has two parameters named [q], each with an
    inline enum: two enums are pushed under one name. *)
Definition colliding_document : ASTNode :=
  let q values :=
    Object [("name", Literal (LString "q"));
            ("in", Literal (LString "query"));
            ("schema", Object [("type", Literal (LString "string"));
                               ("enum", Array values)])] in
  Object [("info", Object [("title", Literal (LString "Pets"));
                           ("version", Literal (LString "1.0.0"))]);
          ("paths",
           Object [("/pets",
                    Object [("parameters", Array [q [Literal (LString "a")]]);
                            ("get",
                             Object [("operationId", Literal (LString "listPets"));
                                     ("parameters",
                                      Array [q [Literal (LString "b")]]);
                                     ("responses",
                                      Object [("200",
                                               Object [("description",
                                                        Literal (LString "ok"))])])])])])].

(** A document with an inline object response of operation [foo] and a
    component schema named [fooResponse], the name the inline object gets;
    and the two types the parser builds for them. *)
Definition shadowed_document : ASTNode :=
  Object [("info", Object [("title", Literal (LString "Foo"));
                           ("version", Literal (LString "1.0.0"))]);
          ("paths",
           Object [("/foo",
                    Object [("get",
                             Object [("operationId", Literal (LString "foo"));
                                     ("responses",
                                      Object [("200",
                                               Object [("description", Literal (LString "ok"));
                                                       ("content",
                                                        Object [("application/json",
                                                                 Object [("schema",
                                                                          Object [("type", Literal (LString "object"));
                                                                                  ("properties",
                                                                                   Object [("a", Object [("type", Literal (LString "string"))])])])])])])])])])]);
          ("components",
           Object [("schemas",
                    Object [("fooResponse",
                             Object [("type", Literal (LString "object"))])])])].

Definition inline_fooResponse : Type_ :=
  {| type_name := "fooResponse";
     type_description := None;
     type_properties :=
       [{| property_name := "a";
           property_description := None;
           property_type := {| typeName := LString "string";
                               isPrimitive := true;
                               isArray_ := false;
                               rules := [];
                               default := None;
                               constant := None |};
           property_meta := None |}];
     type_rules := [];
     type_meta := None |}.

Definition component_fooResponse : Type_ :=
  {| type_name := "fooResponse";
     type_description := None;
     type_properties := [];
     type_rules := [];
     type_meta := None |}.

(** ** More of the source *)

(** [allOperations]: the members the generator yields, in document order,
    each with its path and its key. The keys [parameters] and [x-...] of a
    path item are passed over, and a path item is read as [paths] holds
    it: one given by reference is not resolved, and yields its [$ref]
    literal. This is the generator by itself, what [forAllOperations]
    hands to the body of its loop; a key that names no member ends it, as
    [PathItemNode.member] and [RefNode.member] have it. *)
Definition allOperations (schema : ASTNode)
  : result (list (string * string * ASTNode)) :=
  match OpenAPINode.paths schema with
  | None => Throw TypeError
  | Some paths =>
      let? perPath :=
        rmap (fun path =>
                match PathsNode.read paths path with
                | None => Throw TypeError
                | Some pathItem =>
                    let? perVerb :=
                      rmap (fun verb =>
                              if String.eqb verb "parameters" || startsWith verb "x-"
                              then OK None
                              else
                                let? operation :=
                                  match pathItem with
                                  | Item n => PathItemNode.member n verb
                                  | RefNode n => RefNode.member n verb
                                  end in
                                OK (Some (path, verb, operation)))
                           (match pathItem with
                            | Item n | RefNode n => keys n
                            end) in
                    OK (defined perVerb)
                end)
             (keys paths) in
      OK (concat perPath)
  end.

(** The body of a loop over [allOperations], applied to what the generator
    yields. *)
Definition on_operation {A : Type}
  (body : string -> string -> ASTNode -> M (option A))
  (entry : string * string * ASTNode) : M (option A) :=
  body (fst (fst entry)) (snd (fst entry)) (snd entry).

(** ** Further definitions for the statements *)

(** *** Nodes, strings and JSON values *)

(** The character occurs in the string. *)
Fixpoint contains (c : ascii) (s : string) : bool :=
  match s with
  | EmptyString => false
  | String d rest => Ascii.eqb d c || contains c rest
  end.

(** The properties of a JSON object. *)
Definition Json_properties (j : Json) : JSObject Json :=
  match j with
  | JObject properties => properties
  | _ => []
  end.

(** The keys of a possibly absent node. *)
Definition keys_of (node : option ASTNode) : list string :=
  match node with
  | Some n => keys n
  | None => []
  end.

(** The node has a property of that name. *)
Definition declares (node : ASTNode) (key : string) : bool :=
  match getProperty node key with
  | Some _ => true
  | None => false
  end.

(** *** The arrays of the class *)

(** The three warnings the parser can record. *)
Definition parser_warning (v : Violation) : Prop :=
  violation_code v = "openapi-3/unsupported-feature" /\
  violation_severity v = "warning" /\
  (violation_message v = cookie_not_supported \/
   violation_message v = multiple_content_types \/
   exists style,
     violation_message v =
     "Parameter style '" ++ style
     ++ "' is not yet supported. The default 'csv' array style will be used instead.").

(** What a method of the parser may do to an array of the class: append. *)
Definition appends {A : Type} (before after : list A) : Prop :=
  exists added, after = (before ++ added)%list.

(** What [parseType] may do to the arrays: append to [enums],
    [anonymousTypes] and [unions], and leave [violations] as it was. *)
Definition defines (s s' : ParserState) : Prop :=
  violations s' = violations s /\
  appends (enums s) (enums s') /\
  appends (anonymousTypes s) (anonymousTypes s') /\
  appends (unions s) (unions s').

(** What any method may do to [violations]: append warnings. *)
Definition warns (s s' : ParserState) : Prop :=
  exists added, violations s' = (violations s ++ added)%list /\
                Forall parser_warning added.

(** Every run of [m] that returns relates the state it started from to the
    state it left. *)
Definition keeps {A : Type} (R : ParserState -> ParserState -> Prop) (m : M A)
  : Prop :=
  forall s a s', m s = OK (a, s') -> R s s'.

(** The state after one more warning. *)
Definition with_violation (s : ParserState) (v : Violation) : ParserState :=
  {| violations := violations s ++ [v];
     enums := enums s;
     anonymousTypes := anonymousTypes s;
     unions := unions s |}.

(** The names of a list in the order of their first occurrence. *)
Definition first_occurrences (names : list string) : list string :=
  fold_left (fun seen n => if existsb (String.eqb n) seen then seen
                           else (seen ++ [n])%list)
            names [].

(** *** Parameters and security *)

(** The [style] of a parameter when it is one the parser warns about. *)
Definition unsupported_style (paramNode : ASTNode) : option string :=
  match getProperty paramNode "style" with
  | Some (Literal (LString style)) =>
      if String.eqb style "matrix" || String.eqb style "label"
      then Some style else None
  | _ => None
  end.

(** A [style] property that holds the given string. *)
Definition style_is (paramNode : ASTNode) (style : string) : bool :=
  match getProperty paramNode "style" with
  | Some (Literal (LString s)) => String.eqb s style
  | _ => false
  end.

(** The message of the warning about a parameter style. *)
Definition style_not_supported (style : string) : string :=
  "Parameter style '" ++ style
  ++ "' is not yet supported. The default 'csv' array style will be used instead.".

(** A parameter whose schema is an array schema written in place. *)
Definition inline_array_schema (parameter : ASTNode) : bool :=
  match ParameterNode.schema parameter with
  | OK (Some (Item (ArraySchema _))) => true
  | _ => false
  end.

(** The locations whose array parameters get an array style. *)
Definition styled_location (location : Lit) : bool :=
  strict_equals (Some location) (Some (LString "header"))
  || strict_equals (Some location) (Some (LString "path"))
  || strict_equals (Some location) (Some (LString "query")).

(** [flow.type.value] *)
Definition flow_type (flow : OAuth2Flow) : string :=
  match flow with
  | OAuth2AuthorizationCodeFlow _ _ _ _ => "authorizationCode"
  | OAuth2ClientCredentialsFlow _ _ _ => "clientCredentials"
  | OAuth2ImplicitFlow _ _ _ => "implicit"
  | OAuth2PasswordFlow _ _ _ => "password"
  end.

(** [flow.scopes] *)
Definition flow_scopes (flow : OAuth2Flow) : list OAuth2Scope :=
  match flow with
  | OAuth2AuthorizationCodeFlow _ _ _ scopes
  | OAuth2ClientCredentialsFlow _ _ scopes
  | OAuth2ImplicitFlow _ _ scopes
  | OAuth2PasswordFlow _ _ scopes => scopes
  end.

(** *** Rules and types *)

(** The prefix the rule ids of a schema variant share. *)
Definition rule_prefix (def : SchemaNodeUnion) : string :=
  match def with
  | StringSchema _ => "string-"
  | NumberSchema _ => "number-"
  | BooleanSchema _ => "boolean-"
  | ArraySchema _ => "array-"
  | ObjectSchema _ => "object-"
  end.

(** The variant of a schema agrees with the [type] its node declares, as it
    does for every schema the classifiers hand out. *)
Definition declares_variant (s : SchemaNodeUnion) : Prop :=
  match s with
  | StringSchema n => getProperty n "type" = Some (Literal (LString "string"))
  | NumberSchema n =>
      getProperty n "type" = Some (Literal (LString "integer")) \/
      getProperty n "type" = Some (Literal (LString "number"))
  | BooleanSchema n => getProperty n "type" = Some (Literal (LString "boolean"))
  | ArraySchema n => getProperty n "type" = Some (Literal (LString "array"))
  | ObjectSchema n =>
      getProperty n "type" = Some (Literal (LString "object")) \/
      getProperty n "type" = None
  end.

(** A reference is classified when it is resolved. *)
Definition well_classified (schemaOrRef : SchemaOrRef) : Prop :=
  match schemaOrRef with
  | Item s => declares_variant s
  | RefNode _ => True
  end.

(** The names of the primitive types. *)
Definition primitive_names : list Lit :=
  [LString "string"; LString "date"; LString "date-time";
   LString "integer"; LString "long";
   LString "number"; LString "float"; LString "double";
   LString "boolean"].

(** A [format] property that holds the given string. *)
Definition format_is (node : ASTNode) (format : string) : bool :=
  match getProperty node "format" with
  | Some (Literal (LString f)) => String.eqb f format
  | _ => false
  end.

(** The variant [ArraySchemaNode]. *)
Definition is_array_schema (s : SchemaNodeUnion) : bool :=
  match s with
  | ArraySchema _ => true
  | _ => false
  end.

(** A component schema that [getSchema] classifies as an object schema. *)
Definition object_component (schema : ASTNode) (name : string) : bool :=
  match getSchema schema name with
  | OK (Some (ObjectSchema _)) => true
  | _ => false
  end.

(** The property names one member of an [allOf] list contributes: the keys
    of the [properties] of the node the member resolves to. *)
Definition member_property_names (schema : ASTNode) (subDef : SchemaOrRef)
  : list string :=
  match resolve_as_object schema subDef with
  | OK resolved => keys_of (ObjectSchemaNode.properties resolved)
  | Throw _ => []
  end.

(** *** Operations and interfaces *)

(** The keys of a path item that [allOperations] passes over. *)
Definition skipped_key (verb : string) : bool :=
  String.eqb verb "parameters" || startsWith verb "x-".

(** Two names a [Set] keeps apart. *)
Definition distinct_names (names : list (option Lit)) : Prop :=
  ForallOrdPairs (fun a b => same_value_zero b a = false) names.

(** The operations of one interface: those whose interface name is strictly
    equal to the name of the interface. *)
Definition in_interface (interfaceName : option Lit)
  (entry : string * string * ASTNode) : bool :=
  match parseInterfaceName (fst (fst entry)) (snd entry) with
  | OK name => strict_equals name interfaceName
  | Throw _ => false
  end.

(** The path and the verb of every method of an HTTP binding, in order. *)
Definition bound_operations (httpPaths : list HttpPath) : list (string * string) :=
  flat_map (fun p => map (fun m => (http_path p, http_method_verb m))
                         (http_path_methods p))
           httpPaths.

(** The members of the path items that the loop of [parseHttpProtocol]
    reads: every key but [parameters] of every resolved path item, in
    document order, each with its path and its key. *)
Definition resolved_members (schema : ASTNode)
  : result (list (string * string * ASTNode)) :=
  match OpenAPINode.paths schema with
  | None => Throw TypeError
  | Some paths =>
      let? perPath :=
        rmap (fun path =>
                match PathsNode.read paths path with
                | None => Throw TypeError
                | Some itemOrRef =>
                    let? pathItem := resolve schema itemOrRef in
                    let? perVerb :=
                      rmap (fun verb =>
                              if String.eqb verb "parameters" then OK None
                              else
                                let? operation :=
                                  PathItemNode.member pathItem verb in
                                OK (Some (path, verb, operation)))
                           (keys pathItem) in
                    OK (defined perVerb)
                end)
             (keys paths) in
      OK (concat perPath)
  end.

(** Every path item of the document is written in place. *)
Definition written_in_place (schema : ASTNode) : Prop :=
  forall paths path ref,
    OpenAPINode.paths schema = Some paths ->
    In path (keys paths) ->
    PathsNode.read paths path <> Some (RefNode ref).

(** *** Further documents and schemas *)

(** A document whose path item holds a [summary] beside an operation
    tagged [store]. *)
Definition described_path_document : ASTNode :=
  Object [("info", Object [("title", Literal (LString "Pets"));
                           ("version", Literal (LString "1.0.0"))]);
          ("paths",
           Object [("/pets",
                    Object [("summary", Literal (LString "Pets"));
                            ("get",
                             Object [("operationId", Literal (LString "listPets"));
                                     ("tags", Array [Literal (LString "store")]);
                                     ("responses",
                                      Object [("200",
                                               Object [("description",
                                                        Literal (LString "ok"))])])])])])].

(** A document whose path item is given by reference; the operation
    behind the reference is tagged [store]. *)
Definition referenced_path_document : ASTNode :=
  Object [("info", Object [("title", Literal (LString "Pets"));
                           ("version", Literal (LString "1.0.0"))]);
          ("paths", Object [("/pets", Object [("$ref", Literal (LString "#/x"))])]);
          ("x",
           Object [("get",
                    Object [("operationId", Literal (LString "listPets"));
                            ("tags", Array [Literal (LString "store")]);
                            ("responses",
                             Object [("200",
                                      Object [("description",
                                               Literal (LString "ok"))])])])])].

(** A document with a cookie parameter and a response with two content
    types: the parser records two warnings for it. *)
Definition cookie_document : ASTNode :=
  Object [("info", Object [("title", Literal (LString "Pets"));
                           ("version", Literal (LString "1.0.0"))]);
          ("paths",
           Object [("/pets",
                    Object [("get",
                             Object [("operationId", Literal (LString "listPets"));
                                     ("parameters",
                                      Array [Object [("name", Literal (LString "session"));
                                                     ("in", Literal (LString "cookie"));
                                                     ("schema", Object [("type", Literal (LString "string"))])]]);
                                     ("responses",
                                      Object [("200",
                                               Object [("description", Literal (LString "ok"));
                                                       ("content",
                                                        Object [("application/json",
                                                                 Object [("schema", Object [("type", Literal (LString "string"))])]);
                                                                ("text/plain",
                                                                 Object [("schema", Object [("type", Literal (LString "string"))])])])])])])])])].

(** A document without operations whose component [Pet] is composed with
    [allOf] and also declares a property of its own. *)
Definition composed_document : ASTNode :=
  Object [("info", Object [("title", Literal (LString "Pets"));
                           ("version", Literal (LString "1.0.0"))]);
          ("paths", Object []);
          ("components",
           Object [("schemas",
                    Object [("Base",
                             Object [("type", Literal (LString "object"));
                                     ("properties",
                                      Object [("id", Object [("type", Literal (LString "integer"));
                                                             ("format", Literal (LString "int64"))])])]);
                            ("Color",
                             Object [("type", Literal (LString "string"));
                                     ("enum", Array [Literal (LString "red")])]);
                            ("Pet",
                             Object [("allOf",
                                      Array [Object [("$ref", Literal (LString "#/components/schemas/Base"))];
                                             Object [("properties",
                                                      Object [("name", Object [("type", Literal (LString "string"))])])]]);
                                     ("properties",
                                      Object [("ignored", Object [("type", Literal (LString "string"))])])])])])].

(** The document of [two_parameter_document] with an extension on its path
    item. *)
Definition extended_path_document : ASTNode :=
  Object [("info", Object [("title", Literal (LString "Pets"));
                           ("version", Literal (LString "1.0.0"))]);
          ("paths",
           Object [("/pets",
                    Object [("x-internal", Literal (LBoolean true));
                            ("get",
                             Object [("operationId", Literal (LString "listPets"));
                                     ("responses",
                                      Object [("200",
                                               Object [("description",
                                                        Literal (LString "ok"))])])])])])].

(** A string schema with two enumerated values. *)
Definition color_enum_schema : ASTNode :=
  Object [("type", Literal (LString "string"));
          ("enum", Array [Literal (LString "red"); Literal (LString "green")])].

(** An integer schema of format [int64]. *)
Definition int64_schema : ASTNode :=
  Object [("type", Literal (LString "integer"));
          ("format", Literal (LString "int64"))].

(** An array of arrays of strings. *)
Definition nested_array_schema : ASTNode :=
  Object [("type", Literal (LString "array"));
          ("items", Object [("type", Literal (LString "array"));
                            ("items", Object [("type", Literal (LString "string"))])])].

(** The flows of an OAuth2 scheme, [password] before [implicit]. *)
Definition oauth_flows : ASTNode :=
  Object [("password",
           Object [("tokenUrl", Literal (LString "https://example.test/token"));
                   ("scopes", Object [("read", Literal (LString "read access"))])]);
          ("implicit",
           Object [("authorizationUrl", Literal (LString "https://example.test/auth"));
                   ("scopes", Object [])])].

(** A component schema that is an array of itself. *)
Definition recursive_array_document : ASTNode :=
  Object [("components",
           Object [("schemas",
                    Object [("Tree",
                             Object [("type", Literal (LString "array"));
                                     ("items",
                                      Object [("$ref",
                                               Literal (LString "#/components/schemas/Tree"))])])])])].

(** A query parameter whose schema is a reference to an array schema. *)
Definition referenced_array_document : ASTNode :=
  Object [("components",
           Object [("schemas",
                    Object [("Tags",
                             Object [("type", Literal (LString "array"));
                                     ("items", Object [("type", Literal (LString "string"))])])])])].

(** The parameter: [pipeDelimited], and a schema given by reference. *)
Definition referenced_array_parameter : ASTNode :=
  Object [("name", Literal (LString "tags"));
          ("in", Literal (LString "query"));
          ("style", Literal (LString "pipeDelimited"));
          ("schema", Object [("$ref", Literal (LString "#/components/schemas/Tags"))])].

(** * Properties *)

(** ** Helper lemmas on the document tree *)

Lemma find_child_None : forall children key,
  find_child children key = None <-> ~ In key (map fst children).
Proof.
  induction children as [|[k v] rest IH]; intros key; simpl.
  - split; [intros _ H; exact H | reflexivity].
  - destruct (String.eqb_spec k key) as [->|Hne].
    + split; [discriminate | intros H; exfalso; apply H; now left].
    + rewrite IH. split.
      * intros H [Heq|Hin]; [now apply Hne | now apply H].
      * intros H Hin. apply H. now right.
Qed.

(** ** Reasoning about the parser monad *)

Lemma bind_OK : forall (A B : Type) (m : M A) (k : A -> M B) s b s',
  bind m k s = OK (b, s') ->
  exists a s1, m s = OK (a, s1) /\ k a s1 = OK (b, s').
Proof.
  intros A B m k s b s' H. unfold bind in H.
  destruct (m s) as [[a s1]|e]; [|discriminate]. eauto.
Qed.

Lemma lift_OK : forall (A : Type) (r : result A) s a s',
  lift r s = OK (a, s') -> r = OK a /\ s' = s.
Proof.
  intros A r s a s' H. unfold lift in H.
  destruct r; [|discriminate]. injection H as -> ->. auto.
Qed.

Lemma ret_OK : forall (A : Type) (x : A) s a s',
  ret x s = OK (a, s') -> a = x /\ s' = s.
Proof. intros A x s a s' H. unfold ret in H. injection H as -> ->. auto. Qed.

Lemma mapM_OK : forall (A B : Type) (f : A -> M B) l s ys s',
  mapM f l s = OK (ys, s') ->
  Forall2 (fun x y => exists s1 s2, f x s1 = OK (y, s2)) l ys.
Proof.
  intros A B f l. induction l as [|x xs IH]; intros s ys s' H.
  - apply ret_OK in H. destruct H as [-> _]. constructor.
  - cbn [mapM] in H.
    apply bind_OK in H. destruct H as (y & s1 & Hy & H).
    apply bind_OK in H. destruct H as (ys' & s2 & Hys & H).
    apply ret_OK in H. destruct H as [-> _].
    constructor; [eauto | eapply IH; eauto].
Qed.

(** One step of inversion on a run of the parser monad that returned. *)
Ltac run_step H :=
  match type of H with
  | bind (lift _) _ _ = OK _ =>
      let a := fresh "a" in
      let s := fresh "s" in
      let Ha := fresh "Hrun" in
      let Hs := fresh "Hs" in
      apply bind_OK in H; destruct H as (a & s & Ha & H);
      apply lift_OK in Ha; destruct Ha as [Ha Hs]; subst s;
      try (injection Ha as Ha; subst a)
  | bind _ _ _ = OK _ =>
      let a := fresh "a" in
      let s := fresh "s" in
      let Ha := fresh "Hrun" in
      apply bind_OK in H; destruct H as (a & s & Ha & H)
  | lift _ _ = OK _ =>
      let Hs := fresh "Hs" in
      apply lift_OK in H; destruct H as [H Hs]; try subst
  | ret _ _ = OK _ =>
      let Hs := fresh "Hs" in
      apply ret_OK in H; destruct H as [H Hs]; try subst
  | throw _ _ = OK _ => discriminate H
  | (if ?c then _ else _) _ = OK _ => destruct c eqn:?
  | (match ?x with _ => _ end) _ = OK _ => destruct x eqn:?
  end.

(** ** Computations in [result] *)

(** Inversion of a computation in [result] that returned. *)
Ltac factory_cases H :=
  repeat match type of H with
    | rbind ?r _ = OK _ =>
        let E := fresh "E" in
        destruct r eqn:E; cbn [rbind] in H; [|discriminate H]
    | (match ?x with _ => _ end) = OK _ => destruct x eqn:?
    | (if ?x then _ else _) = OK _ => destruct x eqn:?
    | OK _ = OK _ => injection H as <-
    | Throw _ = OK _ => discriminate H
    end.

Lemma rmap_OK : forall (A B : Type) (f : A -> result B) l ys,
  rmap f l = OK ys -> Forall2 (fun x y => f x = OK y) l ys.
Proof.
  intros A B f l. induction l as [|x xs IH]; intros ys H; simpl in H.
  - injection H as <-. constructor.
  - destruct (f x) as [y|] eqn:Hy; cbn [rbind] in H; [|discriminate].
    destruct (rmap f xs) as [ys'|]; cbn [rbind] in H; [|discriminate].
    injection H as <-. constructor; auto.
Qed.

(** ** Fuel

    A run that returns with some fuel returns the same with more: the
    outcome of a successful parse does not depend on the bound. *)

Lemma refines_refl : forall (A : Type) (m : M A), refines m m.
Proof. intros A m s r H. exact H. Qed.

Lemma refines_throw : forall (A : Type) (e : string) (m : M A),
  refines (throw e) m.
Proof. intros A e m s r H. discriminate H. Qed.

Lemma refines_bind : forall (A B : Type) (m1 m2 : M A) (k1 k2 : A -> M B),
  refines m1 m2 ->
  (forall a, refines (k1 a) (k2 a)) ->
  refines (bind m1 k1) (bind m2 k2).
Proof.
  intros A B m1 m2 k1 k2 Hm Hk s r H. unfold bind in *.
  destruct (m1 s) as [[a s1]|e] eqn:H1; [|discriminate].
  rewrite (Hm _ _ H1). now apply Hk.
Qed.

Lemma refines_mapM : forall (A B : Type) (f g : A -> M B) (l : list A),
  (forall x, refines (f x) (g x)) ->
  refines (mapM f l) (mapM g l).
Proof.
  intros A B f g l H. induction l as [|x xs IH]; cbn [mapM].
  - apply refines_refl.
  - apply refines_bind; [apply H|]. intros y.
    apply refines_bind; [apply IH|]. intros ys. apply refines_refl.
Qed.

Ltac refines_step IH :=
  first
    [ apply refines_refl
    | apply refines_throw
    | apply IH
    | apply refines_mapM; intros ?
    | apply refines_bind; [|intros ?]
    | match goal with
      | |- refines (match ?x with _ => _ end) _ => destruct x
      | |- refines (if ?c then _ else _) _ => destruct c
      end ].

Lemma parseType_parseProperties_fuel : forall ext schema n,
  (forall m schemaOrRef localName parentName,
      n <= m ->
      refines (parseType ext schema n schemaOrRef localName parentName)
              (parseType ext schema m schemaOrRef localName parentName)) /\
  (forall m properties required allOf parentName,
      n <= m ->
      refines (parseProperties ext schema n properties required allOf parentName)
              (parseProperties ext schema m properties required allOf parentName)).
Proof.
  intros ext schema n. induction n as [|n [IHt IHp]].
  - split; intros; apply refines_throw.
  - split.
    + intros m schemaOrRef localName parentName Hle.
      destruct m as [|m]; [lia|]. apply le_S_n in Hle.
      cbn [parseType].
      assert (IHt' : forall s l p, refines (parseType ext schema n s l p)
                                           (parseType ext schema m s l p))
        by (intros; now apply IHt).
      assert (IHp' : forall a b c d,
                 refines (parseProperties ext schema n a b c d)
                         (parseProperties ext schema m a b c d))
        by (intros; now apply IHp).
      repeat (refines_step IHt' || refines_step IHp').
    + intros m properties required allOf parentName Hle.
      destruct m as [|m]; [lia|]. apply le_S_n in Hle.
      cbn [parseProperties].
      assert (IHt' : forall s l p, refines (parseType ext schema n s l p)
                                           (parseType ext schema m s l p))
        by (intros; now apply IHt).
      assert (IHp' : forall a b c d,
                 refines (parseProperties ext schema n a b c d)
                         (parseProperties ext schema m a b c d))
        by (intros; now apply IHp).
      repeat (refines_step IHt' || refines_step IHp').
Qed.

Lemma parseType_fuel : forall ext schema n m schemaOrRef localName parentName,
  n <= m ->
  refines (parseType ext schema n schemaOrRef localName parentName)
          (parseType ext schema m schemaOrRef localName parentName).
Proof.
  intros ext schema n m s l p H.
  now apply (proj1 (parseType_parseProperties_fuel ext schema n)).
Qed.

Lemma parseProperties_fuel :
  forall ext schema n m properties required allOf parentName,
  n <= m ->
  refines (parseProperties ext schema n properties required allOf parentName)
          (parseProperties ext schema m properties required allOf parentName).
Proof.
  intros ext schema n m a b c d H.
  now apply (proj2 (parseType_parseProperties_fuel ext schema n)).
Qed.

Create HintDb fuel.
#[local] Hint Resolve parseType_fuel parseProperties_fuel : fuel.

Ltac refines_auto :=
  repeat first
    [ apply refines_refl
    | apply refines_throw
    | solve [auto with fuel]
    | apply refines_mapM; intros ?
    | apply refines_bind; [|intros ?]
    | match goal with
      | |- refines (match ?x with _ => _ end) _ => destruct x
      | |- refines (if ?c then _ else _) _ => destruct c
      end ].

Lemma parseRequestBody_fuel :
  forall ext schema n m bodyOrRef methodName paramName,
  n <= m ->
  refines (parseRequestBody ext schema n bodyOrRef methodName paramName)
          (parseRequestBody ext schema m bodyOrRef methodName paramName).
Proof. intros. unfold parseRequestBody. refines_auto. Qed.

Lemma parseParameter_fuel : forall ext schema n m param methodName,
  n <= m ->
  refines (parseParameter ext schema n param methodName)
          (parseParameter ext schema m param methodName).
Proof. intros. unfold parseParameter. refines_auto. Qed.

#[local] Hint Resolve parseRequestBody_fuel parseParameter_fuel : fuel.

Lemma parseParameters_fuel : forall ext schema n m operation commonParameters,
  n <= m ->
  refines (parseParameters ext schema n operation commonParameters)
          (parseParameters ext schema m operation commonParameters).
Proof. intros. unfold parseParameters. refines_auto. Qed.

Lemma parseReturnType_fuel : forall ext schema n m operation,
  n <= m ->
  refines (parseReturnType ext schema n operation)
          (parseReturnType ext schema m operation).
Proof. intros. unfold parseReturnType. refines_auto. Qed.

#[local] Hint Resolve parseParameters_fuel parseReturnType_fuel : fuel.

Lemma forAllOperations_refines :
  forall schema (A : Type) (b1 b2 : string -> string -> ASTNode -> M (option A)),
  (forall path verb operation,
      refines (b1 path verb operation) (b2 path verb operation)) ->
  refines (forAllOperations schema b1) (forAllOperations schema b2).
Proof. intros schema A b1 b2 H. unfold forAllOperations. refines_auto. Qed.

Lemma parseMethods_fuel : forall ext schema n m interfaceName,
  n <= m ->
  refines (parseMethods ext schema n interfaceName)
          (parseMethods ext schema m interfaceName).
Proof.
  intros. unfold parseMethods. apply forAllOperations_refines.
  intros path verb operation. unfold parseMethods_body. refines_auto.
Qed.

Lemma parseHttpProtocol_fuel : forall ext schema n m interfaceName,
  n <= m ->
  refines (parseHttpProtocol ext schema n interfaceName)
          (parseHttpProtocol ext schema m interfaceName).
Proof.
  intros. unfold parseHttpProtocol, parseHttpProtocol_method. refines_auto.
Qed.

#[local] Hint Resolve parseMethods_fuel parseHttpProtocol_fuel : fuel.

Lemma parseInterfaces_fuel : forall ext schema n m,
  n <= m ->
  refines (parseInterfaces ext schema n) (parseInterfaces ext schema m).
Proof.
  intros. unfold parseInterfaces.
  apply refines_bind; [apply refines_refl|intros names].
  apply refines_mapM; intros name.
  apply refines_bind; [apply refines_refl|intros single].
  apply refines_bind; [auto with fuel|intros methods].
  apply refines_bind; [auto with fuel|intros http].
  apply refines_refl.
Qed.

Lemma parseDefinitions_fuel : forall ext schema n m,
  n <= m ->
  refines (parseDefinitions ext schema n) (parseDefinitions ext schema m).
Proof. intros. unfold parseDefinitions. refines_auto. Qed.

#[local] Hint Resolve parseInterfaces_fuel parseDefinitions_fuel : fuel.

(** Enough fuel gives the result: a parse that returns with [n] returns
    the same service, and leaves the same arrays, with any larger bound. *)
Theorem parse_fuel : forall ext sourcePath schema n m st service st',
  n <= m ->
  parse ext sourcePath schema n st = OK (service, st') ->
  parse ext sourcePath schema m st = OK (service, st').
Proof.
  intros ext sourcePath schema n m st service st' Hle.
  assert (H : refines (parse ext sourcePath schema n)
                      (parse ext sourcePath schema m)).
  { unfold parse.
    apply refines_bind; [apply refines_refl|intros reset].
    apply refines_bind; [auto with fuel|intros interfaces].
    apply refines_bind; [auto with fuel|intros types].
    apply refines_refl. }
  apply H.
Qed.

(** ** C1: name tables *)

Lemma find_append : forall (A : Type) (p : A -> bool) (a b : list A),
  find p (a ++ b) = match find p a with
                    | Some x => Some x
                    | None => find p b
                    end.
Proof.
  intros A p a b. induction a as [|x xs IH]; cbn [app find].
  - reflexivity.
  - destruct (p x); [reflexivity | exact IH].
Qed.

Section ObjectsAsMaps.

Context {V : Type}.
Variable name : V -> string.

Lemma obj_get_set : forall (o : JSObject V) k v k',
  obj_get (obj_set o k v) k' = if String.eqb k k' then Some v else obj_get o k'.
Proof.
  induction o as [|[k0 v0] rest IH]; intros k v k'; cbn [obj_set obj_get].
  - reflexivity.
  - destruct (String.eqb_spec k0 k) as [->|Hne]; cbn [obj_get].
    + destruct (String.eqb_spec k k'); reflexivity.
    + rewrite IH. destruct (String.eqb_spec k0 k') as [->|]; [|reflexivity].
      destruct (String.eqb_spec k k') as [->|]; [now elim Hne|reflexivity].
Qed.

Lemma obj_set_keys : forall (o : JSObject V) k v,
  map fst (obj_set o k v) = map fst o \/
  (~ In k (map fst o) /\ map fst (obj_set o k v) = (map fst o ++ [k])%list).
Proof.
  induction o as [|[k0 v0] rest IH]; intros k v; cbn [obj_set map fst].
  - right. split; [intros [] | reflexivity].
  - destruct (String.eqb_spec k0 k) as [->|Hne]; cbn [map fst].
    + now left.
    + destruct (IH k v) as [->|[Hnin ->]].
      * now left.
      * right. split; [|reflexivity]. intros [H|H]; [now apply Hne | now apply Hnin].
Qed.

Lemma obj_set_NoDup : forall (o : JSObject V) k v,
  NoDup (map fst o) -> NoDup (map fst (obj_set o k v)).
Proof.
  intros o k v H. destruct (obj_set_keys o k v) as [->|[Hnin ->]]; [exact H|].
  apply NoDup_app; [exact H | repeat constructor; intros [] |].
  intros x Hx [<-|[]]. now apply Hnin.
Qed.

Lemma obj_get_In : forall (o : JSObject V) k v,
  obj_get o k = Some v -> In (k, v) o.
Proof.
  induction o as [|[k0 v0] rest IH]; intros k v; cbn [obj_get].
  - discriminate.
  - destruct (String.eqb_spec k0 k) as [->|].
    + intros [= ->]. now left.
    + intros H. right. now apply IH.
Qed.

Lemma obj_get_keys : forall (o : JSObject V) k,
  In k (map fst o) -> exists v, obj_get o k = Some v.
Proof.
  induction o as [|[k0 v0] rest IH]; intros k; cbn [obj_get map fst].
  - intros [].
  - destruct (String.eqb_spec k0 k) as [->|Hne].
    + eauto.
    + intros [H|H]; [now elim Hne | now apply IH].
Qed.

Lemma fold_by_name_NoDup : forall items (acc : JSObject V),
  NoDup (map fst acc) -> NoDup (map fst (fold_left (add_by_name name) items acc)).
Proof.
  induction items as [|x xs IH]; intros acc H; cbn [fold_left].
  - exact H.
  - apply IH. now apply obj_set_NoDup.
Qed.

Lemma fold_by_name_get : forall items (acc : JSObject V) n,
  obj_get (fold_left (add_by_name name) items acc) n =
  match last_named name items n with
  | Some x => Some x
  | None => obj_get acc n
  end.
Proof.
  induction items as [|x xs IH]; intros acc n; cbn [fold_left].
  - reflexivity.
  - rewrite IH. unfold last_named. cbn [rev]. rewrite find_append.
    destruct (find (fun x0 => String.eqb (name x0) n) (rev xs)); [reflexivity|].
    unfold add_by_name. rewrite obj_get_set. cbn [find].
    destruct (String.eqb (name x) n); reflexivity.
Qed.

Lemma by_name_get : forall items n,
  obj_get (by_name name items) n = last_named name items n.
Proof.
  intros items n. unfold by_name.
  change (fun acc item => obj_set acc (name item) item) with (add_by_name name).
  rewrite fold_by_name_get. now destruct (last_named name items n).
Qed.

Lemma by_name_NoDup : forall items, NoDup (map fst (by_name name items)).
Proof.
  intros items. unfold by_name.
  change (fun acc item => obj_set acc (name item) item) with (add_by_name name).
  apply fold_by_name_NoDup. constructor.
Qed.

Lemma last_named_name : forall items n x,
  last_named name items n = Some x -> name x = n /\ In x items.
Proof.
  intros items n x H. unfold last_named in H. apply find_some in H.
  destruct H as [Hin Heq]. split.
  - now apply String.eqb_eq.
  - now apply in_rev.
Qed.

Lemma last_named_app : forall a b n,
  last_named name (a ++ b) n =
  match last_named name b n with
  | Some x => Some x
  | None => last_named name a n
  end.
Proof.
  intros a b n. unfold last_named. now rewrite rev_app_distr, find_append.
Qed.

Lemma last_named_defined : forall items x,
  In x items -> exists y, last_named name items (name x) = Some y.
Proof.
  intros items x Hin. unfold last_named.
  destruct (find (fun x0 => String.eqb (name x0) (name x)) (rev items)) eqn:Hf;
    [eauto|].
  exfalso. pose proof (find_none _ _ Hf x) as Hnone. cbn beta in Hnone.
  rewrite String.eqb_refl in Hnone.
  assert (Hrev : In x (rev items)) by now apply -> in_rev.
  specialize (Hnone Hrev). discriminate Hnone.
Qed.

End ObjectsAsMaps.

Lemma insert_index_Permutation : forall k l,
  Permutation (insert_index k l) (k :: l).
Proof.
  intros k l. induction l as [|h t IH]; cbn [insert_index].
  - reflexivity.
  - destruct (fst k <=? fst h)%N; [reflexivity|].
    rewrite IH. apply perm_swap.
Qed.

Lemma sort_indices_Permutation : forall l, Permutation (sort_indices l) l.
Proof.
  induction l as [|x xs IH]; cbn.
  - reflexivity.
  - unfold sort_indices in IH. rewrite insert_index_Permutation.
    now constructor.
Qed.

Lemma Object_keys_Permutation : forall (V : Type) (o : JSObject V),
  Permutation (Object_keys o) (map fst o).
Proof.
  intros V o. unfold Object_keys.
  rewrite (Permutation_map snd (sort_indices_Permutation _)).
  induction (map fst o) as [|k ks IH]; cbn [index_keys filter map].
  - reflexivity.
  - unfold is_plain_key at 1. destruct (array_index k); cbn [map snd].
    + now constructor.
    + rewrite <- Permutation_middle. now constructor.
Qed.

Section ObjectValues.

Context {V : Type}.
Variable name : V -> string.

Lemma values_of_keys : forall (o : JSObject V) ks,
  (forall k, In k ks -> exists v, obj_get o k = Some v /\ name v = k) ->
  map name (flat_map (fun k => match obj_get o k with
                               | Some v => [v]
                               | None => []
                               end) ks) = ks.
Proof.
  intros o ks. induction ks as [|k rest IH]; intros H; cbn [flat_map].
  - reflexivity.
  - destruct (H k (or_introl eq_refl)) as (v & -> & Hn).
    cbn [app map]. rewrite Hn. f_equal. apply IH.
    intros k' Hk'. apply H. now right.
Qed.

Lemma by_name_entries : forall items k v,
  obj_get (by_name name items) k = Some v -> name v = k.
Proof.
  intros items k v H. rewrite by_name_get in H.
  now apply last_named_name in H.
Qed.

Lemma Object_values_names : forall items,
  map name (Object_values (by_name name items))
  = Object_keys (by_name name items).
Proof.
  intros items. unfold Object_values. apply values_of_keys.
  intros k Hk.
  apply (Permutation_in _ (Object_keys_Permutation _ _)) in Hk.
  destruct (obj_get_keys _ _ Hk) as [v Hv].
  exists v. split; [exact Hv | eapply by_name_entries; eauto].
Qed.

(** The values of an object built by name: no name twice, and each value
    is the last of the items that carry its name. *)
Lemma Object_values_by_name : forall items,
  NoDup (map name (Object_values (by_name name items))) /\
  (forall x, In x (Object_values (by_name name items)) <->
             last_named name items (name x) = Some x).
Proof.
  intros items. split.
  - rewrite Object_values_names.
    eapply Permutation_NoDup;
      [symmetry; apply Object_keys_Permutation | apply by_name_NoDup].
  - intros x. unfold Object_values. rewrite in_flat_map. split.
    + intros (k & Hk & Hx).
      destruct (obj_get (by_name name items) k) as [v|] eqn:Hget; [|contradiction].
      destruct Hx as [<-|[]].
      rewrite <- (by_name_entries _ _ _ Hget) in Hget.
      now rewrite by_name_get in Hget.
    + intros Hlast. exists (name x). rewrite by_name_get, Hlast.
      split; [|now left].
      apply (Permutation_in _ (Permutation_sym (Object_keys_Permutation _ _))).
      rewrite <- by_name_get in Hlast. apply obj_get_In in Hlast.
      now apply (in_map fst) in Hlast.
Qed.

End ObjectValues.

Lemma parse_assembles :
  forall ext sourcePath input fuel service this,
  parse ext sourcePath input fuel new_OAS3Parser = OK (service, this) ->
  exists types before,
    parseDefinitions ext input fuel before = OK (types, this) /\
    service_types service
    = Object_values (by_name type_name (types ++ anonymousTypes this)) /\
    service_enums service = Object_values (by_name enum_name (enums this)) /\
    service_unions service = Object_values (by_name union_name (unions this)).
Proof.
  intros ext sourcePath input fuel service this H. unfold parse in H.
  run_step H. run_step H. run_step H. run_step H.
  unfold get_state in Hrun2. injection Hrun2 as <- <-.
  destruct (OpenAPINode.info input); [|discriminate].
  repeat run_step H.
  exists a1, s0. repeat split. exact Hrun1.
Qed.

(** C1, as the code has it: in the service a parse returns, no two types,
    no two enums and no two unions carry the same name; an enum (a union)
    is in the output exactly when it is the last one pushed under its name
    during the pass; a type whose name was given to some anonymous type is
    in the output exactly when it is the last anonymous type pushed under
    that name; and over all, the types of the output are the last ones by
    name of the component types followed by the anonymous types, whichever
    of them was built first. *)
Theorem output_names_unique_last_wins :
  forall (ext : Externals) (sourcePath : string) (input : ASTNode) (fuel : nat)
         (service : Service) (this : ParserState),
  parse ext sourcePath input fuel new_OAS3Parser = OK (service, this) ->
  NoDup (map type_name (service_types service)) /\
  NoDup (map enum_name (service_enums service)) /\
  NoDup (map union_name (service_unions service)) /\
  (forall e, In e (service_enums service) <->
             last_named enum_name (enums this) (enum_name e) = Some e) /\
  (forall u, In u (service_unions service) <->
             last_named union_name (unions this) (union_name u) = Some u) /\
  (forall t, In (type_name t) (map type_name (anonymousTypes this)) ->
             (In t (service_types service) <->
              last_named type_name (anonymousTypes this) (type_name t) = Some t)) /\
  (exists types before,
      parseDefinitions ext input fuel before = OK (types, this) /\
      forall t, In t (service_types service) <->
                last_named type_name (types ++ anonymousTypes this) (type_name t)
                = Some t).
Proof.
  intros ext sourcePath input fuel service this H.
  destruct (parse_assembles _ _ _ _ _ _ H)
    as (types & before & Hdefs & Htypes & Henums & Hunions).
  rewrite Htypes, Henums, Hunions.
  destruct (Object_values_by_name type_name (types ++ anonymousTypes this))
    as [Hnt Hlt].
  destruct (Object_values_by_name enum_name (enums this)) as [Hne Hle].
  destruct (Object_values_by_name union_name (unions this)) as [Hnu Hlu].
  repeat (split; [assumption|]). split.
  - intros t Hin. rewrite Hlt, last_named_app.
    apply in_map_iff in Hin. destruct Hin as (t' & Hname & Hin).
    destruct (last_named_defined type_name _ _ Hin) as [y Hy].
    rewrite Hname in Hy. rewrite Hy. reflexivity.
  - exists types, before. split; [exact Hdefs | exact Hlt].
Qed.

(** Two parameters named [q] of one operation, each with an inline enum:
    two enums are pushed under one name, and the output keeps the second. *)
Lemma output_names_unique_last_wins_witness :
  match parse example_ext "api.json" colliding_document 5 new_OAS3Parser with
  | OK (service, this) =>
      enums this
      = [ {| enum_name := "listPetsQ"; enum_values := [LString "a"] |};
          {| enum_name := "listPetsQ"; enum_values := [LString "b"] |} ] /\
      service_enums service
      = [ {| enum_name := "listPetsQ"; enum_values := [LString "b"] |} ] /\
      NoDup (map enum_name (service_enums service)) /\
      (forall e, In e (service_enums service) <->
                 last_named enum_name (enums this) (enum_name e) = Some e)
  | Throw _ => False
  end.
Proof.
  destruct (parse example_ext "api.json" colliding_document 5 new_OAS3Parser)
    as [[service this]|e] eqn:Hrun.
  - destruct (output_names_unique_last_wins _ _ _ _ _ _ Hrun)
      as (_ & Hnodup & _ & Hlast & _).
    vm_compute in Hrun. injection Hrun as <- <-.
    split; [reflexivity|]. split; [reflexivity|].
    split; [exact Hnodup | exact Hlast].
  - vm_compute in Hrun. discriminate Hrun.
Defined.

(** C1 as written fails on types: the anonymous type [fooResponse] is
    pushed while the interfaces are parsed, the component type
    [fooResponse] is built afterwards, when the definitions are parsed, and
    the output keeps the anonymous type, the earlier of the two. *)
Lemma later_component_type_is_replaced :
  exists interfaces afterInterfaces this service,
    parseInterfaces example_ext shadowed_document 5 new_OAS3Parser
    = OK (interfaces, afterInterfaces) /\
    anonymousTypes afterInterfaces = [inline_fooResponse] /\
    parseDefinitions example_ext shadowed_document 5 afterInterfaces
    = OK ([component_fooResponse], this) /\
    type_name inline_fooResponse = type_name component_fooResponse /\
    inline_fooResponse <> component_fooResponse /\
    parse example_ext "api.json" shadowed_document 5 new_OAS3Parser
    = OK (service, this) /\
    service_types service = [inline_fooResponse].
Proof.
  do 4 eexists.
  split; [vm_compute; reflexivity|].
  split; [reflexivity|].
  split; [vm_compute; reflexivity|].
  split; [reflexivity|].
  split; [discriminate|].
  split; [vm_compute; reflexivity|].
  reflexivity.
Qed.

(** ** C2: the reference resolver *)

Section Walk.

Variable root : ASTNode.

Lemma resolveRef_loop_walk : forall ref segments cur,
  resolveRef_loop root ref cur segments =
  match walk_from root cur segments with
  | Some node => OK node
  | None => Throw (cannot_resolve_ref ref)
  end.
Proof.
  intros ref segments. induction segments as [|segment rest IH]; intros cur.
  - reflexivity.
  - simpl. destruct (String.eqb segment "#"); [apply IH|].
    destruct cur as [v|cs|children]; try reflexivity.
    destruct (find_child children segment); [apply IH | reflexivity].
Qed.

Lemma walk_from_app : forall a b cur,
  walk_from root cur (a ++ b) =
  match walk_from root cur a with
  | Some mid => walk_from root mid b
  | None => None
  end.
Proof.
  induction a as [|segment rest IH]; intros b cur.
  - reflexivity.
  - simpl. destruct (String.eqb segment "#"); [apply IH|].
    destruct cur as [v|cs|children]; try reflexivity.
    destruct (find_child children segment); [apply IH | reflexivity].
Qed.

Lemma reaches_walk : forall segments node,
  reaches root segments node <-> walk_from root root segments = Some node.
Proof.
  intros segments node. split.
  - intros H. induction H as [|segments node H IH
                              |segments children segment child H IH Hne Hfind].
    + reflexivity.
    + rewrite walk_from_app, IH. reflexivity.
    + rewrite walk_from_app, IH. simpl.
      destruct (String.eqb_spec segment "#") as [->|_]; [now elim Hne|].
      now rewrite Hfind.
  - revert node. induction segments as [|segment before IH] using rev_ind;
      intros node H.
    + simpl in H. injection H as <-. constructor.
    + rewrite walk_from_app in H.
      destruct (walk_from root root before) as [mid|] eqn:Hmid; [|discriminate].
      simpl in H. destruct (String.eqb_spec segment "#") as [->|Hne].
      * injection H as <-. eapply reaches_root. now apply IH.
      * destruct mid as [v|cs|children]; try discriminate.
        destruct (find_child children segment) as [child|] eqn:Hfind;
          [|discriminate].
        injection H as <-. eapply reaches_property; eauto.
Qed.

Lemma walk_from_None : forall segments cur,
  walk_from root cur segments = None <->
  exists before segment after node,
    segments = (before ++ segment :: after)%list /\
    walk_from root cur before = Some node /\
    segment <> "#" /\ lookup_fails node segment.
Proof.
  induction segments as [|s rest IH]; intros cur.
  - split; [discriminate|].
    intros (before & segment & after & node & Heq & _).
    now destruct before.
  - split.
    + simpl. destruct (String.eqb_spec s "#") as [->|Hne].
      * intros H. apply IH in H.
        destruct H as (before & segment & after & node & -> & Hw & Hs & Hf).
        exists ("#" :: before), segment, after, node. simpl. auto.
      * destruct cur as [v|cs|children].
        -- intros _. exists [], s, rest, (Literal v). simpl. auto.
        -- intros _. exists [], s, rest, (Array cs). simpl. auto.
        -- destruct (find_child children s) as [child|] eqn:Hfind.
           ++ intros H. apply IH in H.
              destruct H as (before & segment & after & node & -> & Hw & Hs & Hf).
              exists (s :: before), segment, after, node. simpl.
              destruct (String.eqb_spec s "#") as [->|_]; [now elim Hne|].
              rewrite Hfind. auto.
           ++ intros _. exists [], s, rest, (Object children). simpl.
              repeat split; auto. now apply find_child_None.
    + intros (before & segment & after & node & Heq & Hw & Hs & Hf).
      rewrite Heq, walk_from_app, Hw. simpl.
      destruct (String.eqb_spec segment "#") as [->|_]; [now elim Hs|].
      destruct node as [v|cs|children]; try reflexivity.
      simpl in Hf. apply find_child_None in Hf. now rewrite Hf.
Qed.

End Walk.

(** C2: a pointer that does not start with [#] fails at once with the
    unresolvable-reference error; otherwise the pointer is split at [/] and
    walked from the root, the result is the node the segments lead to, and
    the walk fails, with the same error, exactly when some segment is
    looked up on a node that is not an object or that has no property of
    that name; the pointer [#] resolves to the root. *)
Theorem resolveRef_walks_segments : forall (root : ASTNode) (ref : string),
  (startsWith ref "#" = false ->
     resolveRef root ref = Throw (cannot_resolve_ref ref)) /\
  (startsWith ref "#" = true ->
     (forall node,
         resolveRef root ref = OK node <-> reaches root (split "/" ref) node) /\
     (resolveRef root ref = Throw (cannot_resolve_ref ref) <->
        exists before segment after node,
          split "/" ref = (before ++ segment :: after)%list /\
          reaches root before node /\
          segment <> "#" /\ lookup_fails node segment)) /\
  resolveRef root "#" = OK root.
Proof.
  intros root ref. split; [|split].
  - intros H. unfold resolveRef. now rewrite H.
  - intros H. unfold resolveRef. rewrite H. simpl.
    rewrite resolveRef_loop_walk. split.
    + intros node. rewrite reaches_walk.
      destruct (walk_from root root (split "/" ref)).
      * split; intros [= ->]; reflexivity.
      * split; discriminate.
    + setoid_rewrite reaches_walk. rewrite <- walk_from_None.
      destruct (walk_from root root (split "/" ref)).
      * split; discriminate.
      * split; reflexivity.
  - reflexivity.
Qed.

Example resolveRef_component_schema :
  resolveRef shadowed_document "#/components/schemas/fooResponse"
  = OK (Object [("type", Literal (LString "object"))]).
Proof. reflexivity. Qed.

Example resolveRef_back_to_root :
  resolveRef shadowed_document "#/info/#/components/schemas/fooResponse"
  = OK (Object [("type", Literal (LString "object"))]).
Proof. reflexivity. Qed.

Example resolveRef_other_document :
  resolveRef shadowed_document "other.json#/components/schemas/fooResponse"
  = Throw "Cannot resolve ref 'other.json#/components/schemas/fooResponse'".
Proof. reflexivity. Qed.

Example resolveRef_missing_property :
  resolveRef shadowed_document "#/components/schemas/Pet"
  = Throw "Cannot resolve ref '#/components/schemas/Pet'".
Proof. reflexivity. Qed.

Example resolveRef_through_literal :
  resolveRef shadowed_document "#/info/title/first"
  = Throw "Cannot resolve ref '#/info/title/first'".
Proof. reflexivity. Qed.

(** ** C3: success status codes *)

Lemma first_2xx_not_default : forall responses c,
  first_2xx responses = Some c -> String.eqb c "default" = false.
Proof.
  intros responses c H. unfold first_2xx in H.
  assert (Hin : In c (filter (fun c => startsWith c "2") (keys responses))).
  { destruct (filter (fun c => startsWith c "2") (keys responses));
      [discriminate|]. injection H as ->. now left. }
  apply filter_In in Hin. destruct Hin as [_ Hs].
  destruct (String.eqb_spec c "default") as [->|]; [discriminate|reflexivity].
Qed.

Lemma parsePrimaryResponseKey_cases : forall ext operation responses,
  OperationNode.responses operation = Some responses ->
  parsePrimaryResponseKey ext operation =
  OK (match numeric_2xx ext responses with
      | Some n => Some (NumberKey n)
      | None =>
          match ResponsesNode.read responses "default" with
          | Some _ => Some DefaultKey
          | None => None
          end
      end).
Proof.
  intros ext operation responses Hr.
  unfold parsePrimaryResponseKey, numeric_2xx. rewrite Hr.
  fold (first_2xx responses).
  destruct (first_2xx responses) as [c|] eqn:Hc.
  - rewrite (first_2xx_not_default _ _ Hc).
    destruct (PrimFloat.is_nan (StringToNumber ext c)); cbn;
      [|reflexivity].
    now destruct (ResponsesNode.read responses "default").
  - cbn. now destruct (ResponsesNode.read responses "default").
Qed.

(** C3, as the code has it: the success status code of an operation is the
    numeric value of the first response key that starts with [2] when that
    key is numeric; otherwise, when the responses hold a [default] entry,
    it is 202 for [delete], 204 for [options], 201 for [post] and 200 for
    every other verb when the default response declares content, and 204
    when it declares none; and it is 200 when there is neither. *)
Theorem success_status_code :
  forall (ext : Externals) (schema : ASTNode) (verb : string)
         (operation responses : ASTNode),
  OperationNode.responses operation = Some responses ->
  (forall n,
      numeric_2xx ext responses = Some n ->
      parseResponseCode ext schema verb operation = OK n) /\
  (numeric_2xx ext responses = None ->
     (forall res response,
         ResponsesNode.read responses "default" = Some res ->
         resolve schema res = OK response ->
         parseResponseCode ext schema verb operation =
         OK (if declares_content response then default_code verb
             else 204%float)) /\
     (ResponsesNode.read responses "default" = None ->
      parseResponseCode ext schema verb operation = OK 200%float)) /\
  default_code "delete" = 202%float /\
  default_code "options" = 204%float /\
  default_code "post" = 201%float /\
  (verb <> "delete" -> verb <> "options" -> verb <> "post" ->
   default_code verb = 200%float).
Proof.
  intros ext schema verb operation responses Hr.
  pose proof (parsePrimaryResponseKey_cases ext operation responses Hr) as Hp.
  split; [|split; [|repeat split]].
  - intros n Hn. unfold parseResponseCode. rewrite Hp, Hn. reflexivity.
  - intros Hnone. rewrite Hnone in Hp. split.
    + intros res response Hres Hresolve.
      unfold parseResponseCode. rewrite Hp, Hres. cbn [rbind].
      rewrite Hr, Hres, Hresolve. cbn [rbind].
      unfold declares_content, default_code.
      destruct (ResponseNode.content response) as [content|]; [|reflexivity].
      cbn [rbind].
      destruct (negb (Nat.eqb (List.length (keys content)) 0)); [|reflexivity].
      destruct (String.eqb verb "delete"); [reflexivity|].
      destruct (String.eqb verb "options"); [reflexivity|].
      destruct (String.eqb verb "post"); reflexivity.
    + intros Hdef. unfold parseResponseCode. rewrite Hp, Hdef. reflexivity.
  - intros Hd Ho Hpost. unfold default_code.
    destruct (String.eqb_spec verb "delete"); [contradiction|].
    destruct (String.eqb_spec verb "options"); [contradiction|].
    destruct (String.eqb_spec verb "post"); [contradiction|]. reflexivity.
Qed.

(** The scenario of the specification: a [delete] operation whose only
    response is [default], with a body, has success code 202. *)
Lemma success_status_code_witness :
  parseResponseCode example_ext (Object []) "delete" default_only_operation
  = OK 202%float.
Proof.
  destruct (success_status_code example_ext (Object []) "delete" default_only_operation
              (Object [("default",
                        Object [("description", Literal (LString "created"));
                                ("content",
                                 Object [("application/json", Object [])])])])
              eq_refl) as (_ & H & _).
  destruct (H eq_refl) as [Hdefault _].
  exact (Hdefault _ _ eq_refl eq_refl).
Defined.

(** C3 as written fails for [post]: with a [default] response that
    declares content and no [2xx] key, the success code is 201, not 200. *)
Lemma post_default_response_is_201 :
  parseResponseCode example_ext (Object []) "post" default_only_operation = OK 201%float
  /\ parseResponseCode example_ext (Object []) "post" default_only_operation
     <> OK 200%float.
Proof.
  assert (H : parseResponseCode example_ext (Object []) "post" default_only_operation
              = OK 201%float) by reflexivity.
  split; [exact H|]. rewrite H. intros Heq.
  apply (f_equal (fun r : result float =>
                    match r with
                    | OK x => PrimFloat.eqb x 200
                    | Throw _ => false
                    end)) in Heq.
  vm_compute in Heq. discriminate Heq.
Qed.

(** ** C4: parameter order *)

Lemma strict_equals_string : forall v s,
  strict_equals (Some v) (Some (LString s)) = true <-> v = LString s.
Proof.
  intros v s. destruct v as [x|n|b|]; simpl; try (split; discriminate).
  destruct (String.eqb_spec x s) as [->|Hne].
  - split; reflexivity.
  - split; [discriminate | intros [= ->]; now elim Hne].
Qed.

Lemma getSchemaOrRef_content_schema : forall content st x st',
  getSchemaOrRef content st = OK (x, st') -> content_schema content = OK x.
Proof.
  intros content st x st' H. unfold getSchemaOrRef in H. unfold content_schema.
  destruct content as [content|]; [|run_step H; now subst].
  destruct (keys content) as [|first others]; [run_step H; now subst|].
  run_step H.
  destruct (MediaTypeIndexNode.read content first); run_step H; now subst.
Qed.

Lemma parseRequestBody_names :
  forall ext schema fuel operation methodName paramName st r st',
  parseRequestBody ext schema fuel (OperationNode.requestBody operation)
                   methodName paramName st = OK (r, st') ->
  map parameter_name (optional r) =
  match requestBody_schema schema operation with
  | OK (Some _) => [LString paramName]
  | _ => []
  end.
Proof.
  intros ext schema fuel operation methodName paramName st r st' H.
  unfold parseRequestBody in H. unfold requestBody_schema.
  destruct (OperationNode.requestBody operation) as [bodyOrRef|];
    [|run_step H; now subst].
  run_step H. rewrite Hrun. cbn [rbind].
  run_step H. apply getSchemaOrRef_content_schema in Hrun0.
  rewrite Hrun0. cbn [rbind].
  destruct a0 as [schemaOrRef|]; [|run_step H; now subst].
  run_step H. rewrite Hrun1.
  destruct a0 as [s0|]; [|run_step H; now subst].
  repeat run_step H. reflexivity.
Qed.

Lemma parseParameter_name : forall ext schema fuel param methodName st p st',
  parseParameter ext schema fuel param methodName st = OK (p, st') ->
  bang_value (ParameterNode.name param) = OK (parameter_name p).
Proof.
  intros ext schema fuel param methodName st p st' H.
  unfold parseParameter in H.
  repeat run_step H; try discriminate. exact Hrun1.
Qed.

Lemma parameter_names_of_resolved : forall schema l resolved ps,
  rmap (resolveParam schema) l = OK resolved ->
  Forall2 (fun node p => bang_value (ParameterNode.name node)
                         = OK (parameter_name p))
          (defined resolved) ps ->
  parameter_names schema l (map parameter_name ps).
Proof.
  intros schema l. induction l as [|x xs IH]; intros resolved ps Hr Hf.
  - injection Hr as <-. inversion Hf. constructor.
  - cbn [rmap] in Hr.
    destruct (resolveParam schema x) as [y|] eqn:Hy; [|discriminate].
    cbn [rbind] in Hr.
    destruct (rmap (resolveParam schema) xs) as [ys|] eqn:Hys; [|discriminate].
    cbn [rbind] in Hr. injection Hr as <-.
    destruct y as [node|].
    + cbn in Hf. inversion Hf as [|n p ns ps' Hn Hrest]; subst.
      cbn [map]. eapply parameter_names_keep; eauto.
    + cbn in Hf. apply parameter_names_skip; eauto.
Qed.

Lemma parameter_names_app_inv : forall schema a b names,
  parameter_names schema (a ++ b) names ->
  exists na nb, names = (na ++ nb)%list /\
                parameter_names schema a na /\ parameter_names schema b nb.
Proof.
  intros schema a. induction a as [|x xs IH]; intros b names H.
  - exists [], names. repeat split; [constructor | exact H].
  - cbn [app] in H. inversion H as [|p ps ns Hp Hrest|p ps ns r n Hp Hn Hrest]; subst.
    + destruct (IH b names Hrest) as (na & nb & -> & Ha & Hb).
      exists na, nb. repeat split; [now apply parameter_names_skip | exact Hb].
    + destruct (IH b ns Hrest) as (na & nb & -> & Ha & Hb).
      exists (n :: na), nb. repeat split;
        [eapply parameter_names_keep; eauto | exact Hb].
Qed.

Lemma binding_names_app_inv : forall schema a b names,
  binding_names schema (a ++ b) names ->
  exists na nb, names = (na ++ nb)%list /\
                binding_names schema a na /\ binding_names schema b nb.
Proof.
  intros schema a. induction a as [|x xs IH]; intros b names H.
  - exists [], names. repeat split; [constructor | exact H].
  - cbn [app] in H.
    inversion H as [|p ps ns r Hp Hc Hrest|p ps ns r l n Hp Hl Hne Hn Hrest]; subst.
    + destruct (IH b names Hrest) as (na & nb & -> & Ha & Hb).
      exists na, nb. repeat split;
        [eapply binding_names_cookie; eauto | exact Hb].
    + destruct (IH b ns Hrest) as (na & nb & -> & Ha & Hb).
      exists (n :: na), nb. repeat split;
        [eapply binding_names_keep; eauto | exact Hb].
Qed.

Lemma parseHttpProtocol_parameter_cases : forall ext schema param st r st',
  parseHttpProtocol_parameter ext schema param st = OK (r, st') ->
  exists resolved location,
    resolveParam schema param = OK (Some resolved) /\
    bang_value (ParameterNode.in_ resolved) = OK location /\
    ((location = LString "cookie" /\ r = None) \/
     (location <> LString "cookie" /\
      exists hp, r = Some hp /\
                 bang_value (ParameterNode.name resolved)
                 = OK (http_parameter_name hp))).
Proof.
  intros ext schema param st r st' H.
  unfold parseHttpProtocol_parameter, parseParameterName,
    parseParameterLocation in H.
  destruct (resolveParam schema param) as [[resolved|]|e] eqn:Hres;
    cbn [rbind] in H; repeat (run_step H; try discriminate).
  all: exists resolved; eexists; split; [reflexivity|]; split; [eassumption|].
  all: try (left; split; [now apply strict_equals_string | reflexivity]).
  all: right; split;
    [ intros Heq; apply strict_equals_string in Heq; congruence
    | eexists; split; [reflexivity | assumption] ].
Qed.

Lemma binding_names_of_mapM : forall ext schema l st others st',
  mapM (parseHttpProtocol_parameter ext schema) l st = OK (others, st') ->
  binding_names schema l (map http_parameter_name (defined others)).
Proof.
  intros ext schema l. induction l as [|x xs IH]; intros st others st' H.
  - cbn [mapM] in H. run_step H. subst. constructor.
  - cbn [mapM] in H. repeat run_step H.
    apply parseHttpProtocol_parameter_cases in Hrun.
    destruct Hrun as (resolved & location & Hres & Hloc & Hcase).
    apply IH in Hrun0.
    destruct Hcase as [[-> ->] | [Hne (hp & -> & Hname)]].
    + cbn. eapply binding_names_cookie; eauto.
    + cbn. eapply binding_names_keep; eauto.
Qed.

Lemma find_body_name : forall ext children,
  match find (fun m => String.eqb (kebab ext (meta_key m))
                                  "codegen-request-body-name")
             (map (fun child => {| meta_key := substring_from 2 (fst child);
                                   meta_value := toJson (snd child) |})
                  (filter (fun child => startsWith (fst child) "x-") children))
  with
  | Some m =>
      match meta_value m with
      | JLit (LString name) => name
      | _ => "body"
      end
  | None => "body"
  end
  = match find (names_request_body ext) children with
    | Some (_, Literal (LString name)) => name
    | _ => "body"
    end.
Proof.
  intros ext children. induction children as [|[k v] rest IH]; [reflexivity|].
  cbn [filter find fst]. unfold names_request_body at 1. cbn [fst].
  destruct (startsWith k "x-"); cbn [andb]; [|exact IH].
  cbn [map find fst snd meta_key].
  destruct (String.eqb (kebab ext (substring_from 2 k))
                       "codegen-request-body-name"); [|exact IH].
  cbn [meta_value]. now destruct v as [[name|n|b|]|cs|cs].
Qed.

Lemma parseBodyParamName_body_parameter_name : forall ext operation,
  parseBodyParamName ext operation = body_parameter_name ext operation.
Proof.
  intros ext operation. unfold parseBodyParamName, body_parameter_name, parseMeta.
  destruct operation as [v|cs|children]; try reflexivity.
  cbn [children_of]. rewrite <- find_body_name.
  now destruct (map _ (filter _ children)).
Qed.

Lemma parseParameters_names :
  forall ext schema fuel operation commonParameters st ps st',
  parseParameters ext schema fuel operation commonParameters st = OK (ps, st') ->
  exists own commonNames ownNames,
    OperationNode.parameters operation = OK own /\
    parameter_names schema commonParameters commonNames /\
    parameter_names schema (or_empty own) ownNames /\
    map parameter_name ps
    = (body_names ext schema operation ++ commonNames ++ ownNames)%list.
Proof.
  intros ext schema fuel operation commonParameters st ps st' H.
  unfold parseParameters in H.
  run_step H. run_step H. run_step H. run_step H. run_step H.
  apply mapM_OK in Hrun1.
  assert (Hnames : Forall2 (fun node p => bang_value (ParameterNode.name node)
                                          = OK (parameter_name p))
                           (defined a0) a1).
  { eapply Forall2_impl; [|exact Hrun1].
    intros node p (s1 & s2 & Hp). cbn beta in Hp.
    run_step Hp. now apply parseParameter_name in Hp. }
  pose proof (parameter_names_of_resolved _ _ _ _ Hrun0 Hnames) as Hall.
  apply parameter_names_app_inv in Hall.
  destruct Hall as (commonNames & ownNames & Heq & Hcommon & Hown).
  apply parseRequestBody_names in Hrun3.
  exists a, commonNames, ownNames. repeat split; try assumption.
  unfold body_names. rewrite <- parseBodyParamName_body_parameter_name.
  rewrite <- Hrun3, <- Heq.
  destruct a3 as [bodyParam|]; run_step H; subst; reflexivity.
Qed.

Lemma parseHttpProtocol_method_names :
  forall ext schema fuel interfaceName path pathItem commonParameters verb
         operation st httpMethod st',
  PathItemNode.member pathItem verb = OK operation ->
  parseHttpProtocol_method ext schema fuel interfaceName path pathItem
                           commonParameters verb st
  = OK (Some httpMethod, st') ->
  exists own ownNames commonNames,
    OperationNode.parameters operation = OK own /\
    binding_names schema (or_empty own) ownNames /\
    binding_names schema commonParameters commonNames /\
    map http_parameter_name (http_method_parameters httpMethod)
    = (body_names ext schema operation ++ ownNames ++ commonNames)%list.
Proof.
  intros ext schema fuel interfaceName path pathItem commonParameters verb
         operation st httpMethod st' Hmember H.
  unfold parseHttpProtocol_method in H.
  destruct (String.eqb verb "parameters"); [run_step H; discriminate|].
  run_step H. rewrite Hmember in Hrun. injection Hrun as <-.
  run_step H. run_step H; [run_step H; discriminate|].
  run_step H. run_step H. run_step H. run_step H. run_step H. run_step H.
  injection H as ->. cbn [http_method_parameters].
  apply parseRequestBody_names in Hrun2.
  apply binding_names_of_mapM in Hrun4.
  apply binding_names_app_inv in Hrun4.
  destruct Hrun4 as (ownNames & commonNames & Heq & Hown & Hcommon).
  exists a3, ownNames, commonNames. repeat split; try assumption.
  rewrite map_app, Heq. f_equal.
  unfold body_names. rewrite <- parseBodyParamName_body_parameter_name.
  rewrite <- Hrun2. now destruct a2.
Qed.

(** C4, as the code has it. In the parameter list of a method the body
    parameter, present when the request body has a schema, comes first,
    then the path-level parameters, then the operation-level parameters,
    each group in document order. In the HTTP binding the body parameter
    comes first as well, and then the operation-level parameters come
    before the path-level ones, each group in document order and without
    the parameters located in [cookie]. The body parameter is named
    [body], unless the operation carries an extension [x-...] whose name
    is [codegen-request-body-name] in kebab case: then the first such
    extension names it, when it holds a string. *)
Theorem parameter_order :
  forall (ext : Externals) (schema : ASTNode) (fuel : nat)
         (operation : ASTNode) (commonParameters : list (OrRef ASTNode)),
  (forall st ps st',
      parseParameters ext schema fuel operation commonParameters st
      = OK (ps, st') ->
      exists own commonNames ownNames,
        OperationNode.parameters operation = OK own /\
        parameter_names schema commonParameters commonNames /\
        parameter_names schema (or_empty own) ownNames /\
        map parameter_name ps
        = (body_names ext schema operation ++ commonNames ++ ownNames)%list) /\
  (forall interfaceName path pathItem verb st httpMethod st',
      PathItemNode.member pathItem verb = OK operation ->
      parseHttpProtocol_method ext schema fuel interfaceName path pathItem
                               commonParameters verb st
      = OK (Some httpMethod, st') ->
      exists own ownNames commonNames,
        OperationNode.parameters operation = OK own /\
        binding_names schema (or_empty own) ownNames /\
        binding_names schema commonParameters commonNames /\
        map http_parameter_name (http_method_parameters httpMethod)
        = (body_names ext schema operation ++ ownNames ++ commonNames)%list) /\
  parseBodyParamName ext operation = body_parameter_name ext operation /\
  (parseMeta operation = None -> parseBodyParamName ext operation = "body").
Proof.
  intros ext schema fuel operation commonParameters. split; [|split; [|split]].
  - intros st ps st' H. eapply parseParameters_names; eauto.
  - intros interfaceName path pathItem verb st httpMethod st' Hm H.
    eapply parseHttpProtocol_method_names; eauto.
  - apply parseBodyParamName_body_parameter_name.
  - intros Hmeta. unfold parseBodyParamName. now rewrite Hmeta.
Qed.

(** The operation whose extension names the body parameter [payload]: the
    method lists [payload], the path-level [shared] and then its own
    parameter [own]; the binding lists [payload], [own] and then
    [shared]. *)
Lemma parameter_order_witness :
  body_names example_ext renamed_body_document renamed_body_operation
  = [LString "payload"] /\
  parseBodyParamName example_ext renamed_body_operation = "payload" /\
  (exists ps st',
      parseParameters example_ext renamed_body_document 5 renamed_body_operation
                      [Item shared_parameter] new_OAS3Parser = OK (ps, st') /\
      map parameter_name ps
      = [LString "payload"; LString "shared"; LString "own"] /\
      exists own commonNames ownNames,
        OperationNode.parameters renamed_body_operation = OK own /\
        parameter_names renamed_body_document [Item shared_parameter] commonNames /\
        parameter_names renamed_body_document (or_empty own) ownNames /\
        map parameter_name ps
        = (body_names example_ext renamed_body_document renamed_body_operation
           ++ commonNames ++ ownNames)%list) /\
  (exists httpMethod st',
      parseHttpProtocol_method example_ext renamed_body_document 5
        (Some (LString "pets")) "/pets"
        (Object [("parameters", Array [shared_parameter]);
                 ("post", renamed_body_operation)])
        [Item shared_parameter] "post" new_OAS3Parser
      = OK (Some httpMethod, st') /\
      map http_parameter_name (http_method_parameters httpMethod)
      = [LString "payload"; LString "own"; LString "shared"] /\
      exists own ownNames commonNames,
        OperationNode.parameters renamed_body_operation = OK own /\
        binding_names renamed_body_document (or_empty own) ownNames /\
        binding_names renamed_body_document [Item shared_parameter] commonNames /\
        map http_parameter_name (http_method_parameters httpMethod)
        = (body_names example_ext renamed_body_document renamed_body_operation
           ++ ownNames ++ commonNames)%list).
Proof.
  destruct (parameter_order example_ext renamed_body_document 5
              renamed_body_operation [Item shared_parameter])
    as (Hmethod & Hbinding & Hname & _).
  split; [reflexivity|]. split; [rewrite Hname; reflexivity|]. split.
  - destruct (parseParameters example_ext renamed_body_document 5
                renamed_body_operation [Item shared_parameter] new_OAS3Parser)
      as [[ps st']|e] eqn:Hrun; [|vm_compute in Hrun; discriminate Hrun].
    exists ps, st'. split; [reflexivity|]. split.
    + vm_compute in Hrun. now injection Hrun as <- _.
    + exact (Hmethod _ _ _ Hrun).
  - destruct (parseHttpProtocol_method example_ext renamed_body_document 5
                (Some (LString "pets")) "/pets"
                (Object [("parameters", Array [shared_parameter]);
                         ("post", renamed_body_operation)])
                [Item shared_parameter] "post" new_OAS3Parser)
      as [[[httpMethod|] st']|e] eqn:Hrun;
      [ | vm_compute in Hrun; discriminate Hrun
        | vm_compute in Hrun; discriminate Hrun ].
    exists httpMethod, st'. split; [reflexivity|]. split.
    + vm_compute in Hrun. now injection Hrun as <- _.
    + eapply Hbinding; [|exact Hrun]. reflexivity.
Defined.

(** C4 as written fails on the HTTP binding: with one path-level parameter
    [shared] and one operation-level parameter [own], the method lists
    [shared] before [own], and the HTTP binding lists [own] before
    [shared]. *)
Lemma http_binding_lists_own_parameters_first :
  exists service violations,
    parser example_ext 5 two_parameter_document "api.json"
    = OK (service, violations) /\
    method_parameter_names service = [[LString "shared"; LString "own"]] /\
    http_parameter_names service = [[LString "own"; LString "shared"]].
Proof.
  do 2 eexists. split; [vm_compute; reflexivity|]. split; reflexivity.
Qed.

(** With a request body the body parameter leads both lists, under the
    name the extension gives it. *)
Example body_parameter_first :
  exists service violations,
    parser example_ext 5 renamed_body_document "api.json"
    = OK (service, violations) /\
    method_parameter_names service
    = [[LString "payload"; LString "shared"; LString "own"]] /\
    http_parameter_names service
    = [[LString "payload"; LString "own"; LString "shared"]].
Proof.
  do 2 eexists. split; [vm_compute; reflexivity|]. split; reflexivity.
Qed.

(** ** C5: numeric bound rules *)

Lemma opt_value_literal_or_absent : forall node key,
  literal_or_absent node key ->
  opt_value (getLiteral node key) =
  OK (match getProperty node key with
      | Some (Literal v) => Some v
      | _ => None
      end).
Proof.
  intros node key H. unfold literal_or_absent in H.
  unfold getLiteral, getChild.
  destruct (getProperty node key) as [[v|cs|cs]|]; try contradiction; reflexivity.
Qed.

Lemma numberLessThanFactory_numeric : forall node bound,
  getProperty node "maximum" = Some (Literal (LNumber bound)) ->
  literal_or_absent node "exclusiveMinimum" ->
  numberLessThanFactory (NumberSchema node) =
  OK (Some (if flag_set node "exclusiveMinimum"
            then NumberLT bound else NumberLTE bound)).
Proof.
  intros node bound Hmax Hex.
  unfold numberLessThanFactory, NumberSchemaNode.maximum,
    NumberSchemaNode.exclusiveMinimum.
  rewrite (opt_value_literal_or_absent node "exclusiveMinimum" Hex).
  unfold getLiteral, getChild, flag_set. rewrite Hmax.
  destruct (getProperty node "exclusiveMinimum") as [[v|cs|cs]|]; reflexivity.
Qed.

Lemma numberGreaterThanFactory_numeric : forall node bound,
  getProperty node "minimum" = Some (Literal (LNumber bound)) ->
  literal_or_absent node "exclusiveMinimum" ->
  numberGreaterThanFactory (NumberSchema node) =
  OK (Some (if flag_set node "exclusiveMinimum"
            then NumberGT bound else NumberGTE bound)).
Proof.
  intros node bound Hmin Hex.
  unfold numberGreaterThanFactory, NumberSchemaNode.minimum,
    NumberSchemaNode.exclusiveMinimum.
  rewrite (opt_value_literal_or_absent node "exclusiveMinimum" Hex).
  unfold getLiteral, getChild, flag_set. rewrite Hmin.
  destruct (getProperty node "exclusiveMinimum") as [[v|cs|cs]|]; reflexivity.
Qed.

Lemma numberMultipleOfFactory_shape : forall node,
  literal_or_absent node "multipleOf" ->
  exists r, numberMultipleOfFactory (NumberSchema node) = OK r /\
            forall x, r = Some x -> rule_id x = "number-multiple-of".
Proof.
  intros node H. unfold numberMultipleOfFactory, NumberSchemaNode.multipleOf.
  rewrite (opt_value_literal_or_absent _ _ H).
  destruct (getProperty node "multipleOf") as [[[s|n|b|]|cs|cs]|];
    cbn; eexists; (split; [reflexivity|]); intros x [= <-] || intros x [=];
    reflexivity.
Qed.

Lemma numberLessThanFactory_shape : forall node,
  literal_or_absent node "maximum" ->
  literal_or_absent node "exclusiveMinimum" ->
  exists r, numberLessThanFactory (NumberSchema node) = OK r /\
            (forall x, r = Some x -> is_upper_bound x = true /\ is_lower_bound x = false) /\
            (r = None -> forall bound,
                getProperty node "maximum" <> Some (Literal (LNumber bound))).
Proof.
  intros node Hmax Hex.
  destruct (getProperty node "maximum") as [[[s|n|b|]|cs|cs]|] eqn:Hm;
    try (unfold literal_or_absent in Hmax; rewrite Hm in Hmax; contradiction);
    try (unfold numberLessThanFactory, NumberSchemaNode.maximum, getLiteral,
           getChild; rewrite Hm; cbn; eexists; split; [reflexivity|];
         split; [intros x [=] | intros _ bound; discriminate]).
  rewrite (numberLessThanFactory_numeric node n Hm Hex).
  eexists; split; [reflexivity|]. split.
  - intros x [= <-]. now destruct (flag_set node "exclusiveMinimum").
  - discriminate.
Qed.

Lemma numberGreaterThanFactory_shape : forall node,
  literal_or_absent node "minimum" ->
  literal_or_absent node "exclusiveMinimum" ->
  exists r, numberGreaterThanFactory (NumberSchema node) = OK r /\
            (forall x, r = Some x -> is_lower_bound x = true /\ is_upper_bound x = false) /\
            (r = None -> forall bound,
                getProperty node "minimum" <> Some (Literal (LNumber bound))).
Proof.
  intros node Hmin Hex.
  destruct (getProperty node "minimum") as [[[s|n|b|]|cs|cs]|] eqn:Hm;
    try (unfold literal_or_absent in Hmin; rewrite Hm in Hmin; contradiction);
    try (unfold numberGreaterThanFactory, NumberSchemaNode.minimum, getLiteral,
           getChild; rewrite Hm; cbn; eexists; split; [reflexivity|];
         split; [intros x [=] | intros _ bound; discriminate]).
  rewrite (numberGreaterThanFactory_numeric node n Hm Hex).
  eexists; split; [reflexivity|]. split.
  - intros x [= <-]. now destruct (flag_set node "exclusiveMinimum").
  - discriminate.
Qed.

Lemma filter_optional_app : forall (p : ValidationRule -> bool) m g l,
  filter p (optional m ++ optional g ++ optional l)%list
  = (filter p (optional m) ++ filter p (optional g) ++ filter p (optional l))%list.
Proof. intros. now rewrite !filter_app. Qed.

(** C5: for a number schema whose [multipleOf], [minimum], [maximum] and
    [exclusiveMinimum] properties are literals where present, rule
    synthesis succeeds; when [maximum] is a number exactly one upper-bound
    rule is among the rules, tagged [number-lt] when the
    [exclusiveMinimum] flag is set and [number-lte] otherwise; when
    [minimum] is a number exactly one lower-bound rule is among them,
    tagged [number-gt] when the same flag is set and [number-gte]
    otherwise. The upper-bound factory reads [maximum] and
    [exclusiveMinimum] only: [exclusiveMaximum] has no influence. *)
Theorem number_bound_rules :
  forall (schema node : ASTNode) (required : option Lit),
  literal_or_absent node "multipleOf" ->
  literal_or_absent node "minimum" ->
  literal_or_absent node "maximum" ->
  literal_or_absent node "exclusiveMinimum" ->
  (exists rules,
      parseRules schema (IsSchema (NumberSchema node)) required = OK rules /\
      (forall bound,
          getProperty node "maximum" = Some (Literal (LNumber bound)) ->
          filter is_upper_bound rules =
          [if flag_set node "exclusiveMinimum"
           then NumberLT bound else NumberLTE bound]) /\
      (forall bound,
          getProperty node "minimum" = Some (Literal (LNumber bound)) ->
          filter is_lower_bound rules =
          [if flag_set node "exclusiveMinimum"
           then NumberGT bound else NumberGTE bound])) /\
  (forall other,
      getProperty other "maximum" = getProperty node "maximum" ->
      getProperty other "exclusiveMinimum" = getProperty node "exclusiveMinimum" ->
      numberLessThanFactory (NumberSchema other)
      = numberLessThanFactory (NumberSchema node)).
Proof.
  intros schema node required Hmul Hmin Hmax Hex. split.
  - destruct (numberMultipleOfFactory_shape node Hmul) as (m & Hm & Hmid).
    destruct (numberGreaterThanFactory_shape node Hmin Hex) as (g & Hg & Hgid & Hgn).
    destruct (numberLessThanFactory_shape node Hmax Hex) as (l & Hl & Hlid & Hln).
    assert (Hrun : run_factories factories (NumberSchema node)
                   = OK (optional m ++ optional g ++ optional l)%list).
    { unfold run_factories, factories. cbn [rmap].
      rewrite Hm, Hg, Hl. cbn. now rewrite app_nil_r. }
    assert (Hm_up : filter is_upper_bound (optional m) = []
                    /\ filter is_lower_bound (optional m) = []).
    { destruct m as [x|]; [|now split]. cbn.
      unfold is_upper_bound, is_lower_bound. rewrite (Hmid x eq_refl).
      now split. }
    assert (Hg_f : filter is_upper_bound (optional g) = []
                   /\ filter is_lower_bound (optional g) = optional g).
    { destruct g as [x|]; [|now split]. cbn.
      destruct (Hgid x eq_refl) as [-> ->]. now split. }
    assert (Hl_f : filter is_upper_bound (optional l) = optional l
                   /\ filter is_lower_bound (optional l) = []).
    { destruct l as [x|]; [|now split]. cbn.
      destruct (Hlid x eq_refl) as [-> ->]. now split. }
    exists (if opt_truthy required
            then Required :: (optional m ++ optional g ++ optional l)%list
            else (optional m ++ optional g ++ optional l)%list).
    split; [|split].
    + unfold parseRules. cbn [parseSchema rbind]. rewrite Hrun. reflexivity.
    + intros bound Hb.
      assert (Hfilter : filter is_upper_bound
                (optional m ++ optional g ++ optional l)%list = optional l).
      { rewrite filter_optional_app.
        destruct Hm_up as [-> _], Hg_f as [-> _], Hl_f as [-> _]. reflexivity. }
      rewrite (numberLessThanFactory_numeric node bound Hb Hex) in Hl.
      injection Hl as <-.
      destruct (opt_truthy required); cbn [filter]; cbn [is_upper_bound rule_id];
        try (change (is_upper_bound Required) with false; cbn iota);
        exact Hfilter.
    + intros bound Hb.
      assert (Hfilter : filter is_lower_bound
                (optional m ++ optional g ++ optional l)%list = optional g).
      { rewrite filter_optional_app.
        destruct Hm_up as [_ ->], Hg_f as [_ ->], Hl_f as [_ ->].
        now rewrite app_nil_r. }
      rewrite (numberGreaterThanFactory_numeric node bound Hb Hex) in Hg.
      injection Hg as <-.
      destruct (opt_truthy required); cbn [filter];
        try (change (is_lower_bound Required) with false; cbn iota);
        exact Hfilter.
  - intros other Hsame_max Hsame_flag.
    unfold numberLessThanFactory, NumberSchemaNode.maximum,
      NumberSchemaNode.exclusiveMinimum, getLiteral, getChild.
    now rewrite Hsame_max, Hsame_flag.
Qed.

Lemma number_bound_rules_witness :
  exists rules,
    parseRules (Object []) (IsSchema (NumberSchema bounded_number_schema)) None
    = OK rules /\
    filter is_upper_bound rules = [NumberLT 5] /\
    filter is_lower_bound rules = [NumberGT 1].
Proof.
  destruct (number_bound_rules (Object []) bounded_number_schema None I I I I)
    as [(rules & Hrules & Hupper & Hlower) _].
  exists rules. split; [exact Hrules|]. split.
  - exact (Hupper 5%float eq_refl).
  - exact (Hlower 1%float eq_refl).
Defined.

(** ** C6: security options *)

Lemma parseSecurity_scheme_name : forall securitySchemes requirements key r,
  parseSecurity_scheme securitySchemes requirements key = OK r ->
  match r with
  | Some scheme =>
      scheme_name scheme = key /\
      representable securitySchemes requirements key = true
  | None => representable securitySchemes requirements key = false
  end.
Proof.
  intros securitySchemes requirements key r H.
  unfold parseSecurity_scheme, SecurityRequirementNode.read, getArray in H.
  unfold representable.
  destruct (getProperty requirements key) as [[v|scopes|cs]|];
    cbn [rbind] in H.
  all: destruct securitySchemes as [index|];
    [ destruct (SecuritySchemeIndexNode.read index key)
        as [[[[node|node|node|node]|ref]|]|];
      cbn [rbind] in H; try discriminate H |
      cbn [rbind] in H ];
    try (injection H as <-; reflexivity).
  all: unfold parseHttpSecurity, parseApiKeySecurity, parseOAuth2Security in H;
    factory_cases H;
    repeat match goal with
      | E : rbind ?r _ = OK _ |- _ =>
          destruct r eqn:?; cbn [rbind] in E; [|discriminate E]
      | E : OK _ = OK _ |- _ => injection E as <-
      end; cbn [scheme_name]; auto.
Qed.

Lemma security_scheme_names :
  forall securitySchemes requirements ks schemes,
  Forall2 (fun key r => parseSecurity_scheme securitySchemes requirements key = OK r)
          ks schemes ->
  map scheme_name
      (flat_map (fun scheme => match scheme with
                               | Some s => [s]
                               | None => []
                               end) schemes)
  = filter (representable securitySchemes requirements) ks.
Proof.
  intros securitySchemes requirements ks schemes H.
  induction H as [|key r ks schemes Hr _ IH]; [reflexivity|].
  cbn [flat_map filter]. rewrite map_app, IH.
  apply parseSecurity_scheme_name in Hr. destruct r as [scheme|].
  - destruct Hr as [<- ->]. reflexivity.
  - rewrite Hr. reflexivity.
Qed.

Lemma openIdConnect_not_representable : forall schema requirements key,
  declares_openIdConnect schema key = true ->
  representable (declared_securitySchemes schema) requirements key = false.
Proof.
  intros schema requirements key H.
  unfold declares_openIdConnect in H. unfold representable.
  destruct (getProperty requirements key) as [[v|scopes|cs]|]; try reflexivity.
  destruct (declared_securitySchemes schema) as [index|]; [|reflexivity].
  unfold SecuritySchemeIndexNode.read, toSecuritySchemeOrRef.
  destruct (getProperty index key) as [node|]; [|discriminate H].
  apply andb_prop in H. destruct H as [Href Htype].
  apply negb_true_iff in Href. rewrite Href.
  destruct node as [v|cs|children]; try discriminate Htype.
  cbn [getProperty] in Htype.
  destruct (find_child children "type") as [[[type|n|b|]|cs|cs]|];
    try discriminate Htype.
  apply String.eqb_eq in Htype. subst type. reflexivity.
Qed.

(** C6: the options of an operation are computed, requirement by
    requirement, from the [security] array the operation itself declares,
    else from the one the document declares, else there are none. The
    list of the document plays no part when the operation declares its
    own: two documents with the same schemes give the operation the same
    options. There is one option for each requirement, and its schemes
    are named by the keys of the requirement that give a scheme, in
    document order; a key under which the document declares an
    [openIdConnect] scheme names no scheme of any option. *)
Theorem security_options : forall (schema operation : ASTNode),
  parseSecurity schema operation =
    rmap (parseSecurity_option (declared_securitySchemes schema))
         (applicable_security schema operation) /\
  (forall own other,
      declared_security operation = Some own ->
      declared_securitySchemes other = declared_securitySchemes schema ->
      parseSecurity other operation = parseSecurity schema operation) /\
  (declared_security operation = None ->
   declared_security schema = None ->
   parseSecurity schema operation = OK []) /\
  (forall options,
      parseSecurity schema operation = OK options ->
      Forall2 (fun requirements option =>
                 map scheme_name option
                 = filter (representable (declared_securitySchemes schema)
                                         requirements)
                          (keys requirements) /\
                 forall key,
                   declares_openIdConnect schema key = true ->
                   ~ In key (map scheme_name option))
              (applicable_security schema operation) options).
Proof.
  assert (Heq : forall schema operation,
             parseSecurity schema operation =
             rmap (parseSecurity_option (declared_securitySchemes schema))
                  (applicable_security schema operation)).
  { intros schema operation.
    unfold parseSecurity, applicable_security, declared_security,
      OpenAPINode.security, OperationNode.security, getArray,
      declared_securitySchemes.
    destruct (getProperty schema "security") as [[v|shared|cs]|];
      destruct (getProperty operation "security") as [[w|own|ds]|];
      reflexivity. }
  intros schema operation. split; [apply Heq|]. split; [|split].
  - intros own other Hown Hsame. rewrite !Heq, Hsame.
    unfold applicable_security. now rewrite Hown.
  - intros Hnone Hnone'. rewrite Heq. unfold applicable_security.
    now rewrite Hnone, Hnone'.
  - intros options H. rewrite Heq in H. apply rmap_OK in H.
    eapply Forall2_impl; [|exact H].
    intros requirements option Hoption. cbn beta in Hoption.
    unfold parseSecurity_option in Hoption.
    destruct (rmap _ (keys requirements)) as [schemes|] eqn:Hschemes;
      cbn [rbind] in Hoption; [|discriminate Hoption].
    injection Hoption as <-. apply rmap_OK in Hschemes.
    apply security_scheme_names in Hschemes.
    split; [exact Hschemes|].
    intros key Hkey Hin. rewrite Hschemes in Hin.
    apply filter_In in Hin. destruct Hin as [_ Hin].
    rewrite (openIdConnect_not_representable _ _ _ Hkey) in Hin.
    discriminate Hin.
Qed.

(** The operation that declares its own requirements gets the [apiKey]
    scheme and not the [openIdConnect] one; an operation that declares
    none gets the requirement of the document. *)
Lemma security_options_witness :
  parseSecurity secured_document secured_operation
  = OK [[ApiKeyScheme "key" None (Some (LString "X-Key"))
                      (Some (LString "header")) None]] /\
  parseSecurity secured_document untagged_operation
  = OK [[BasicScheme "basic" None]].
Proof.
  split.
  - rewrite (proj1 (security_options secured_document secured_operation)).
    reflexivity.
  - rewrite (proj1 (security_options secured_document untagged_operation)).
    reflexivity.
Defined.

(** ** C7: schema classification *)

(** C7, as the code has it: classification is a function of the node alone.
    [resolveSchema] returns the classification of the node its reference
    points to; [toSchemaOrRef] returns a node that has a [$ref] property as
    a reference, whatever else the node holds, and otherwise returns the
    classification of the node, or throws when there is none. *)
Theorem schema_classification : forall node : ASTNode,
  (forall root ref,
      resolveRefNode root ref = OK node ->
      resolveSchema root (RefNode ref) = OK (classification node)) /\
  toSchemaOrRef (Some node) =
    (if isRef node then OK (Some (RefNode node))
     else match classification node with
          | Some s => OK (Some (Item s))
          | None => Throw unknown_schema
          end).
Proof.
  intros node. split.
  - intros root ref Href. unfold resolveSchema. rewrite Href. simpl.
    destruct node as [v|cs|children]; try reflexivity.
    unfold classification.
    destruct (find_child children "type") as [[[t|n|b|]|cs|cs]|]; try reflexivity.
    destruct (String.eqb t "string"); [reflexivity|].
    destruct (String.eqb t "integer"); [reflexivity|]. simpl.
    destruct (String.eqb t "number"); [reflexivity|].
    destruct (String.eqb t "boolean"); [reflexivity|].
    destruct (String.eqb t "array"); [reflexivity|].
    destruct (String.eqb t "object"); reflexivity.
  - unfold toSchemaOrRef. destruct (isRef node); [reflexivity|].
    destruct node as [v|cs|children]; try reflexivity.
    unfold classification.
    destruct (find_child children "type") as [[[t|n|b|]|cs|cs]|]; try reflexivity.
    destruct (String.eqb t "string"); [reflexivity|].
    destruct (String.eqb t "number") eqn:Hn, (String.eqb t "integer") eqn:Hi;
      simpl; try reflexivity.
    destruct (String.eqb t "boolean"); [reflexivity|].
    destruct (String.eqb t "array"); [reflexivity|].
    destruct (String.eqb t "object"); reflexivity.
Qed.

(** C7 as written fails on [toSchemaOrRef]: an object node that holds only
    a [$ref] property has no [type] field, and it is returned as a
    reference, not classified as an object schema. *)
Lemma toSchemaOrRef_reference_node :
  ~ (forall children,
        find_child children "type" = None ->
        toSchemaOrRef (Some (Object children))
        = OK (Some (Item (ObjectSchema (Object children))))).
Proof.
  intros H.
  specialize (H [("$ref", Literal (LString "#/components/schemas/Pet"))] eq_refl).
  discriminate H.
Qed.

Example classify_integer :
  toSchemaOrRef (Some (Object [("type", Literal (LString "integer"))]))
  = OK (Some (Item (NumberSchema (Object [("type", Literal (LString "integer"))])))).
Proof. reflexivity. Qed.

Example classify_unknown_type :
  toSchemaOrRef (Some (Object [("type", Literal (LString "null"))]))
  = Throw "Unknown schema definition".
Proof. reflexivity. Qed.

Example resolveSchema_component :
  resolveSchema shadowed_document
    (RefNode (Object [("$ref", Literal (LString "#/components/schemas/fooResponse"))]))
  = OK (Some (ObjectSchema (Object [("type", Literal (LString "object"))]))).
Proof. reflexivity. Qed.

(** ** C8: additional properties *)

Lemma toSchemaOrRef_defined : forall value,
  (exists x, toSchemaOrRef (Some value) = OK (Some x)) \/
  toSchemaOrRef (Some value) = Throw unknown_schema.
Proof.
  intros value. unfold toSchemaOrRef.
  destruct (isRef value); [left; eauto|].
  destruct value as [v|cs|children]; try (now right).
  destruct (find_child children "type") as [[[t|n|b|]|cs|cs]|];
    try (now right); try (left; eauto; fail).
  repeat match goal with
         | |- context [if ?c then _ else _] => destruct c; [left; eauto|]
         end.
  now right.
Qed.

Lemma additionalProperties_factory_cases : forall node,
  match getProperty node "additionalProperties" with
  | Some (Literal (LBoolean false)) =>
      objectAdditionalPropertiesFactory (ObjectSchema node)
      = OK (Some (ObjectAdditionalProperties true))
  | Some (Literal _) | Some (Array _) | None =>
      objectAdditionalPropertiesFactory (ObjectSchema node) = OK None
  | Some (Object children) =>
      objectAdditionalPropertiesFactory (ObjectSchema node) = OK None \/
      objectAdditionalPropertiesFactory (ObjectSchema node) = Throw unknown_schema
  end.
Proof.
  intros node. unfold objectAdditionalPropertiesFactory,
    ObjectSchemaNode.additionalProperties, getLiteral, getChild.
  destruct (getProperty node "additionalProperties")
    as [[[s|n|[|]|]|cs|children]|]; try reflexivity.
  destruct (toSchemaOrRef_defined (Object children)) as [[x ->] | ->].
  - now left.
  - now right.
Qed.

Lemma parseObjectRules_OK : forall def rules,
  parseObjectRules def = OK rules ->
  exists mx mn ad,
    objectMaxPropertiesFactory def = OK mx /\
    objectMinPropertiesFactory def = OK mn /\
    objectAdditionalPropertiesFactory def = OK ad /\
    rules = (optional mx ++ optional mn ++ optional ad)%list.
Proof.
  intros def rules H.
  unfold parseObjectRules, run_factories, objectFactories in H.
  cbn [rmap] in H.
  destruct (objectMaxPropertiesFactory def) as [mx|]; [|discriminate].
  destruct (objectMinPropertiesFactory def) as [mn|]; [|discriminate].
  destruct (objectAdditionalPropertiesFactory def) as [ad|]; [|discriminate].
  cbn in H. injection H as <-.
  exists mx, mn, ad. repeat split. now rewrite app_nil_r.
Qed.

Lemma objectMaxProperties_id : forall def r,
  objectMaxPropertiesFactory def = OK (Some r) ->
  object_rule_id r = "object-max-properties".
Proof.
  intros def r H. unfold objectMaxPropertiesFactory in H.
  destruct def; try discriminate.
  destruct (opt_value (ObjectSchemaNode.maxProperties node)) as [[[| | |]|]|];
    cbn in H; try discriminate.
  now injection H as <-.
Qed.

Lemma objectMinProperties_id : forall def r,
  objectMinPropertiesFactory def = OK (Some r) ->
  object_rule_id r = "object-min-properties".
Proof.
  intros def r H. unfold objectMinPropertiesFactory in H.
  destruct def; try discriminate.
  destruct (opt_value (ObjectSchemaNode.minProperties node)) as [[[| | |]|]|];
    cbn in H; try discriminate.
  now injection H as <-.
Qed.

(** C8: on an object schema the factory of the additional-properties rule
    returns the rule, with [forbidden] set, exactly when the
    [additionalProperties] property is the literal [false]; the rules the
    object pipeline emits for the schema hold such a rule exactly in that
    case; the literal [true] yields no rule, and neither does an object
    value, which is read as a nested schema. *)
Theorem additional_properties_rule : forall node : ASTNode,
  (objectAdditionalPropertiesFactory (ObjectSchema node)
     = OK (Some (ObjectAdditionalProperties true)) <->
   getProperty node "additionalProperties" = Some (Literal (LBoolean false))) /\
  (forall r, objectAdditionalPropertiesFactory (ObjectSchema node) = OK (Some r) ->
             r = ObjectAdditionalProperties true) /\
  (forall rules,
      parseObjectRules (ObjectSchema node) = OK rules ->
      (existsb forbids_additional rules = true <->
       getProperty node "additionalProperties" = Some (Literal (LBoolean false)))) /\
  (getProperty node "additionalProperties" = Some (Literal (LBoolean true)) ->
   objectAdditionalPropertiesFactory (ObjectSchema node) = OK None) /\
  (forall children r,
      getProperty node "additionalProperties" = Some (Object children) ->
      objectAdditionalPropertiesFactory (ObjectSchema node) <> OK (Some r)).
Proof.
  intros node. pose proof (additionalProperties_factory_cases node) as Hc.
  assert (Hiff : objectAdditionalPropertiesFactory (ObjectSchema node)
                   = OK (Some (ObjectAdditionalProperties true)) <->
                 getProperty node "additionalProperties"
                   = Some (Literal (LBoolean false))).
  { destruct (getProperty node "additionalProperties")
      as [[[s|n|[|]|]|cs|children]|]; try (rewrite Hc; split; discriminate).
    - rewrite Hc. split; reflexivity.
    - destruct Hc as [-> | ->]; split; discriminate. }
  assert (Hsome : forall r,
             objectAdditionalPropertiesFactory (ObjectSchema node) = OK (Some r) ->
             r = ObjectAdditionalProperties true).
  { intros r Hr.
    destruct (getProperty node "additionalProperties")
      as [[[s|n|[|]|]|cs|children]|]; try (rewrite Hc in Hr; discriminate).
    - rewrite Hc in Hr. now injection Hr as <-.
    - destruct Hc as [H|H]; rewrite H in Hr; discriminate. }
  split; [exact Hiff|]. split; [exact Hsome|]. split; [|split].
  - intros rules H. split.
    + intros Hex. apply Hiff.
      destruct (parseObjectRules_OK _ _ H) as (mx & mn & ad & Hmx & Hmn & Had & ->).
      destruct ad as [r|].
      * now rewrite (Hsome r Had) in Had.
      * exfalso.
        destruct mx as [mx|], mn as [mn|];
          try apply objectMaxProperties_id in Hmx;
          try apply objectMinProperties_id in Hmn;
          simpl in Hex; unfold forbids_additional in Hex;
          rewrite ?Hmx, ?Hmn in Hex; simpl in Hex; discriminate.
    + intros Hfalse. apply Hiff in Hfalse.
      destruct (parseObjectRules_OK _ _ H) as (mx & mn & ad & Hmx & Hmn & Had & ->).
      rewrite Hfalse in Had. injection Had as <-.
      rewrite !existsb_app. simpl. now rewrite !orb_true_r.
  - intros Htrue. now rewrite Htrue in Hc.
  - intros children r Hobj Hr. rewrite Hobj in Hc.
    destruct Hc as [H|H]; rewrite H in Hr; discriminate.
Qed.

(** The scenario of the specification: [additionalProperties: false]
    yields the rule, [additionalProperties: {type: string}] yields none. *)
Example additional_properties_false :
  parseObjectRules
    (ObjectSchema (Object [("type", Literal (LString "object"));
                           ("additionalProperties", Literal (LBoolean false))]))
  = OK [ObjectAdditionalProperties true].
Proof. reflexivity. Qed.

Example additional_properties_schema :
  parseObjectRules
    (ObjectSchema (Object [("type", Literal (LString "object"));
                           ("additionalProperties",
                            Object [("type", Literal (LString "string"))])]))
  = OK [].
Proof. reflexivity. Qed.

(** ** C9: names of operations without operationId *)

(** C9: for an operation without [operationId], a method the loop of
    [parseMethods] builds for it is named [UNNAMED], and the HTTP method
    the loop of [parseHttpProtocol] builds for it is named [unknown]. *)
Theorem unnamed_operation_sentinels :
  forall (ext : Externals) (schema : ASTNode) (fuel : nat)
         (interfaceName : option Lit) (path verb : string) (operation : ASTNode),
  OperationNode.operationId operation = None ->
  (forall st method st',
      parseMethods_body ext schema fuel interfaceName path verb operation st
      = OK (Some method, st') ->
      method_name method = LString "UNNAMED") /\
  (forall pathItem commonParameters st httpMethod st',
      PathItemNode.member pathItem verb = OK operation ->
      parseHttpProtocol_method ext schema fuel interfaceName path pathItem
                               commonParameters verb st
      = OK (Some httpMethod, st') ->
      http_method_name httpMethod = LString "unknown").
Proof.
  intros ext schema fuel interfaceName path verb operation Hid. split.
  - intros st method st' H. unfold parseMethods_body in H.
    rewrite Hid in H. cbn [opt_value] in H.
    repeat run_step H; try discriminate.
    injection H as ->. reflexivity.
  - intros pathItem commonParameters st httpMethod st' Hmember H.
    unfold parseHttpProtocol_method in H.
    destruct (String.eqb verb "parameters"); [run_step H; discriminate|].
    run_step H. rewrite Hmember in Hrun. injection Hrun as <-.
    rewrite Hid in H. cbn [opt_value] in H.
    repeat run_step H; try discriminate.
    injection H as ->. reflexivity.
Qed.

Lemma unnamed_operation_sentinels_witness :
  exists method httpMethod st1 st2,
    parseMethods_body example_ext untagged_document 5 (Some (LString "pets"))
                      "/pets" "get" untagged_operation new_OAS3Parser
    = OK (Some method, st1) /\
    method_name method = LString "UNNAMED" /\
    parseHttpProtocol_method example_ext untagged_document 5
                             (Some (LString "pets")) "/pets"
                             (Object [("get", untagged_operation)]) [] "get"
                             new_OAS3Parser
    = OK (Some httpMethod, st2) /\
    http_method_name httpMethod = LString "unknown".
Proof.
  pose proof (unnamed_operation_sentinels example_ext untagged_document 5
                (Some (LString "pets")) "/pets" "get" untagged_operation
                eq_refl) as [Hmethod Hhttp].
  do 4 eexists.
  split; [vm_compute; reflexivity|].
  split; [eapply (Hmethod new_OAS3Parser); vm_compute; reflexivity|].
  split; [vm_compute; reflexivity|].
  eapply (Hhttp (Object [("get", untagged_operation)]) [] new_OAS3Parser);
    [reflexivity | vm_compute; reflexivity].
Defined.

(** The two names side by side in the service parsed from the document. *)
Example unnamed_operation_in_service :
  exists service violations,
    parser example_ext 5 untagged_document "api.json" = OK (service, violations) /\
    flat_map (fun i => map method_name (interface_methods i))
             (service_interfaces service) = [LString "UNNAMED"] /\
    flat_map (fun i => flat_map (fun p => map http_method_name (http_path_methods p))
                                (interface_http i))
             (service_interfaces service) = [LString "unknown"].
Proof.
  do 2 eexists. split; [vm_compute; reflexivity|]. split; reflexivity.
Qed.

(** ** C10: the anyOf getter *)

(** C10: the [anyOf] getter of an object schema reads the [oneOf] property:
    it always returns what the [oneOf] getter returns, and on a node that
    declares an [anyOf] list and no [oneOf] it returns no members. *)
Theorem anyOf_reads_oneOf : forall node : ASTNode,
  ObjectSchemaNode.anyOf node = ObjectSchemaNode.oneOf node /\
  (forall members,
      getProperty node "anyOf" = Some (Array members) ->
      getProperty node "oneOf" = None ->
      ObjectSchemaNode.anyOf node = OK None).
Proof.
  intros node. split.
  - reflexivity.
  - intros members _ Hone. unfold ObjectSchemaNode.anyOf.
    now rewrite Hone.
Qed.

Example anyOf_only_document :
  ObjectSchemaNode.anyOf
    (Object [("anyOf", Array [Object [("type", Literal (LString "object"))]])])
  = OK None.
Proof. reflexivity. Qed.

(** * Further properties *)

(** ** Tactics and general lemmas *)

(** One bind of a run that returned, with names for what it yields. *)
Tactic Notation "run_bind" hyp(H) "as" ident(a) ident(s) ident(Ha) :=
  apply bind_OK in H; destruct H as (a & s & Ha & H).

Lemma rmap_In : forall (A B : Type) (f : A -> result B) l ys x,
  rmap f l = OK ys -> In x l -> exists y, f x = OK y.
Proof.
  intros A B f l ys x H Hin. apply rmap_OK in H.
  induction H as [|a b l ys Hab _ IH]; [destruct Hin|].
  destruct Hin as [->|Hin]; eauto.
Qed.

Lemma mapM_In : forall (A B : Type) (f : A -> M B) l s ys s' x,
  mapM f l s = OK (ys, s') -> In x l ->
  exists s1 y s2, f x s1 = OK (y, s2) /\ In y ys.
Proof.
  intros A B f l. induction l as [|k ks IH]; intros s ys s' x H Hin; [destruct Hin|].
  cbn [mapM] in H. repeat run_step H. destruct Hin as [->|Hin].
  - do 3 eexists. split; [eassumption | now left].
  - destruct (IH _ _ _ _ Hrun0 Hin) as (t1 & y & t2 & Hy & Hiny).
    exists t1, y, t2. split; [exact Hy | now right].
Qed.

Lemma mapM_lift_state : forall (A B : Type) (f : A -> M B) l s ys s',
  (forall x t y t', f x t = OK (y, t') -> t' = t) ->
  mapM f l s = OK (ys, s') -> s' = s.
Proof.
  intros A B f l. induction l as [|k ks IH]; intros s ys s' Hf H.
  - apply ret_OK in H. now destruct H.
  - cbn [mapM] in H. repeat run_step H.
    apply Hf in Hrun. subst. eapply IH; eauto.
Qed.

Lemma mapM_Forall2 : forall (A B : Type) (f : A -> M B) (P : A -> B -> Prop) l s ys s',
  (forall x t y t', f x t = OK (y, t') -> P x y) ->
  mapM f l s = OK (ys, s') -> Forall2 P l ys.
Proof.
  intros A B f P l s ys s' Hf H. apply mapM_OK in H.
  induction H as [|x y l ys (t & t' & Hxy) _ IH]; constructor; eauto.
Qed.

Lemma mapM_names :
  forall (K A B : Type) (f : K -> M A) (name : A -> B) (key : K -> B) l s ys s',
  (forall k s1 y s2, f k s1 = OK (y, s2) -> name y = key k) ->
  mapM f l s = OK (ys, s') ->
  map name ys = map key l.
Proof.
  intros K A B f name key l. induction l as [|k ks IH]; intros s ys s' Hf H.
  - apply ret_OK in H. destruct H as [-> _]. reflexivity.
  - cbn [mapM] in H. repeat run_step H. cbn [map]. f_equal.
    + eapply Hf. eassumption.
    + eapply IH; eassumption.
Qed.

Lemma mapM_concat_names :
  forall (K A B : Type) (f : K -> M (list A)) (name : A -> B)
         (expected : K -> list B) l s ys s',
  (forall k s1 y s2, In k l -> f k s1 = OK (y, s2) -> map name y = expected k) ->
  mapM f l s = OK (ys, s') ->
  map name (concat ys) = flat_map expected l.
Proof.
  intros K A B f name expected l. induction l as [|k ks IH]; intros s ys s' Hf H.
  - apply ret_OK in H. destruct H as [-> _]. reflexivity.
  - cbn [mapM] in H. repeat run_step H. cbn [concat flat_map].
    rewrite map_app. f_equal.
    + eapply Hf; [now left | eassumption].
    + eapply IH; [|eassumption]. intros k' t1 y t2 Hin. apply Hf. now right.
Qed.

Lemma mapM_filter :
  forall (K A : Type) (f : K -> M (option A)) (p : K -> bool) (Q : K -> A -> Prop)
         l s rs s',
  (forall x t y t', f x t = OK (y, t') ->
                    match y with
                    | Some m => p x = true /\ Q x m
                    | None => p x = false
                    end) ->
  mapM f l s = OK (rs, s') ->
  Forall2 Q (filter p l) (defined rs).
Proof.
  intros K A f p Q l. induction l as [|x xs IH]; intros s rs s' Hf H.
  - apply ret_OK in H. destruct H as [-> _]. constructor.
  - cbn [mapM] in H. run_bind H as y s1 Hy. run_bind H as ys s2 Hys.
    apply ret_OK in H. destruct H as [-> ->].
    specialize (IH _ _ _ Hf Hys). apply Hf in Hy. cbn [filter].
    destruct y as [m|].
    + destruct Hy as [-> Hq]. now constructor.
    + rewrite Hy. exact IH.
Qed.

Lemma mapM_app_intro : forall (A B : Type) (f : A -> M B) a b s ya s1 yb s',
  mapM f a s = OK (ya, s1) -> mapM f b s1 = OK (yb, s') ->
  mapM f (a ++ b) s = OK ((ya ++ yb)%list, s').
Proof.
  intros A B f a. induction a as [|x xs IH]; intros b s ya s1 yb s' Ha Hb.
  - apply ret_OK in Ha. destruct Ha as [-> ->]. exact Hb.
  - cbn [mapM] in Ha. run_bind Ha as y t Hy. run_bind Ha as ys t' Hys.
    apply ret_OK in Ha. destruct Ha as [-> ->].
    cbn [app mapM]. unfold bind at 1. rewrite Hy. unfold bind at 1.
    rewrite (IH _ _ _ _ _ _ Hys Hb). reflexivity.
Qed.

Lemma In_defined : forall (A : Type) (l : list (option A)) x,
  In (Some x) l -> In x (defined l).
Proof.
  intros A l x H. unfold defined. apply in_flat_map.
  exists (Some x). split; [exact H | now left].
Qed.

Lemma defined_app : forall (A : Type) (a b : list (option A)),
  defined (a ++ b) = (defined a ++ defined b)%list.
Proof. intros A a b. unfold defined. apply flat_map_app. Qed.

Lemma flat_map_singleton : forall (A : Type) (l : list A),
  flat_map (fun x => [x]) l = l.
Proof. induction l as [|x xs IH]; simpl; [reflexivity | now rewrite IH]. Qed.

Lemma Forall2_find : forall (A B : Type) (P : A -> B -> Prop) (p : B -> bool) l l' y,
  Forall2 P l l' -> find p l' = Some y ->
  exists x, In x l /\ P x y /\ p y = true.
Proof.
  intros A B P p l l' y H. induction H as [|a b l l' Hab _ IH]; cbn; [discriminate|].
  destruct (p b) eqn:Hb.
  - intros [= <-]. exists a. auto.
  - intros Hf. destruct (IH Hf) as (x & Hin & Hx). exists x. auto.
Qed.

Lemma find_child_app : forall a b key,
  find_child (a ++ b) key =
  match find_child a key with
  | Some v => Some v
  | None => find_child b key
  end.
Proof.
  induction a as [|[k v] a IH]; intros b key; simpl; [reflexivity|].
  destruct (String.eqb k key); [reflexivity | apply IH].
Qed.

Lemma substring_from_0 : forall s, substring_from 0 s = s.
Proof.
  intros s. unfold substring_from. rewrite Nat.sub_0_r.
  induction s as [|c s IH]; simpl; [reflexivity|]. now rewrite IH.
Qed.

Lemma startsWith_decompose : forall prefix s,
  startsWith s prefix = true ->
  s = prefix ++ substring_from (String.length prefix) s.
Proof.
  unfold startsWith.
  induction prefix as [|c p IH]; intros s H.
  - simpl. now rewrite substring_from_0.
  - destruct s as [|d s]; [discriminate|]. simpl in H.
    destruct (ascii_dec c d) as [->|]; [|discriminate].
    simpl. f_equal. unfold substring_from in *. simpl. now apply IH.
Qed.

Lemma startsWith_append : forall prefix s, startsWith (prefix ++ s) prefix = true.
Proof.
  unfold startsWith. induction prefix as [|c p IH]; intros s; simpl.
  - now destruct s.
  - destruct (ascii_dec c c); [apply IH | congruence].
Qed.

Lemma substring_from_append : forall prefix s,
  substring_from (String.length prefix) (prefix ++ s) = s.
Proof.
  induction prefix as [|c p IH]; intros s.
  - apply substring_from_0.
  - unfold substring_from in *. simpl. apply IH.
Qed.

Lemma split_not_nil : forall sep s, split sep s <> [].
Proof.
  intros sep s. destruct s as [|c s]; simpl; [discriminate|].
  destruct (Ascii.eqb c sep); [discriminate|].
  destruct (split sep s); discriminate.
Qed.

Lemma split_without : forall sep s, contains sep s = false -> split sep s = [s].
Proof.
  intros sep. induction s as [|c s IH]; simpl; intros H; [reflexivity|].
  apply orb_false_iff in H. destruct H as [Hc Hs].
  rewrite Hc, (IH Hs). reflexivity.
Qed.

Lemma split_append : forall sep p key,
  contains sep key = false ->
  split sep (p ++ String sep key) = (split sep p ++ [key])%list.
Proof.
  intros sep p key Hkey. induction p as [|c p IH]; simpl.
  - rewrite Ascii.eqb_refl, (split_without _ _ Hkey). reflexivity.
  - destruct (Ascii.eqb c sep); [now rewrite IH|].
    rewrite IH. destruct (split sep p) eqn:Hp; [now apply split_not_nil in Hp|].
    reflexivity.
Qed.

Lemma split_first : forall sep a b,
  contains sep a = false ->
  split sep (a ++ String sep b) = a :: split sep b.
Proof.
  intros sep a b. induction a as [|c a IH]; intros H; simpl.
  - now rewrite Ascii.eqb_refl.
  - simpl in H. apply orb_false_iff in H. destruct H as [Hc Ha].
    rewrite Hc, (IH Ha). reflexivity.
Qed.

Lemma strict_equals_literal : forall v s,
  strict_equals (Some v) (Some (LString s)) =
  match v with LString x => String.eqb x s | _ => false end.
Proof. intros [x|x|x|] s; reflexivity. Qed.

(** ** The overlay *)

Lemma walk_from_snoc : forall root segments cur key,
  walk_from root cur (segments ++ [key]) =
  match walk_from root cur segments with
  | Some node => walk_from root node [key]
  | None => None
  end.
Proof.
  intros root segments. induction segments as [|seg rest IH]; intros cur key.
  - reflexivity.
  - cbn [app walk_from]. destruct (String.eqb seg "#"); [apply IH|].
    destruct cur as [v|cs|children]; try reflexivity.
    destruct (find_child children seg); [apply IH | reflexivity].
Qed.

Lemma resolveRef_walk : forall root ref,
  resolveRef root ref =
  if startsWith ref "#"
  then match walk_from root root (split "/" ref) with
       | Some node => OK node
       | None => Throw (cannot_resolve_ref ref)
       end
  else Throw (cannot_resolve_ref ref).
Proof.
  intros root ref. unfold resolveRef.
  destruct (startsWith ref "#"); simpl; [apply resolveRef_loop_walk | reflexivity].
Qed.

Lemma startsWith_hash_append : forall p s,
  startsWith (p ++ String "/" s) "#" = startsWith p "#".
Proof.
  intros p s. unfold startsWith. destruct p as [|c p]; [reflexivity|].
  cbn [append prefix]. destruct (ascii_dec "#" c); [|reflexivity].
  now destruct p.
Qed.

(** X1: pointers compose segment by segment. For a last segment without
    [/], resolving [pointer/key] is resolving [pointer] and then looking
    [key] up among the properties of the node found (the first property of
    that name); the segment [#] leads back to the root; and every failure
    is reported with the whole pointer. No escape sequence is decoded, so a
    property whose name holds a [/] is out of reach of every pointer. *)
Theorem resolveRef_extends : forall (root : ASTNode) (pointer key : string),
  contains "/" key = false ->
  resolveRef root (pointer ++ "/" ++ key) =
  match resolveRef root pointer with
  | OK node =>
      if String.eqb key "#" then OK root
      else match getProperty node key with
           | Some child => OK child
           | None => Throw (cannot_resolve_ref (pointer ++ "/" ++ key))
           end
  | Throw _ => Throw (cannot_resolve_ref (pointer ++ "/" ++ key))
  end.
Proof.
  intros root pointer key Hkey.
  rewrite !resolveRef_walk. change ("/" ++ key) with (String "/" key).
  rewrite startsWith_hash_append, (split_append _ _ _ Hkey), walk_from_snoc.
  destruct (startsWith pointer "#"); [|reflexivity].
  destruct (walk_from root root (split "/" pointer)) as [node|]; [|reflexivity].
  simpl. destruct (String.eqb key "#"); [reflexivity|].
  destruct node as [v|cs|children]; try reflexivity.
  simpl. now destruct (find_child children key).
Qed.

(** The pointer to a component schema, one segment at a time. *)
Lemma resolveRef_extends_witness :
  contains "/" "fooResponse" = false /\
  resolveRef shadowed_document ("#/components/schemas" ++ "/" ++ "fooResponse")
  = OK (Object [("type", Literal (LString "object"))]).
Proof.
  split; [reflexivity|].
  rewrite (resolveRef_extends shadowed_document "#/components/schemas" "fooResponse" eq_refl).
  reflexivity.
Defined.

Lemma fold_obj_set_get : forall (f : ASTNode -> Json) children acc key,
  obj_get (fold_left (fun acc (child : string * ASTNode) =>
                        match child with
                        | (k, value) => obj_set acc k (f value)
                        end) children acc) key =
  match find_child (rev children) key with
  | Some v => Some (f v)
  | None => obj_get acc key
  end.
Proof.
  intros f. induction children as [|[k v] rest IH]; intros acc key; simpl.
  - reflexivity.
  - rewrite IH, find_child_app. destruct (find_child (rev rest) key); [reflexivity|].
    simpl. rewrite obj_get_set. destruct (String.eqb k key); reflexivity.
Qed.

Lemma fold_obj_set_NoDup : forall (f : ASTNode -> Json) children acc,
  NoDup (map fst acc) ->
  NoDup (map fst (fold_left (fun acc (child : string * ASTNode) =>
                        match child with
                        | (k, value) => obj_set acc k (f value)
                        end) children acc)).
Proof.
  intros f. induction children as [|[k v] rest IH]; intros acc H; simpl.
  - exact H.
  - apply IH. now apply obj_set_NoDup.
Qed.

(** X2: the JSON value of an object node has every key once, and under a
    key that the node carries several times it holds the value of the last
    property of that name, whereas [getProperty] reads the first. *)
Theorem toJson_object_last_wins : forall (children : list (string * ASTNode)),
  let o := Json_properties (toJson (Object children)) in
  NoDup (map fst o) /\
  forall key, obj_get o key = option_map toJson (find_child (rev children) key).
Proof.
  intros children. cbn [toJson Json_properties]. split.
  - apply fold_obj_set_NoDup. constructor.
  - intros key. rewrite (fold_obj_set_get toJson).
    now destruct (find_child (rev children) key).
Qed.

(** ** Extensions, names and styles *)

Lemma parseMeta_entries : forall children,
  Forall2 (fun child m => fst child = "x-" ++ meta_key m /\
                          meta_value m = toJson (snd child))
          (filter (fun child => startsWith (fst child) "x-") children)
          (map (fun child => {| meta_key := substring_from 2 (fst child);
                                meta_value := toJson (snd child) |})
               (filter (fun child => startsWith (fst child) "x-") children)).
Proof.
  induction children as [|[k v] rest IH]; simpl; [constructor|].
  destruct (startsWith k "x-") eqn:Hk; [|exact IH].
  simpl. constructor; [|exact IH]. split; [|reflexivity].
  simpl. exact (startsWith_decompose "x-" k Hk).
Qed.

(** X4: the meta of a node has one entry for each property whose key
    starts with [x-], in document order; the key of the entry is the key of
    the property without that prefix and its value is the JSON value of the
    property; and a node without such a property has no meta at all, never
    an empty list. *)
Theorem parseMeta_extensions : forall node : ASTNode,
  match parseMeta node with
  | Some meta =>
      meta <> [] /\
      Forall2 (fun child m => fst child = "x-" ++ meta_key m /\
                              meta_value m = toJson (snd child))
              (filter (fun child => startsWith (fst child) "x-")
                      (children_of node))
              meta
  | None => forall key, In key (keys node) -> startsWith key "x-" = false
  end.
Proof.
  intros [v|cs|children]; simpl; try (intros key []).
  pose proof (parseMeta_entries children) as H.
  destruct (map _ (filter _ children)) as [|m meta] eqn:Hmeta.
  - intros key Hin. apply in_map_iff in Hin. destruct Hin as ([k v] & <- & Hin).
    cbn [fst]. destruct (startsWith k "x-") eqn:Hk; [|reflexivity].
    assert (Hf : In (k, v) (filter (fun child => startsWith (fst child) "x-") children))
      by (apply filter_In; auto).
    apply (in_map (fun child => {| meta_key := substring_from 2 (fst child);
                                   meta_value := toJson (snd child) |})) in Hf.
    rewrite Hmeta in Hf. destruct Hf.
  - split; [discriminate | exact H].
Qed.

Lemma toJson_literal : forall node value,
  toJson node = JLit value -> node = Literal value.
Proof. intros [v|cs|cs] value H; try discriminate H. now injection H as ->. Qed.

(** X5: the name of the body parameter is either [body] or the string
    value of a property of the operation whose key is [x-] followed by a
    name that is [codegen-request-body-name] in kebab case: no other
    property of the operation can name it. *)
Theorem body_parameter_name_from_extension :
  forall (ext : Externals) (operation : ASTNode),
  parseBodyParamName ext operation = "body" \/
  exists key,
    In ("x-" ++ key, Literal (LString (parseBodyParamName ext operation)))
       (children_of operation) /\
    kebab ext key = "codegen-request-body-name".
Proof.
  intros ext operation. unfold parseBodyParamName.
  destruct operation as [v|cs|children]; try now left.
  cbn [parseMeta children_of].
  pose proof (parseMeta_entries children) as Hentries.
  destruct (map _ (filter _ children)) as [|m0 meta0] eqn:Hmeta; [now left|].
  rewrite <- Hmeta in *. clear Hmeta m0 meta0.
  destruct (find _ _) as [m|] eqn:Hfind; [|now left].
  destruct (Forall2_find _ _ _ _ _ _ _ Hentries Hfind)
    as ([k v] & Hin & [Hkey Hvalue] & Hkebab).
  cbn [fst snd] in *. apply filter_In in Hin. destruct Hin as [Hin _].
  destruct (meta_value m) as [[name|n|b|]|items|properties]; try now left.
  right. exists (meta_key m). split; [|now apply String.eqb_eq].
  symmetry in Hvalue. apply toJson_literal in Hvalue. now subst.
Qed.

(** X6: the interface of an operation. A first tag that is a non-empty
    string names it, whatever the path; an operation without [tags] is
    named by the first segment of its path after the leading [/], and has
    no name when the path holds no [/]; and an empty [tags] array makes
    the parser throw. *)
Theorem interface_name_of_operation :
  forall (operation : ASTNode) (segment : string),
  contains "/" segment = false ->
  (forall path tag others,
      OperationNode.tags operation = OK (Some (Literal (LString tag) :: others)) ->
      tag <> "" ->
      parseInterfaceName path operation = OK (Some (LString tag))) /\
  (OperationNode.tags operation = OK None ->
   parseInterfaceName ("/" ++ segment) operation = OK (Some (LString segment)) /\
   (forall rest,
       parseInterfaceName ("/" ++ segment ++ "/" ++ rest) operation
       = OK (Some (LString segment))) /\
   parseInterfaceName segment operation = OK None) /\
  (forall path,
      OperationNode.tags operation = OK (Some []) ->
      parseInterfaceName path operation = Throw TypeError).
Proof.
  intros operation segment Hseg. split; [|split].
  - intros path tag others Htags Htag. unfold parseInterfaceName.
    rewrite Htags. cbn [rbind LiteralNode_value truthy].
    destruct (String.eqb_spec tag "") as [->|_]; [contradiction | reflexivity].
  - intros Htags. unfold parseInterfaceName. rewrite Htags. cbn [rbind].
    split; [|split].
    + change ("/" ++ segment) with (String "/" segment).
      cbn [split]. rewrite Ascii.eqb_refl, (split_without _ _ Hseg). reflexivity.
    + intros rest. change ("/" ++ segment ++ "/" ++ rest)
        with (String "/" (segment ++ String "/" rest)).
      cbn [split]. rewrite Ascii.eqb_refl, (split_first _ _ _ Hseg). reflexivity.
    + rewrite (split_without _ _ Hseg). reflexivity.
  - intros path Htags. unfold parseInterfaceName. now rewrite Htags.
Qed.

(** An untagged operation under [/pets/{id}]. *)
Lemma interface_name_of_operation_witness :
  contains "/" "pets" = false /\
  parseInterfaceName "/pets/{id}" untagged_operation = OK (Some (LString "pets")).
Proof.
  split; [reflexivity|].
  destruct (interface_name_of_operation untagged_operation "pets" eq_refl)
    as (_ & Hpath & _).
  destruct (Hpath eq_refl) as (_ & Hrest & _).
  exact (Hrest "{id}").
Defined.

(** X7: the array style of a parameter, when [parseArrayStyle] returns:
    [multi] for the style [form] with a truthy [explode], [ssv] for
    [spaceDelimited], [pipes] for [pipeDelimited] and [csv] for everything
    else, a missing or unknown style included; the styles [matrix] and
    [label] add one warning to [violations], and nothing else changes the
    state. *)
Theorem array_style_table :
  forall (ext : Externals) (paramNode : ASTNode) (s : ParserState)
         (style : string) (s' : ParserState),
  parseArrayStyle ext paramNode s = OK (style, s') ->
  style =
    (if style_is paramNode "form" && flag_set paramNode "explode" then "multi"
     else if style_is paramNode "spaceDelimited" then "ssv"
     else if style_is paramNode "pipeDelimited" then "pipes"
     else "csv") /\
  s' = match unsupported_style paramNode with
       | Some unsupported =>
           with_violation s (unsupported_feature (style_not_supported unsupported))
       | None => s
       end.
Proof.
  intros ext paramNode s style s' H. unfold parseArrayStyle in H.
  unfold ParameterNode.style, ParameterNode.explode, getLiteral, getChild in H.
  unfold style_is, unsupported_style, flag_set.
  destruct (getProperty paramNode "style") as [[v|cs|cs]|];
    try (apply ret_OK in H; destruct H as [-> ->]; now split);
    try (run_step H; discriminate).
  run_step H. rewrite !strict_equals_literal in H.
  destruct v as [x|x|x|];
    try (apply ret_OK in H; destruct H as [-> ->]; now split).
  destruct (String.eqb x "matrix") eqn:Hm.
  - apply String.eqb_eq in Hm. subst x. cbn [orb] in H.
    run_step H. apply ret_OK in H. destruct H as [-> ->].
    injection Hrun as _ <-. now split.
  - destruct (String.eqb x "label") eqn:Hl.
    + apply String.eqb_eq in Hl. subst x. cbn [orb] in H.
      run_step H. apply ret_OK in H. destruct H as [-> ->].
      injection Hrun as _ <-. now split.
    + cbn [orb] in H. destruct (String.eqb x "form") eqn:Hf.
      * apply String.eqb_eq in Hf. subst x. cbn [andb].
        run_step H. apply ret_OK in H. destruct H as [-> ->].
        split; [|reflexivity].
        destruct (getProperty paramNode "explode") as [[e|cs|cs]|];
          try discriminate Hrun; injection Hrun as <-; cbn [opt_truthy];
          now destruct (truthy e) || reflexivity.
      * cbn [andb]. destruct (String.eqb x "simple") eqn:Hs.
        -- apply String.eqb_eq in Hs. subst x.
           apply ret_OK in H. destruct H as [-> ->]. now split.
        -- destruct (String.eqb x "spaceDelimited") eqn:Hsp.
           ++ apply ret_OK in H. destruct H as [-> ->]. now split.
           ++ destruct (String.eqb x "pipeDelimited") eqn:Hp;
                apply ret_OK in H; destruct H as [-> ->]; now split.
Qed.

(** The style [matrix] is warned about; [form] with [explode] is [multi]. *)
Lemma array_style_table_witness :
  parseArrayStyle example_ext (Object [("style", Literal (LString "matrix"))])
                  new_OAS3Parser
  = OK ("csv",
        with_violation new_OAS3Parser
          (unsupported_feature (style_not_supported "matrix"))) /\
  exists style s',
    parseArrayStyle example_ext
      (Object [("style", Literal (LString "form"));
               ("explode", Literal (LBoolean true))]) new_OAS3Parser
    = OK (style, s') /\
    style = "multi" /\ s' = new_OAS3Parser.
Proof.
  split; [reflexivity|].
  destruct (parseArrayStyle example_ext
              (Object [("style", Literal (LString "form"));
                       ("explode", Literal (LBoolean true))]) new_OAS3Parser)
    as [[style s']|e] eqn:Hrun.
  - exists style, s'. split; [reflexivity|].
    exact (array_style_table _ _ _ _ _ Hrun).
  - vm_compute in Hrun. discriminate Hrun.
Defined.

(** X8: a parameter of the HTTP binding carries an array style exactly
    when it is located in [header], [path] or [query] and its schema is an
    array schema written in place: a parameter whose schema is a reference
    to an array schema gets none. *)
Theorem array_style_needs_an_inline_array :
  forall (ext : Externals) (schema : ASTNode) (param : OrRef ASTNode)
         (s : ParserState) (bound : HttpParameter) (s' : ParserState),
  parseHttpProtocol_parameter ext schema param s = OK (Some bound, s') ->
  exists resolved,
    resolveParam schema param = OK (Some resolved) /\
    bang_value (ParameterNode.in_ resolved) = OK (http_parameter_in bound) /\
    (http_parameter_array bound <> None <->
     styled_location (http_parameter_in bound) = true /\
     inline_array_schema resolved = true).
Proof.
  intros ext schema param s bound s' H.
  unfold parseHttpProtocol_parameter, parseParameterName,
    parseParameterLocation in H.
  destruct (resolveParam schema param) as [[resolved|]|e] eqn:Hres;
    cbn [rbind] in H; try (run_bind H as x t Hx; discriminate).
  exists resolved. split; [reflexivity|].
  run_bind H as name s1 Hname. run_bind H as resolved' s2 Hresolved.
  apply lift_OK in Hresolved. destruct Hresolved as [Hresolved ->].
  injection Hresolved as <-.
  run_bind H as location s2 Hlocation. apply lift_OK in Hlocation.
  destruct Hlocation as [Hlocation ->]. injection Hlocation as <-.
  run_bind H as locationValue s2 HlocationValue. apply lift_OK in HlocationValue.
  destruct HlocationValue as [HlocationValue ->].
  destruct (strict_equals (Some locationValue) (Some (LString "cookie")));
    [run_bind H as u s2 Hu; apply ret_OK in H; destruct H as [H _]; discriminate H|].
  run_bind H as inValue s2 HinValue. apply lift_OK in HinValue.
  destruct HinValue as [HinValue ->].
  rewrite HlocationValue in HinValue. injection HinValue as <-.
  run_bind H as isArrayParameter s2 Harray.
  run_bind H as nameValue s3 HnameValue. apply lift_OK in HnameValue.
  destruct HnameValue as [_ ->].
  assert (Hflag : isArrayParameter
                  = styled_location locationValue && inline_array_schema resolved).
  { unfold styled_location, inline_array_schema.
    destruct (_ || _ || _); cbn [andb].
    - run_bind Harray as schemaOrRef t Hschema. apply lift_OK in Hschema.
      destruct Hschema as [-> ->]. apply ret_OK in Harray. now destruct Harray.
    - apply ret_OK in Harray. now destruct Harray. }
  destruct isArrayParameter.
  - run_bind H as style s4 Hstyle. apply ret_OK in H. destruct H as [H _].
    injection H as H. subst bound. cbn [http_parameter_in http_parameter_array].
    split; [exact HlocationValue|]. symmetry in Hflag.
    apply andb_true_iff in Hflag. split; [intros _; exact Hflag | discriminate].
  - apply ret_OK in H. destruct H as [H _]. injection H as H. subst bound.
    cbn [http_parameter_in http_parameter_array].
    split; [exact HlocationValue|]. split; [intros Hne; now elim Hne|].
    intros [Ha Hb]. rewrite Ha, Hb in Hflag. discriminate Hflag.
Qed.

(** A query parameter whose schema refers to an array schema. *)
Lemma array_style_needs_an_inline_array_witness :
  exists bound s',
    parseHttpProtocol_parameter example_ext referenced_array_document
                                (Item referenced_array_parameter) new_OAS3Parser
    = OK (Some bound, s') /\
    http_parameter_array bound = None /\
    exists resolved,
      resolveParam referenced_array_document (Item referenced_array_parameter)
      = OK (Some resolved) /\
      bang_value (ParameterNode.in_ resolved) = OK (http_parameter_in bound) /\
      (http_parameter_array bound <> None <->
       styled_location (http_parameter_in bound) = true /\
       inline_array_schema resolved = true).
Proof.
  destruct (parseHttpProtocol_parameter example_ext referenced_array_document
              (Item referenced_array_parameter) new_OAS3Parser)
    as [[[bound|] s']|e] eqn:Hrun; try (vm_compute in Hrun; discriminate Hrun).
  exists bound, s'. split; [reflexivity|]. split.
  - vm_compute in Hrun. now injection Hrun as <- _.
  - exact (array_style_needs_an_inline_array _ _ _ _ _ _ Hrun).
Defined.

(** X9: of the content types of a body or a response only the first is
    read: what [getSchemaOrRef] returns is the schema of the first content
    type, and the state it leaves is the state it found, with one warning
    added to [violations] when there are two content types or more. *)
Theorem first_content_type_only :
  forall (content : option ASTNode) (s : ParserState)
         (schemaOrRef : option SchemaOrRef) (s' : ParserState),
  getSchemaOrRef content s = OK (schemaOrRef, s') ->
  content_schema content = OK schemaOrRef /\
  s' = (if (2 <=? List.length (keys_of content))%nat
        then with_violation s (unsupported_feature multiple_content_types)
        else s).
Proof.
  intros content s schemaOrRef s' H. unfold getSchemaOrRef in H.
  unfold content_schema.
  destruct content as [content|]; cbn [keys_of];
    [|apply ret_OK in H; destruct H as [-> ->]; now split].
  destruct (keys content) as [|first [|second others]]; cbn [List.length Nat.leb].
  - apply ret_OK in H. destruct H as [-> ->]. now split.
  - run_bind H as u s1 Hu. apply ret_OK in Hu. destruct Hu as [_ ->].
    destruct (MediaTypeIndexNode.read content first) as [mediaType|].
    + apply lift_OK in H. destruct H as [-> ->]. now split.
    + apply ret_OK in H. destruct H as [-> ->]. now split.
  - run_bind H as u s1 Hu. injection Hu as _ <-.
    destruct (MediaTypeIndexNode.read content first) as [mediaType|].
    + apply lift_OK in H. destruct H as [-> ->]. now split.
    + apply ret_OK in H. destruct H as [-> ->]. now split.
Qed.

(** Two content types: the schema of the first, and one warning. *)
Lemma first_content_type_only_witness :
  exists schemaOrRef s',
    getSchemaOrRef
      (Some (Object [("application/json",
                      Object [("schema", Object [("type", Literal (LString "string"))])]);
                     ("text/plain", Object [])]))
      new_OAS3Parser = OK (schemaOrRef, s') /\
    schemaOrRef
    = Some (Item (StringSchema (Object [("type", Literal (LString "string"))]))) /\
    s' = with_violation new_OAS3Parser (unsupported_feature multiple_content_types).
Proof.
  destruct (getSchemaOrRef
      (Some (Object [("application/json",
                      Object [("schema", Object [("type", Literal (LString "string"))])]);
                     ("text/plain", Object [])]))
      new_OAS3Parser) as [[schemaOrRef s']|e] eqn:Hrun.
  - exists schemaOrRef, s'. split; [reflexivity|].
    destruct (first_content_type_only _ _ _ _ Hrun) as [Hschema Hstate].
    split; [|exact Hstate].
    vm_compute in Hschema. now injection Hschema as <-.
  - vm_compute in Hrun. discriminate Hrun.
Defined.

(** ** Security *)

Lemma parseScopes_names : forall scopes l,
  parseScopes scopes = OK l ->
  exists node, scopes = Some node /\ map scope_name l = keys node.
Proof.
  intros [node|] l H; [|discriminate H]. exists node. split; [reflexivity|].
  unfold parseScopes in H. apply rmap_OK in H.
  induction H as [|k y ks ys Hk _ IH]; [reflexivity|].
  cbn [map]. rewrite IH. f_equal.
  destruct (parseDescriptionOnly (StringMappingNode.read node k));
    [|discriminate Hk]. now injection Hk as <-.
Qed.

(** X10: the flows of an OAuth2 scheme come out in the order
    [authorizationCode], [clientCredentials], [implicit], [password],
    whatever their order in the document, one for each flow the scheme
    declares; every such flow declares [scopes], and its scopes are the
    keys of [scopes] in document order. *)
Theorem oauth2_flows_in_fixed_order :
  forall (flows : ASTNode) (parsed : list OAuth2Flow),
  parseOAuth2Flows (Some flows) = OK parsed ->
  map flow_type parsed =
    filter (declares flows)
           ["authorizationCode"; "clientCredentials"; "implicit"; "password"] /\
  Forall (fun flow =>
            exists node scopes,
              getChild flows (flow_type flow) = Some node /\
              OAuthFlowNode.scopes node = Some scopes /\
              map scope_name (flow_scopes flow) = keys scopes)
         parsed.
Proof.
  intros flows parsed H. unfold parseOAuth2Flows in H.
  unfold OAuthFlowsNode.authorizationCode, OAuthFlowsNode.clientCredentials,
    OAuthFlowsNode.implicit, OAuthFlowsNode.password in H.
  unfold declares. cbn [filter].
  unfold getChild in *.
  destruct (getProperty flows "authorizationCode") as [ac|] eqn:Hac;
  destruct (getProperty flows "clientCredentials") as [cc|] eqn:Hcc;
  destruct (getProperty flows "implicit") as [im|] eqn:Him;
  destruct (getProperty flows "password") as [pw|] eqn:Hpw;
  factory_cases H;
  repeat match goal with
    | E : rbind ?r _ = OK _ |- _ =>
        destruct r eqn:?; cbn [rbind] in E; [|discriminate E]
    | E : OK _ = OK _ |- _ => injection E as <-
    end;
  cbn [app map flow_type];
  (split; [reflexivity|]);
  repeat (constructor;
          [ cbn [flow_type flow_scopes];
            match goal with
            | Hs : parseScopes (OAuthFlowNode.scopes ?n) = OK _ |- _ =>
                destruct (parseScopes_names _ _ Hs) as (scopes & Hsome & Hnames);
                exists n, scopes; repeat split; assumption
            end
          | ]);
  constructor.
Qed.

(** [password] is declared before [implicit] and comes out after it. *)
Lemma oauth2_flows_in_fixed_order_witness :
  exists parsed,
    parseOAuth2Flows (Some oauth_flows) = OK parsed /\
    map flow_type parsed = ["implicit"; "password"].
Proof.
  destruct (parseOAuth2Flows (Some oauth_flows)) as [parsed|e] eqn:Hrun.
  - exists parsed. split; [reflexivity|].
    exact (proj1 (oauth2_flows_in_fixed_order _ _ Hrun)).
  - vm_compute in Hrun. discriminate Hrun.
Defined.

(** X11: the schemes of a security option are named by the keys of the
    requirement, in document order, that hold an array in the requirement
    and name an [http], [apiKey] or [oauth2] scheme written in place under
    [securitySchemes]; a key whose value is no array, a key without a
    declared scheme, a scheme given by reference and an [openIdConnect]
    scheme leave no trace. *)
Theorem security_option_scheme_names :
  forall (securitySchemes : option ASTNode) (requirements : ASTNode)
         (option : SecurityOption),
  parseSecurity_option securitySchemes requirements = OK option ->
  map scheme_name option
  = filter (representable securitySchemes requirements) (keys requirements).
Proof.
  intros securitySchemes requirements option H. unfold parseSecurity_option in H.
  destruct (rmap _ (keys requirements)) as [schemes|] eqn:Hschemes;
    cbn [rbind] in H; [|discriminate H].
  injection H as <-. apply rmap_OK in Hschemes.
  now apply security_scheme_names.
Qed.

(** A requirement with an [openIdConnect] scheme, an undeclared key, an
    [http] scheme under a key whose value is no array, and two schemes the
    IR can represent. *)
Lemma security_option_scheme_names_witness :
  exists option,
    parseSecurity_option (declared_securitySchemes secured_document)
                         (Object [("sso", Array []); ("missing", Array []);
                                  ("basic", Literal (LString "read"));
                                  ("key", Array []); ("basic", Array [])])
    = OK option /\
    map scheme_name option = ["key"].
Proof.
  destruct (parseSecurity_option (declared_securitySchemes secured_document)
                         (Object [("sso", Array []); ("missing", Array []);
                                  ("basic", Literal (LString "read"));
                                  ("key", Array []); ("basic", Array [])]))
    as [option|e] eqn:Hrun.
  - exists option. split; [reflexivity|].
    rewrite (security_option_scheme_names _ _ _ Hrun). reflexivity.
  - vm_compute in Hrun. discriminate Hrun.
Defined.

(** ** Validation rules *)

Lemma stringEnumFactory_id : forall def r,
  stringEnumFactory def = OK r ->
  match def with
  | StringSchema _ => forall x, r = Some x -> rule_id x = "string-enum"
  | _ => r = None
  end.
Proof.
  intros def r H. unfold stringEnumFactory in H.
  factory_cases H; try reflexivity; intros x [= <-]; reflexivity.
Qed.

Lemma stringFormatFactory_id : forall def r,
  stringFormatFactory def = OK r ->
  match def with
  | StringSchema _ => forall x, r = Some x -> rule_id x = "string-format"
  | _ => r = None
  end.
Proof.
  intros def r H. unfold stringFormatFactory in H.
  factory_cases H; try reflexivity; intros x [= <-] || intros x [=]; reflexivity.
Qed.

Lemma stringMaxLengthFactory_id : forall def r,
  stringMaxLengthFactory def = OK r ->
  match def with
  | StringSchema _ => forall x, r = Some x -> rule_id x = "string-max-length"
  | _ => r = None
  end.
Proof.
  intros def r H. unfold stringMaxLengthFactory in H.
  factory_cases H; try reflexivity; intros x [= <-] || intros x [=]; reflexivity.
Qed.

Lemma stringMinLengthFactory_id : forall def r,
  stringMinLengthFactory def = OK r ->
  match def with
  | StringSchema _ => forall x, r = Some x -> rule_id x = "string-min-length"
  | _ => r = None
  end.
Proof.
  intros def r H. unfold stringMinLengthFactory in H.
  factory_cases H; try reflexivity; intros x [= <-] || intros x [=]; reflexivity.
Qed.

Lemma stringPatternFactory_id : forall def r,
  stringPatternFactory def = OK r ->
  match def with
  | StringSchema _ => forall x, r = Some x -> rule_id x = "string-pattern"
  | _ => r = None
  end.
Proof.
  intros def r H. unfold stringPatternFactory in H.
  factory_cases H; try reflexivity; intros x [= <-] || intros x [=]; reflexivity.
Qed.

Lemma numberMultipleOfFactory_id : forall def r,
  numberMultipleOfFactory def = OK r ->
  match def with
  | NumberSchema _ => forall x, r = Some x -> rule_id x = "number-multiple-of"
  | _ => r = None
  end.
Proof.
  intros def r H. unfold numberMultipleOfFactory in H.
  factory_cases H; try reflexivity; intros x [= <-] || intros x [=]; reflexivity.
Qed.

Lemma numberGreaterThanFactory_id : forall def r,
  numberGreaterThanFactory def = OK r ->
  match def with
  | NumberSchema _ =>
      forall x, r = Some x -> rule_id x = "number-gt" \/ rule_id x = "number-gte"
  | _ => r = None
  end.
Proof.
  intros def r H. unfold numberGreaterThanFactory in H.
  factory_cases H; try reflexivity; intros x [= <-] || intros x [=].
  destruct (opt_truthy _); [now left | now right].
Qed.

Lemma numberLessThanFactory_id : forall def r,
  numberLessThanFactory def = OK r ->
  match def with
  | NumberSchema _ =>
      forall x, r = Some x -> rule_id x = "number-lt" \/ rule_id x = "number-lte"
  | _ => r = None
  end.
Proof.
  intros def r H. unfold numberLessThanFactory in H.
  factory_cases H; try reflexivity; intros x [= <-] || intros x [=].
  destruct (opt_truthy _); [now left | now right].
Qed.

Lemma arrayMaxItemsFactory_id : forall def r,
  arrayMaxItemsFactory def = OK r ->
  match def with
  | ArraySchema _ => forall x, r = Some x -> rule_id x = "array-max-items"
  | _ => r = None
  end.
Proof.
  intros def r H. unfold arrayMaxItemsFactory in H.
  factory_cases H; try reflexivity; intros x [= <-] || intros x [=]; reflexivity.
Qed.

Lemma arrayMinItemsFactory_id : forall def r,
  arrayMinItemsFactory def = OK r ->
  match def with
  | ArraySchema _ => forall x, r = Some x -> rule_id x = "array-min-items"
  | _ => r = None
  end.
Proof.
  intros def r H. unfold arrayMinItemsFactory in H.
  factory_cases H; try reflexivity; intros x [= <-] || intros x [=]; reflexivity.
Qed.

Lemma arrayUniqueItemsFactory_id : forall def r,
  arrayUniqueItemsFactory def = OK r ->
  match def with
  | ArraySchema _ => forall x, r = Some x -> rule_id x = "array-unique-items"
  | _ => r = None
  end.
Proof.
  intros def r H. unfold arrayUniqueItemsFactory in H.
  factory_cases H; try reflexivity; intros x [= <-] || intros x [=]; reflexivity.
Qed.

Lemma run_factories_OK : forall def rules,
  run_factories factories def = OK rules ->
  exists e f mx mn p mo gt lt amx amn au,
    stringEnumFactory def = OK e /\
    stringFormatFactory def = OK f /\
    stringMaxLengthFactory def = OK mx /\
    stringMinLengthFactory def = OK mn /\
    stringPatternFactory def = OK p /\
    numberMultipleOfFactory def = OK mo /\
    numberGreaterThanFactory def = OK gt /\
    numberLessThanFactory def = OK lt /\
    arrayMaxItemsFactory def = OK amx /\
    arrayMinItemsFactory def = OK amn /\
    arrayUniqueItemsFactory def = OK au /\
    rules = (optional e ++ optional f ++ optional mx ++ optional mn ++ optional p
             ++ optional mo ++ optional gt ++ optional lt
             ++ optional amx ++ optional amn ++ optional au)%list.
Proof.
  intros def rules H. unfold run_factories, factories in H. cbn [rmap] in H.
  destruct (stringEnumFactory def) as [e|]; [|discriminate].
  destruct (stringFormatFactory def) as [f|]; [|discriminate].
  destruct (stringMaxLengthFactory def) as [mx|]; [|discriminate].
  destruct (stringMinLengthFactory def) as [mn|]; [|discriminate].
  destruct (stringPatternFactory def) as [p|]; [|discriminate].
  destruct (numberMultipleOfFactory def) as [mo|]; [|discriminate].
  destruct (numberGreaterThanFactory def) as [gt|]; [|discriminate].
  destruct (numberLessThanFactory def) as [lt|]; [|discriminate].
  destruct (arrayMaxItemsFactory def) as [amx|]; [|discriminate].
  destruct (arrayMinItemsFactory def) as [amn|]; [|discriminate].
  destruct (arrayUniqueItemsFactory def) as [au|]; [|discriminate].
  cbn in H. injection H as <-.
  exists e, f, mx, mn, p, mo, gt, lt, amx, amn, au.
  repeat (split; [reflexivity|]).
  unfold optional. now rewrite app_nil_r.
Qed.

Ltac rule_ids :=
  repeat match goal with
    | H : forall x, Some ?r = Some x -> _ |- _ => specialize (H r eq_refl)
    | H : forall x, None = Some x -> _ |- _ => clear H
    | H : _ \/ _ |- _ => destruct H
    end.

Ltac rules_checked :=
  cbn [optional app map];
  split;
  [ repeat match goal with H : rule_id _ = _ |- _ => rewrite H end;
    repeat constructor; cbn; intuition discriminate
  | split; [|exact I];
    repeat constructor;
    match goal with
    | H : rule_id ?x = _ |- context [rule_id ?x] => rewrite H; reflexivity
    end ].

Lemma run_factories_ids :
  forall (def : SchemaNodeUnion) (rules : list ValidationRule),
  run_factories factories def = OK rules ->
  NoDup (map rule_id rules) /\
  Forall (fun r => startsWith (rule_id r) (rule_prefix def) = true) rules /\
  match def with
  | BooleanSchema _ | ObjectSchema _ => rules = []
  | _ => True
  end.
Proof.
  intros def rules H.
  destruct (run_factories_OK def rules H)
    as (e & f & mx & mn & p & mo & gt & lt & amx & amn & au
        & He & Hf & Hmx & Hmn & Hp & Hmo & Hgt & Hlt & Hamx & Hamn & Hau & ->).
  apply stringEnumFactory_id in He. apply stringFormatFactory_id in Hf.
  apply stringMaxLengthFactory_id in Hmx. apply stringMinLengthFactory_id in Hmn.
  apply stringPatternFactory_id in Hp. apply numberMultipleOfFactory_id in Hmo.
  apply numberGreaterThanFactory_id in Hgt. apply numberLessThanFactory_id in Hlt.
  apply arrayMaxItemsFactory_id in Hamx. apply arrayMinItemsFactory_id in Hamn.
  apply arrayUniqueItemsFactory_id in Hau.
  destruct def as [node|node|node|node|node]; subst; cbn [rule_prefix].
  - destruct e, f, mx, mn, p; rule_ids; rules_checked.
  - destruct mo, gt, lt; rule_ids; rules_checked.
  - now split; [constructor | split; [constructor|]].
  - destruct amx, amn, au; rule_ids; rules_checked.
  - now split; [constructor | split; [constructor|]].
Qed.

(** X12: the rules the factories produce for a schema carry pairwise
    different ids, each id starts with the prefix of the variant of the
    schema ([string-], [number-], [array-]), and a boolean or object
    schema gets no rule from them. *)
Theorem validation_rules_by_variant :
  forall (def : SchemaNodeUnion) (rules : list ValidationRule),
  run_factories factories def = OK rules ->
  NoDup (map rule_id rules) /\
  Forall (fun r => startsWith (rule_id r) (rule_prefix def) = true) rules /\
  match def with
  | BooleanSchema _ | ObjectSchema _ => rules = []
  | _ => True
  end.
Proof. exact run_factories_ids. Qed.

(** The rules of a number schema with both bounds. *)
Lemma validation_rules_by_variant_witness :
  exists rules,
    run_factories factories (NumberSchema bounded_number_schema) = OK rules /\
    map rule_id rules = ["number-gt"; "number-lt"] /\
    NoDup (map rule_id rules) /\
    Forall (fun r => startsWith (rule_id r) "number-" = true) rules.
Proof.
  destruct (run_factories factories (NumberSchema bounded_number_schema))
    as [rules|e] eqn:Hrun.
  - exists rules. split; [reflexivity|].
    destruct (validation_rules_by_variant _ _ Hrun) as (Hnodup & Hprefix & _).
    split; [|split; assumption].
    vm_compute in Hrun. now injection Hrun as <-.
  - vm_compute in Hrun. discriminate Hrun.
Defined.

Lemma run_factories_not_required : forall def rules,
  run_factories factories def = OK rules -> ~ In Required rules.
Proof.
  intros def rules H Hin.
  destruct (run_factories_ids def rules H) as (_ & Hprefix & Hnone).
  rewrite Forall_forall in Hprefix. specialize (Hprefix Required Hin).
  destruct def; discriminate Hprefix.
Qed.

(** X13: the [required] rule. It is among the rules only when the flag
    handed to [parseRules] is truthy, it never occurs after the head of
    the list, and with a truthy flag the list is either empty or led by
    it; the empty list is what an array schema whose [items] cannot be
    classified gets, whatever the flag. *)
Theorem required_rule_leads :
  forall (schema : ASTNode) (def : SchemaOrParameter) (required : option Lit)
         (rules : list ValidationRule),
  parseRules schema def required = OK rules ->
  (In Required rules -> opt_truthy required = true) /\
  ~ In Required (tl rules) /\
  (opt_truthy required = true -> rules = [] \/ hd_error rules = Some Required) /\
  (forall node items,
      def = IsSchema (ArraySchema node) ->
      ArraySchemaNode.items node = OK (Some items) ->
      resolveSchema schema items = OK None ->
      rules = []).
Proof.
  intros schema def required rules H. unfold parseRules in H.
  destruct (parseSchema schema (Some def)) as [[s|]|] eqn:Hs; cbn [rbind] in H;
    [| |discriminate].
  - destruct (run_factories factories s) as [localRules|] eqn:Hlocal;
      cbn [rbind] in H; [|discriminate].
    pose proof (run_factories_not_required _ _ Hlocal) as Hnot.
    destruct (match s with ArraySchema node => ArraySchemaNode.items node
                      | _ => OK None end) as [[items|]|] eqn:Hitems;
      cbn [rbind] in H; [| |discriminate].
    + destruct (resolveSchema schema items) as [[itemsSchema|]|] eqn:Hres;
        cbn [rbind] in H; [| |discriminate].
      * destruct (run_factories factories itemsSchema) as [itemRules|] eqn:Hitem;
          cbn [rbind] in H; [|discriminate].
        pose proof (run_factories_not_required _ _ Hitem) as Hnot'.
        assert (Hall : ~ In Required (localRules ++ itemRules)%list)
          by (intros Hin; apply in_app_or in Hin; tauto).
        injection H as <-.
        destruct (opt_truthy required); cbn [tl hd_error].
        -- repeat split; auto. intros node items' -> Hi Hr.
           cbn [parseSchema] in Hs. injection Hs as <-.
           rewrite Hi in Hitems. injection Hitems as <-. congruence.
        -- repeat split; try tauto; try discriminate.
           ++ intros Hin. apply Hall. destruct (localRules ++ itemRules)%list; [exact Hin|now right].
           ++ intros node items' -> Hi Hr.
              cbn [parseSchema] in Hs. injection Hs as <-.
              rewrite Hi in Hitems. injection Hitems as <-. congruence.
      * injection H as <-. cbn. repeat split; auto.
    + injection H as <-.
      destruct (opt_truthy required); cbn [tl hd_error].
      * repeat split; auto. intros node items' -> Hi Hr.
        cbn [parseSchema] in Hs. injection Hs as <-. congruence.
      * repeat split; try tauto; try discriminate.
        -- intros Hin. apply Hnot. destruct localRules; [exact Hin|now right].
        -- intros node items' -> Hi Hr.
           cbn [parseSchema] in Hs. injection Hs as <-. congruence.
  - injection H as <-. destruct (opt_truthy required); cbn.
    + repeat split; auto. intros node items -> _ _. discriminate Hs.
    + repeat split; try tauto; try discriminate.
Qed.

(** A required number schema with both bounds. *)
Lemma required_rule_leads_witness :
  exists rules,
    parseRules (Object []) (IsSchema (NumberSchema bounded_number_schema))
               (Some (LBoolean true)) = OK rules /\
    hd_error rules = Some Required /\
    ~ In Required (tl rules).
Proof.
  destruct (parseRules (Object []) (IsSchema (NumberSchema bounded_number_schema))
                       (Some (LBoolean true))) as [rules|e] eqn:Hrun.
  - exists rules. split; [reflexivity|].
    destruct (required_rule_leads _ _ _ _ Hrun) as (_ & Htail & _).
    split; [|exact Htail].
    vm_compute in Hrun. now injection Hrun as <-.
  - vm_compute in Hrun. discriminate Hrun.
Defined.

(** ** Types *)

Lemma toSchemaOrRef_classified : forall value x,
  toSchemaOrRef value = OK (Some x) -> well_classified x.
Proof.
  intros [value|] x H; [|discriminate]. unfold toSchemaOrRef in H.
  destruct (isRef value); [injection H as <-; exact I|].
  destruct value as [v|cs|children]; try discriminate.
  destruct (find_child children "type") as [[[t|n|b|]|cs|cs]|] eqn:Ht;
    try discriminate.
  - destruct (String.eqb_spec t "string") as [->|_];
      [injection H as <-; exact Ht|].
    destruct (String.eqb_spec t "number") as [->|_];
      [injection H as <-; right; exact Ht|].
    destruct (String.eqb_spec t "integer") as [->|_];
      [injection H as <-; left; exact Ht|].
    destruct (String.eqb_spec t "boolean") as [->|_];
      [injection H as <-; exact Ht|].
    destruct (String.eqb_spec t "array") as [->|_];
      [injection H as <-; exact Ht|].
    destruct (String.eqb_spec t "object") as [->|_];
      [injection H as <-; left; exact Ht|discriminate].
  - injection H as <-. right. exact Ht.
Qed.

Lemma resolveSchema_classified : forall root ref s,
  resolveSchema root (RefNode ref) = OK (Some s) -> declares_variant s.
Proof.
  intros root ref s H. unfold resolveSchema in H.
  destruct (resolveRefNode root ref) as [node|]; cbn [rbind] in H; [|discriminate].
  destruct node as [v|cs|children]; try discriminate.
  destruct (find_child children "type") as [[[t|n|b|]|cs|cs]|] eqn:Ht;
    try discriminate.
  - destruct (String.eqb_spec t "string") as [->|_];
      [injection H as <-; exact Ht|].
    destruct (String.eqb_spec t "integer") as [->|_];
      [injection H as <-; left; exact Ht|].
    destruct (String.eqb_spec t "number") as [->|_];
      [injection H as <-; right; exact Ht|].
    destruct (String.eqb_spec t "boolean") as [->|_];
      [injection H as <-; exact Ht|].
    destruct (String.eqb_spec t "array") as [->|_];
      [injection H as <-; exact Ht|].
    destruct (String.eqb_spec t "object") as [->|_];
      [injection H as <-; left; exact Ht|discriminate].
  - injection H as <-. right. exact Ht.
Qed.

Lemma opt_value_format : forall node v,
  opt_value (getLiteral node "format") = OK v ->
  forall f, strict_equals v (Some (LString f)) = format_is node f.
Proof.
  intros node v H f. unfold format_is, getLiteral, getChild in *.
  destruct (getProperty node "format") as [[l|cs|cs]|]; try discriminate.
  - injection H as <-. now destruct l.
  - injection H as <-. reflexivity.
Qed.

Lemma parseStringName_table : forall node name,
  getProperty node "type" = Some (Literal (LString "string")) ->
  parseStringName node = OK name ->
  name = (if format_is node "date" then LString "date"
          else if format_is node "date-time" then LString "date-time"
          else LString "string").
Proof.
  intros node name Ht H. unfold parseStringName in H.
  unfold StringSchemaNode.format, StringSchemaNode.type in H.
  destruct (opt_value (getLiteral node "format")) as [format|] eqn:Hf;
    cbn [rbind] in H; [|discriminate].
  rewrite !(opt_value_format node format Hf) in H.
  destruct (format_is node "date"); [now injection H as <-|].
  destruct (format_is node "date-time"); [now injection H as <-|].
  unfold getLiteral, getChild in H. rewrite Ht in H. now injection H as <-.
Qed.

Lemma parseNumberName_table : forall node name,
  parseNumberName node = OK name ->
  (getProperty node "type" = Some (Literal (LString "integer")) ->
   name = (if format_is node "int64" then LString "long" else LString "integer")) /\
  (getProperty node "type" = Some (Literal (LString "number")) ->
   name = (if format_is node "float" then LString "float"
           else if format_is node "double" then LString "double"
           else LString "number")).
Proof.
  intros node name H. unfold parseNumberName in H.
  unfold NumberSchemaNode.format, NumberSchemaNode.type in H.
  split; intros Ht; unfold getLiteral at 1, getChild at 1 in H; rewrite Ht in H;
    cbn [bang_value LiteralNode_value rbind strict_equals String.eqb Ascii.eqb
         Bool.eqb] in H;
    destruct (opt_value (getLiteral node "format")) as [format|] eqn:Hf;
    cbn [rbind] in H; try discriminate;
    rewrite !(opt_value_format node format Hf) in H.
  - unfold format_is in *.
    destruct (getProperty node "format") as [[[f|n|b|]|cs|cs]|];
      try now injection H as <-.
    destruct (String.eqb f "int32") eqn:E32;
      [apply String.eqb_eq in E32; subst f; now injection H as <-|].
    destruct (String.eqb f "int64"); now injection H as <-.
  - destruct (format_is node "float"); [now injection H as <-|].
    destruct (format_is node "double"); now injection H as <-.
Qed.

(** X14: the names of primitive types. A string schema is named [date]
    or [date-time] after its [format] and [string] otherwise; an integer
    schema is named [long] for the format [int64] and [integer]
    otherwise; a number schema is named [float] or [double] after its
    format and [number] otherwise. *)
Theorem format_type_names : forall node : ASTNode,
  (forall name,
      getProperty node "type" = Some (Literal (LString "string")) ->
      parseStringName node = OK name ->
      name = (if format_is node "date" then LString "date"
              else if format_is node "date-time" then LString "date-time"
              else LString "string")) /\
  (forall name,
      getProperty node "type" = Some (Literal (LString "integer")) ->
      parseNumberName node = OK name ->
      name = (if format_is node "int64" then LString "long"
              else LString "integer")) /\
  (forall name,
      getProperty node "type" = Some (Literal (LString "number")) ->
      parseNumberName node = OK name ->
      name = (if format_is node "float" then LString "float"
              else if format_is node "double" then LString "double"
              else LString "number")).
Proof.
  intros node. split; [|split].
  - apply parseStringName_table.
  - intros name Ht H. now apply (parseNumberName_table node name H).
  - intros name Ht H. now apply (parseNumberName_table node name H).
Qed.

Lemma primitive_string_names : forall node name,
  getProperty node "type" = Some (Literal (LString "string")) ->
  parseStringName node = OK name -> In name primitive_names.
Proof.
  intros node name Ht H. rewrite (parseStringName_table node name Ht H).
  destruct (format_is node "date"); [cbn; tauto|].
  destruct (format_is node "date-time"); cbn; tauto.
Qed.

Lemma primitive_number_names : forall node name,
  declares_variant (NumberSchema node) ->
  parseNumberName node = OK name -> In name primitive_names.
Proof.
  intros node name Ht H. destruct (parseNumberName_table node name H) as [Hi Hn].
  destruct Ht as [Ht|Ht].
  - rewrite (Hi Ht). destruct (format_is node "int64"); cbn; tauto.
  - rewrite (Hn Ht). destruct (format_is node "float"); [cbn; tauto|].
    destruct (format_is node "double"); cbn; tauto.
Qed.

(** X15: when [parseType] returns a primitive type for a schema whose
    variant agrees with its declared [type], or for a reference, the name
    of the type is one of [string], [date], [date-time], [integer],
    [long], [number], [float], [double] and [boolean]. *)
Theorem primitive_type_vocabulary :
  forall (ext : Externals) (schema : ASTNode) (fuel : nat)
         (schemaOrRef : SchemaOrRef) (localName parentName : Lit)
         (s : ParserState) (x : TypedValue) (s' : ParserState),
  well_classified schemaOrRef ->
  parseType ext schema fuel schemaOrRef localName parentName s = OK (x, s') ->
  isPrimitive x = true ->
  In (typeName x) primitive_names.
Proof.
  intros ext schema fuel.
  induction fuel as [|fuel IH];
    intros schemaOrRef localName parentName s x s' Hwc H Hprim;
    [discriminate H|].
  cbn [parseType] in H. destruct schemaOrRef as [def|ref].
  - run_step H. destruct def as [node|node|node|node|node]; cbn in Hwc.
    + run_step H. destruct a0 as [members|].
      * repeat run_step H. discriminate Hprim.
      * repeat run_step H. cbn.
        eapply primitive_string_names; eauto.
    + repeat run_step H. cbn.
      eapply primitive_number_names; eauto.
    + repeat run_step H. cbn.
      unfold BooleanSchemaNode.type, getLiteral, getChild in Hrun0.
      rewrite Hwc in Hrun0. injection Hrun0 as <-. cbn. tauto.
    + run_step H. destruct a0 as [items|]; [|discriminate H].
      repeat run_step H. cbn in *.
      eapply IH; [|eassumption|exact Hprim].
      eapply toSchemaOrRef_classified. eassumption.
    + repeat run_step H; discriminate Hprim.
  - run_step H. run_step H. destruct a as [def|]; [|discriminate H].
    pose proof (resolveSchema_classified _ _ _ Hrun) as Hdef.
    destruct a0 as [target|n|b|]; try discriminate H.
    destruct (startsWith target components_schemas_prefix).
    + destruct def as [node|node|node|node|node].
      * run_step H. destruct a as [members|].
        -- repeat run_step H. discriminate Hprim.
        -- eapply IH; [|exact H|exact Hprim]. exact Hdef.
      * eapply IH; [|exact H|exact Hprim]. exact Hdef.
      * eapply IH; [|exact H|exact Hprim]. exact Hdef.
      * eapply IH; [|exact H|exact Hprim]. exact Hdef.
      * repeat run_step H. discriminate Hprim.
    + repeat run_step H. discriminate Hprim.
Qed.

(** An integer schema of format [int64]. *)
Lemma primitive_type_vocabulary_witness :
  exists x s',
    parseType example_ext (Object []) 3 (Item (NumberSchema int64_schema))
              (LString "id") (LString "pet") new_OAS3Parser = OK (x, s') /\
    typeName x = LString "long" /\
    In (typeName x) primitive_names.
Proof.
  destruct (parseType example_ext (Object []) 3 (Item (NumberSchema int64_schema))
                      (LString "id") (LString "pet") new_OAS3Parser)
    as [[x s']|e] eqn:Hrun.
  - exists x, s'. split; [reflexivity|].
    pose proof (primitive_type_vocabulary _ _ _ _ _ _ _ _ _
                  (or_introl eq_refl : well_classified (Item (NumberSchema int64_schema)))
                  Hrun) as Hin.
    vm_compute in Hrun. injection Hrun as <- <-.
    split; [reflexivity | exact (Hin eq_refl)].
  - vm_compute in Hrun. discriminate Hrun.
Defined.

(** X16: the typed value of a schema written in place is flagged as an
    array exactly when the schema is an array schema; an array takes the
    type name and the primitive flag of its items, parsed one level
    deeper, so that an array of arrays is reported like an array of the
    innermost items, and it carries neither a default nor a constant. *)
Theorem arrays_take_the_type_of_their_items :
  forall (ext : Externals) (schema : ASTNode) (fuel : nat) (def : SchemaNodeUnion)
         (localName parentName : Lit) (s : ParserState) (x : TypedValue)
         (s' : ParserState),
  parseType ext schema fuel (Item def) localName parentName s = OK (x, s') ->
  isArray_ x = is_array_schema def /\
  (is_array_schema def = true ->
   exists items y,
     ArraySchemaNode.items (schema_node def) = OK (Some items) /\
     parseType ext schema (Nat.pred fuel) items localName parentName s = OK (y, s') /\
     typeName x = typeName y /\
     isPrimitive x = isPrimitive y /\
     default x = None /\
     constant x = None).
Proof.
  intros ext schema fuel def localName parentName s x s' H.
  destruct fuel as [|fuel]; [discriminate H|]. cbn [parseType] in H.
  run_bind H as rules s1 Hrules. apply lift_OK in Hrules.
  destruct Hrules as [Hrules ->].
  destruct def as [node|node|node|node|node]; cbn [is_array_schema].
  - run_step H. destruct a; repeat run_step H; split; (reflexivity || discriminate).
  - repeat run_step H; split; (reflexivity || discriminate).
  - repeat run_step H; split; (reflexivity || discriminate).
  - run_bind H as items s1 Hitems. apply lift_OK in Hitems.
    destruct Hitems as [Hitems ->].
    destruct items as [items|]; [|discriminate H].
    run_bind H as y s1 Hy. apply ret_OK in H. destruct H as [-> ->].
    split; [reflexivity|]. intros _. exists items, y. cbn [Nat.pred schema_node].
    repeat split; assumption.
  - repeat run_step H; split; (reflexivity || discriminate).
Qed.

(** An array of arrays of strings. *)
Lemma arrays_take_the_type_of_their_items_witness :
  exists x s',
    parseType example_ext (Object []) 4 (Item (ArraySchema nested_array_schema))
              (LString "tags") (LString "pet") new_OAS3Parser = OK (x, s') /\
    typeName x = LString "string" /\
    isArray_ x = true /\
    exists items y,
      ArraySchemaNode.items nested_array_schema = OK (Some items) /\
      parseType example_ext (Object []) 3 items (LString "tags") (LString "pet")
                new_OAS3Parser = OK (y, s') /\
      typeName x = typeName y /\
      isPrimitive x = isPrimitive y /\
      default x = None /\
      constant x = None.
Proof.
  destruct (parseType example_ext (Object []) 4 (Item (ArraySchema nested_array_schema))
                      (LString "tags") (LString "pet") new_OAS3Parser)
    as [[x s']|e] eqn:Hrun.
  - exists x, s'. split; [reflexivity|].
    destruct (arrays_take_the_type_of_their_items _ _ _ _ _ _ _ _ _ Hrun)
      as [Harray Hitems].
    split; [vm_compute in Hrun; now injection Hrun as <- _|].
    split; [exact Harray | exact (Hitems eq_refl)].
  - vm_compute in Hrun. discriminate Hrun.
Defined.

Lemma ref_value_isRef : forall ref v, ref_value ref = OK v -> isRef ref = true.
Proof.
  intros ref v H. unfold ref_value, getLiteral, getChild, getProperty in H.
  destruct ref as [l|cs|children]; try discriminate H. simpl.
  induction children as [|[k c] rest IH]; [discriminate H|].
  simpl in *. destruct (String.eqb k "$ref"); [reflexivity|]. now apply IH.
Qed.

Lemma resolveRefNode_value : forall root ref target,
  ref_value ref = OK (LString target) ->
  resolveRefNode root ref = resolveRef root target.
Proof. intros root ref target H. unfold resolveRefNode. now rewrite H. Qed.

(** X17: a reference [#/components/schemas/name] to an object schema is
    a type by name: [parseType] returns the non-primitive type [name] with
    the rules of the schema, does not descend into the schema and leaves
    the arrays of the class as they are. *)
Theorem reference_to_component_object :
  forall (ext : Externals) (schema : ASTNode) (fuel : nat) (ref node : ASTNode)
         (name : string) (localName parentName : Lit) (s : ParserState),
  ref_value ref = OK (LString ("#/components/schemas/" ++ name)) ->
  resolveSchema schema (RefNode ref) = OK (Some (ObjectSchema node)) ->
  parseType ext schema (S fuel) (RefNode ref) localName parentName s =
  match parseRules schema (IsSchema (ObjectSchema node)) None with
  | OK rules => OK (non_primitive (LString name) rules, s)
  | Throw e => Throw e
  end.
Proof.
  intros ext schema fuel ref node name localName parentName s Href Hres.
  cbn [parseType]. unfold bind at 1. unfold lift at 1. rewrite Hres.
  unfold bind at 1. unfold lift at 1. rewrite Href.
  change components_schemas_prefix with "#/components/schemas/".
  rewrite startsWith_append, substring_from_append.
  assert (Hrange : refRange schema ("#/components/schemas/" ++ name) = OK tt).
  { unfold refRange. unfold resolveSchema in Hres.
    rewrite (resolveRefNode_value _ _ _ Href) in Hres.
    destruct (resolveRef schema ("#/components/schemas/" ++ name));
      [reflexivity | discriminate Hres]. }
  unfold bind at 1. unfold lift at 1. rewrite Hrange.
  unfold bind, lift, ret.
  now destruct (parseRules schema (IsSchema (ObjectSchema node)) None).
Qed.

(** The reference to the component [fooResponse]. *)
Lemma reference_to_component_object_witness :
  parseType example_ext shadowed_document 1
            (RefNode (Object [("$ref", Literal (LString "#/components/schemas/fooResponse"))]))
            (LString "response") (LString "foo") new_OAS3Parser
  = OK (non_primitive (LString "fooResponse") [], new_OAS3Parser).
Proof.
  rewrite (reference_to_component_object example_ext shadowed_document 0
             (Object [("$ref", Literal (LString "#/components/schemas/fooResponse"))])
             (Object [("type", Literal (LString "object"))])
             "fooResponse" (LString "response") (LString "foo") new_OAS3Parser
             eq_refl eq_refl).
  reflexivity.
Defined.

(** X18: a component schema that is an array of itself is never parsed:
    whatever the depth allowed, [parseType] on a reference to it ends in
    an exception. *)
Theorem recursive_array_never_returns :
  forall (ext : Externals) (schema ref node : ASTNode) (target : string),
  ref_value ref = OK (LString target) ->
  startsWith target "#/components/schemas/" = true ->
  resolveRef schema target = OK node ->
  getProperty node "type" = Some (Literal (LString "array")) ->
  getProperty node "items" = Some ref ->
  forall (fuel : nat) (localName parentName : Lit) (s : ParserState),
  exists e,
    parseType ext schema fuel (RefNode ref) localName parentName s = Throw e.
Proof.
  intros ext schema ref node target Href Hprefix Hresolve Htype Hitems.
  assert (Hres : resolveSchema schema (RefNode ref) = OK (Some (ArraySchema node))).
  { unfold resolveSchema. rewrite (resolveRefNode_value _ _ _ Href), Hresolve.
    cbn [rbind]. destruct node as [v|cs|children]; try discriminate Htype.
    cbn [getProperty] in Htype. rewrite Htype. reflexivity. }
  assert (Hit : ArraySchemaNode.items node = OK (Some (RefNode ref))).
  { unfold ArraySchemaNode.items. rewrite Hitems. unfold toSchemaOrRef.
    now rewrite (ref_value_isRef _ _ Href). }
  assert (Hboth : forall fuel localName parentName s,
             (exists e, parseType ext schema fuel (RefNode ref)
                                  localName parentName s = Throw e) /\
             (exists e, parseType ext schema fuel (Item (ArraySchema node))
                                  localName parentName s = Throw e)).
  { induction fuel as [|fuel IH]; intros localName parentName s.
    - split; eexists; reflexivity.
    - split.
      + cbn [parseType]. unfold bind at 1. unfold lift at 1. rewrite Hres.
        unfold bind at 1. unfold lift at 1. rewrite Href.
        change components_schemas_prefix with "#/components/schemas/".
        rewrite Hprefix. apply IH.
      + cbn [parseType]. unfold bind at 1. unfold lift at 1.
        destruct (parseRules schema (IsSchema (ArraySchema node)) None) as [rules|e];
          [|eexists; reflexivity].
        unfold bind at 1. unfold lift at 1. rewrite Hit.
        unfold bind at 1.
        destruct (IH localName parentName s) as [[e He] _]. rewrite He.
        eexists; reflexivity. }
  intros fuel localName parentName s. apply Hboth.
Qed.

(** The component [Tree], an array of [Tree]. *)
Lemma recursive_array_never_returns_witness :
  exists e,
    parseType example_ext recursive_array_document 1000
              (RefNode (Object [("$ref", Literal (LString "#/components/schemas/Tree"))]))
              (LString "response") (LString "listTrees") new_OAS3Parser
    = Throw e.
Proof.
  exact (recursive_array_never_returns example_ext recursive_array_document
           (Object [("$ref", Literal (LString "#/components/schemas/Tree"))])
           (Object [("type", Literal (LString "array"));
                    ("items",
                     Object [("$ref", Literal (LString "#/components/schemas/Tree"))])])
           "#/components/schemas/Tree"
           eq_refl eq_refl eq_refl eq_refl eq_refl
           1000 (LString "response") (LString "listTrees") new_OAS3Parser).
Defined.

(** ** What the methods do to the arrays of the class *)

Lemma appends_refl : forall (A : Type) (l : list A), appends l l.
Proof. intros A l. exists []. now rewrite app_nil_r. Qed.

Lemma appends_trans : forall (A : Type) (a b c : list A),
  appends a b -> appends b c -> appends a c.
Proof.
  intros A a b c [x ->] [y ->]. exists (x ++ y)%list. now rewrite app_assoc.
Qed.

Lemma appends_one : forall (A : Type) (l : list A) x, appends l (l ++ [x]).
Proof. intros A l x. now exists [x]. Qed.

Lemma defines_refl : forall s, defines s s.
Proof. intros s. repeat split; apply appends_refl. Qed.

Lemma defines_trans : forall a b c, defines a b -> defines b c -> defines a c.
Proof.
  intros a b c (Hv & He & Ht & Hu) (Hv' & He' & Ht' & Hu').
  repeat split; [congruence | eapply appends_trans; eauto ..].
Qed.

Lemma warns_refl : forall s, warns s s.
Proof. intros s. exists []. split; [now rewrite app_nil_r | constructor]. Qed.

Lemma warns_trans : forall a b c, warns a b -> warns b c -> warns a c.
Proof.
  intros a b c (x & Hx & Wx) (y & Hy & Wy).
  exists (x ++ y)%list. split; [rewrite Hy, Hx; now rewrite app_assoc|].
  apply Forall_app; auto.
Qed.

Lemma defines_warns : forall s s', defines s s' -> warns s s'.
Proof.
  intros s s' (Hv & _). exists []. split; [now rewrite app_nil_r | constructor].
Qed.

Section Keeps.

Variable R : ParserState -> ParserState -> Prop.
Hypothesis R_refl : forall s, R s s.
Hypothesis R_trans : forall a b c, R a b -> R b c -> R a c.

Lemma keeps_ret : forall (A : Type) (a : A), keeps R (ret a).
Proof. intros A a s x s' H. apply ret_OK in H. destruct H as [_ ->]. apply R_refl. Qed.

Lemma keeps_lift : forall (A : Type) (r : result A), keeps R (lift r).
Proof. intros A r s x s' H. apply lift_OK in H. destruct H as [_ ->]. apply R_refl. Qed.

Lemma keeps_throw : forall (A : Type) (e : string), keeps R (@throw A e).
Proof. intros A e s x s' H. discriminate H. Qed.

Lemma keeps_bind : forall (A B : Type) (m : M A) (k : A -> M B),
  keeps R m -> (forall a, keeps R (k a)) -> keeps R (bind m k).
Proof.
  intros A B m k Hm Hk s b s' H. apply bind_OK in H.
  destruct H as (a & s1 & H1 & H2). eapply R_trans; [eapply Hm | eapply Hk]; eauto.
Qed.

Lemma keeps_mapM : forall (A B : Type) (f : A -> M B) (l : list A),
  (forall x, keeps R (f x)) -> keeps R (mapM f l).
Proof.
  intros A B f l Hf. induction l as [|x xs IH]; cbn [mapM].
  - apply keeps_ret.
  - apply keeps_bind; [apply Hf|]. intros y.
    apply keeps_bind; [apply IH|]. intros ys. apply keeps_ret.
Qed.

End Keeps.

Lemma keeps_weaken : forall (A : Type) (m : M A),
  keeps defines m -> keeps warns m.
Proof. intros A m H s a s' Hrun. apply defines_warns. eapply H; eauto. Qed.

Lemma push_enum_defines : forall e, keeps defines (push_enum e).
Proof.
  intros e s a s' H. injection H as _ <-. repeat split; simpl;
    (apply appends_refl || apply appends_one).
Qed.

Lemma push_anonymousType_defines : forall t, keeps defines (push_anonymousType t).
Proof.
  intros e s a s' H. injection H as _ <-. repeat split; simpl;
    (apply appends_refl || apply appends_one).
Qed.

Lemma push_union_defines : forall u, keeps defines (push_union u).
Proof.
  intros e s a s' H. injection H as _ <-. repeat split; simpl;
    (apply appends_refl || apply appends_one).
Qed.

Lemma push_violation_warns : forall message,
  parser_warning (unsupported_feature message) ->
  keeps warns (push_violation (unsupported_feature message)).
Proof.
  intros message Hw s a s' H. injection H as _ <-. simpl.
  exists [unsupported_feature message]. split; [reflexivity|].
  constructor; [exact Hw | constructor].
Qed.

Ltac keeps_defines IH :=
  repeat first
    [ apply (keeps_ret defines defines_refl)
    | apply (keeps_lift defines defines_refl)
    | apply keeps_throw
    | apply push_enum_defines
    | apply push_anonymousType_defines
    | apply push_union_defines
    | apply IH
    | apply (keeps_mapM defines defines_refl defines_trans); intros ?
    | apply (keeps_bind defines defines_trans); [|intros ?]
    | match goal with
      | |- keeps _ (match ?x with _ => _ end) => destruct x
      | |- keeps _ (if ?c then _ else _) => destruct c
      end ].

Lemma parseType_parseProperties_defines : forall ext schema fuel,
  (forall schemaOrRef localName parentName,
      keeps defines (parseType ext schema fuel schemaOrRef localName parentName)) /\
  (forall properties required allOf parentName,
      keeps defines
            (parseProperties ext schema fuel properties required allOf parentName)).
Proof.
  intros ext schema fuel. induction fuel as [|fuel [IHt IHp]].
  - split; intros; apply keeps_throw.
  - split; intros.
    + cbn [parseType]. keeps_defines IHt; keeps_defines IHp.
    + cbn [parseProperties]. keeps_defines IHt; keeps_defines IHp.
Qed.

Lemma parseType_defines : forall ext schema fuel schemaOrRef localName parentName,
  keeps defines (parseType ext schema fuel schemaOrRef localName parentName).
Proof. intros. apply parseType_parseProperties_defines. Qed.

Lemma parseProperties_defines :
  forall ext schema fuel properties required allOf parentName,
  keeps defines (parseProperties ext schema fuel properties required allOf parentName).
Proof. intros. apply parseType_parseProperties_defines. Qed.

(** X19: [parseType] records no warning: when it returns, [violations]
    is as it was, and [enums], [anonymousTypes] and [unions] are as they
    were with, possibly, new entries at their end. *)
Theorem parseType_leaves_violations :
  forall (ext : Externals) (schema : ASTNode) (fuel : nat)
         (schemaOrRef : SchemaOrRef) (localName parentName : Lit)
         (s : ParserState) (x : TypedValue) (s' : ParserState),
  parseType ext schema fuel schemaOrRef localName parentName s = OK (x, s') ->
  violations s' = violations s /\
  appends (enums s) (enums s') /\
  appends (anonymousTypes s) (anonymousTypes s') /\
  appends (unions s) (unions s').
Proof.
  intros ext schema fuel schemaOrRef localName parentName s x s' H.
  exact (parseType_defines _ _ _ _ _ _ _ _ _ H).
Qed.

(** A string schema with an [enum]: one enum is added. *)
Lemma parseType_leaves_violations_witness :
  exists x s',
    parseType example_ext (Object []) 3 (Item (StringSchema color_enum_schema))
              (LString "color") (LString "pet") new_OAS3Parser = OK (x, s') /\
    enums s' = [{| enum_name := "petColor";
                   enum_values := [LString "red"; LString "green"] |}] /\
    violations s' = violations new_OAS3Parser /\
    appends (enums new_OAS3Parser) (enums s') /\
    appends (anonymousTypes new_OAS3Parser) (anonymousTypes s') /\
    appends (unions new_OAS3Parser) (unions s').
Proof.
  destruct (parseType example_ext (Object []) 3 (Item (StringSchema color_enum_schema))
                      (LString "color") (LString "pet") new_OAS3Parser)
    as [[x s']|e] eqn:Hrun.
  - exists x, s'. split; [reflexivity|]. split.
    + vm_compute in Hrun. now injection Hrun as _ <-.
    + exact (parseType_leaves_violations _ _ _ _ _ _ _ _ _ Hrun).
  - vm_compute in Hrun. discriminate Hrun.
Defined.

(** ** Properties and component types *)

Lemma read_property_defined : forall properties name,
  In name (keys properties) -> PropertiesNode.read properties name <> OK None.
Proof.
  intros properties name Hin. unfold PropertiesNode.read.
  destruct properties as [v|cs|children]; try contradiction.
  cbn [getProperty keys] in *.
  destruct (find_child children name) as [value|] eqn:Hfind.
  - destruct (toSchemaOrRef_defined value) as [[x ->] | ->]; discriminate.
  - apply find_child_None in Hfind. contradiction.
Qed.

(** X20: the properties [parseProperties] returns. Without [allOf] they
    are named by the keys of [properties], in document order. With [allOf]
    they are named, member after member, by the keys of the [properties]
    of the node each member resolves to: the [properties] of the schema
    itself are left out, and so is an [allOf] inside a member. *)
Theorem property_names_in_document_order :
  forall (ext : Externals) (schema : ASTNode) (fuel : nat)
         (properties : option ASTNode) (required : option (list ASTNode))
         (allOf : option (list SchemaOrRef)) (parentName : string)
         (s : ParserState) (props : list Property) (s' : ParserState),
  parseProperties ext schema fuel properties required allOf parentName s
  = OK (props, s') ->
  map property_name props =
  match allOf with
  | None => keys_of properties
  | Some subDefs => flat_map (member_property_names schema) subDefs
  end.
Proof.
  intros ext schema fuel properties required allOf parentName s props s' H.
  assert (Hown : forall fuel properties required s props s',
             parseProperties ext schema fuel properties required None parentName s
             = OK (props, s') ->
             map property_name props = keys_of properties).
  { clear. intros fuel properties required s props s' H.
    destruct fuel as [|fuel]; [discriminate H|]. cbn [parseProperties] in H.
    repeat run_step H.
    rewrite <- (flat_map_singleton _ (keys_of properties)).
    eapply mapM_concat_names; [|exact Hrun0].
    intros k s1 y s2 Hin Hk. cbn beta in Hk.
    destruct properties as [p|]; [|contradiction].
    repeat run_step Hk; try reflexivity.
    exfalso. eapply (read_property_defined p k Hin). eassumption. }
  destruct allOf as [subDefs|]; [|now apply (Hown fuel properties required s props s')].
  destruct fuel as [|fuel]; [discriminate H|]. cbn [parseProperties] in H.
  repeat run_step H.
  eapply mapM_concat_names; [|exact Hrun].
  intros subDef s1 y s2 _ Hsub. cbn beta in Hsub.
  unfold member_property_names.
  repeat run_step Hsub. rewrite Hrun0. eapply Hown. exact Hsub.
Qed.

(** The component [Pet]: its own property [ignored] is left out. *)
Lemma property_names_in_document_order_witness :
  exists props s',
    parseProperties example_ext composed_document 5
      (Some (Object [("ignored", Object [("type", Literal (LString "string"))])]))
      None
      (Some [RefNode (Object [("$ref", Literal (LString "#/components/schemas/Base"))]);
             Item (ObjectSchema
                     (Object [("properties",
                               Object [("name", Object [("type", Literal (LString "string"))])])]))])
      "Pet" new_OAS3Parser = OK (props, s') /\
    map property_name props = ["id"; "name"].
Proof.
  destruct (parseProperties example_ext composed_document 5
      (Some (Object [("ignored", Object [("type", Literal (LString "string"))])]))
      None
      (Some [RefNode (Object [("$ref", Literal (LString "#/components/schemas/Base"))]);
             Item (ObjectSchema
                     (Object [("properties",
                               Object [("name", Object [("type", Literal (LString "string"))])])]))])
      "Pet" new_OAS3Parser) as [[props s']|e] eqn:Hrun.
  - exists props, s'. split; [reflexivity|].
    rewrite (property_names_in_document_order _ _ _ _ _ _ _ _ _ _ Hrun).
    reflexivity.
  - vm_compute in Hrun. discriminate Hrun.
Defined.

Lemma object_definitions :
  forall schema names entries definitions,
  Forall2 (fun name entry => (let? node := getSchema schema name in OK (name, node))
                             = OK entry) names entries ->
  Forall2 (fun (entry : string * option SchemaNodeUnion) y =>
             match snd entry with
             | None => Throw TypeError
             | Some (ObjectSchema node) => OK [(fst entry, node)]
             | Some _ => OK []
             end = OK y) entries definitions ->
  map fst (concat definitions) = filter (object_component schema) names.
Proof.
  intros schema names entries definitions Hentries.
  revert definitions.
  induction Hentries as [|name entry names entries Hentry _ IH];
    intros definitions Hdefs; inversion Hdefs; subst; [reflexivity|].
  cbn [concat filter]. rewrite map_app, (IH _ H3).
  unfold object_component.
  destruct (getSchema schema name) as [node|]; cbn [rbind] in Hentry;
    [|discriminate]. injection Hentry as <-. cbn [fst snd] in H1.
  destruct node as [[n|n|n|n|n]|]; try discriminate H1;
    injection H1 as <-; reflexivity.
Qed.

(** X21: [parseDefinitions] returns one type for each key of
    [components.schemas] that is classified as an object schema, named by
    the key, in document order; the other component schemas give no
    type. *)
Theorem component_object_types :
  forall (ext : Externals) (schema : ASTNode) (fuel : nat) (s : ParserState)
         (types : list Type_) (s' : ParserState),
  parseDefinitions ext schema fuel s = OK (types, s') ->
  map type_name types =
  filter (object_component schema) (keys_of (getSchemas schema)).
Proof.
  intros ext schema fuel s types s' H. unfold parseDefinitions in H.
  destruct (getSchemas schema) as [schemas|] eqn:Hschemas.
  - run_step H. run_step H. cbn [keys_of].
    apply rmap_OK in Hrun, Hrun0.
    rewrite <- (object_definitions schema _ _ _ Hrun Hrun0).
    eapply mapM_names; [|exact H].
    intros k s1 y s2 Hk. cbn beta in Hk. repeat run_step Hk. reflexivity.
  - apply ret_OK in H. destruct H as [-> _]. reflexivity.
Qed.

(** Of the components [Base], [Color] and [Pet], [Color] is a string. *)
Lemma component_object_types_witness :
  exists types s',
    parseDefinitions example_ext composed_document 5 new_OAS3Parser = OK (types, s') /\
    map type_name types = ["Base"; "Pet"].
Proof.
  destruct (parseDefinitions example_ext composed_document 5 new_OAS3Parser)
    as [[types s']|e] eqn:Hrun.
  - exists types, s'. split; [reflexivity|].
    rewrite (component_object_types _ _ _ _ _ _ Hrun). reflexivity.
  - vm_compute in Hrun. discriminate Hrun.
Defined.

(** ** Interfaces *)

Section Operations.

Context {A : Type}.
Variable body : string -> string -> ASTNode -> M (option A).

Lemma path_item_operations : forall path pathItem ks s rs s',
  mapM (fun verb =>
          if String.eqb verb "parameters" || startsWith verb "x-"
          then ret None
          else
            let* operation :=
              lift (match pathItem with
                    | Item n => PathItemNode.member n verb
                    | RefNode n => RefNode.member n verb
                    end) in
            body path verb operation) ks s = OK (rs, s') ->
  exists perVerb rs',
    rmap (fun verb =>
            if String.eqb verb "parameters" || startsWith verb "x-"
            then OK None
            else
              let? operation :=
                match pathItem with
                | Item n => PathItemNode.member n verb
                | RefNode n => RefNode.member n verb
                end in
              OK (Some (path, verb, operation))) ks = OK perVerb /\
    mapM (on_operation body) (defined perVerb) s = OK (rs', s') /\
    defined rs = defined rs'.
Proof.
  intros path pathItem ks. induction ks as [|verb ks IH]; intros s rs s' H.
  - apply ret_OK in H. destruct H as [-> ->]. exists [], []. repeat split.
  - cbn [mapM] in H. run_bind H as r s1 Hr. run_bind H as rs1 s2 Hrs.
    apply ret_OK in H. destruct H as [-> ->].
    destruct (IH _ _ _ Hrs) as (perVerb & rs' & Hgen & Hrun & Hdef).
    cbn [rmap]. rewrite Hgen.
    destruct (String.eqb verb "parameters" || startsWith verb "x-").
    + apply ret_OK in Hr. destruct Hr as [-> ->].
      exists (None :: perVerb), rs'. repeat split; auto.
    + run_bind Hr as operation t Hop. apply lift_OK in Hop.
      destruct Hop as [Hop ->]. rewrite Hop. cbn [rbind].
      exists (Some (path, verb, operation) :: perVerb), (r :: rs').
      split; [reflexivity|]. split.
      * change (defined (Some (path, verb, operation) :: perVerb))
          with ((path, verb, operation) :: defined perVerb).
        cbn [mapM]. unfold bind at 1. unfold on_operation at 1. cbn [fst snd].
        rewrite Hr. unfold bind at 1. rewrite Hrun. reflexivity.
      * change (r :: rs1) with ([r] ++ rs1)%list.
        change (r :: rs') with ([r] ++ rs')%list.
        now rewrite !defined_app, Hdef.
Qed.

Lemma forAllOperations_allOperations : forall schema s results s',
  forAllOperations schema body s = OK (results, s') ->
  exists operations rs,
    allOperations schema = OK operations /\
    mapM (on_operation body) operations s = OK (rs, s') /\
    results = defined rs.
Proof.
  intros schema s results s' H. unfold forAllOperations, allOperations in *.
  destruct (OpenAPINode.paths schema) as [paths|]; [|discriminate H].
  run_bind H as perPath s1 Hpaths. apply ret_OK in H. destruct H as [-> ->].
  revert s perPath s1 Hpaths. induction (keys paths) as [|path ks IH];
    intros s perPath s' H.
  - apply ret_OK in H. destruct H as [-> ->]. exists [], []. repeat split.
  - cbn [mapM] in H. run_bind H as r s1 Hr. run_bind H as rs1 s2 Hrs.
    apply ret_OK in H. destruct H as [-> ->].
    destruct (IH _ _ _ Hrs) as (operations & rs & Hgen & Hrun & Hdef).
    destruct (rmap _ ks) as [perPath'|] eqn:Hrest; cbn [rbind] in Hgen;
      [|discriminate Hgen]. injection Hgen as <-.
    cbn [rmap]. destruct (PathsNode.read paths path) as [pathItem|];
      [|discriminate Hr].
    run_bind Hr as perVerb t Hverbs. apply ret_OK in Hr. destruct Hr as [-> ->].
    destruct (path_item_operations _ _ _ _ _ _ Hverbs)
      as (generated & rs' & Hgenerated & Hrun' & Hdef').
    rewrite Hgenerated. cbn [rbind]. rewrite Hrest. cbn [rbind concat].
    exists (defined generated ++ concat perPath')%list, (rs' ++ rs)%list.
    split; [reflexivity|]. split.
    + eapply mapM_app_intro; eassumption.
    + rewrite defined_app, <- Hdef', <- Hdef. reflexivity.
Qed.

End Operations.

Lemma forAllOperations_visits :
  forall schema (A : Type) (body : string -> string -> ASTNode -> M (option A))
         s results s',
  forAllOperations schema body s = OK (results, s') ->
  forall paths path pathItem verb,
  OpenAPINode.paths schema = Some paths ->
  In path (keys paths) ->
  PathsNode.read paths path = Some pathItem ->
  In verb (match pathItem with Item n | RefNode n => keys n end) ->
  skipped_key verb = false ->
  exists operation s1 r s2,
    match pathItem with
    | Item n => PathItemNode.member n verb
    | RefNode n => RefNode.member n verb
    end = OK operation /\
    body path verb operation s1 = OK (r, s2) /\
    (forall x, r = Some x -> In x results).
Proof.
  intros schema A body s results s' H paths path pathItem verb Hpaths Hpath Hread
         Hverb Hskip.
  unfold forAllOperations in H. rewrite Hpaths in H.
  repeat run_step H.
  destruct (mapM_In _ _ _ _ _ _ _ path Hrun Hpath) as (t1 & ys & t2 & Hys & Hin).
  cbn beta in Hys. rewrite Hread in Hys. repeat run_step Hys.
  destruct (mapM_In _ _ _ _ _ _ _ verb Hrun0 Hverb) as (u1 & r & u2 & Hr & Hinr).
  cbn beta in Hr. unfold skipped_key in Hskip. rewrite Hskip in Hr.
  run_step Hr.
  exists a1, u1, r, u2. repeat split; auto.
  intros x ->. apply in_concat. exists (defined a0). split; [exact Hin|].
  now apply In_defined.
Qed.

Lemma forAllOperations_state :
  forall schema (A : Type) (body : string -> string -> ASTNode -> M (option A))
         s results s',
  (forall path verb operation t r t',
      body path verb operation t = OK (r, t') -> t' = t) ->
  forAllOperations schema body s = OK (results, s') ->
  s' = s.
Proof.
  intros schema A body s results s' Hbody H. unfold forAllOperations in H.
  destruct (OpenAPINode.paths schema) as [paths|]; [|discriminate H].
  repeat run_step H.
  eapply mapM_lift_state; [|exact Hrun].
  intros path t ys t' Hys. cbn beta in Hys.
  destruct (PathsNode.read paths path) as [pathItem|]; [|discriminate Hys].
  repeat run_step Hys.
  eapply mapM_lift_state; [|exact Hrun0].
  intros verb u r u' Hr. cbn beta in Hr.
  destruct (_ || _); repeat run_step Hr; [reflexivity|].
  eapply Hbody. eassumption.
Qed.

Lemma same_value_zero_refl : forall v, same_value_zero v v = true.
Proof.
  intros [[s|n|b|]|]; cbn.
  - apply String.eqb_refl.
  - unfold PrimFloat.is_nan. now destruct (PrimFloat.eqb n n).
  - now destruct b.
  - reflexivity.
  - reflexivity.
Qed.

Lemma existsb_app_l : forall (A : Type) (p : A -> bool) a b,
  existsb p a = true -> existsb p (a ++ b) = true.
Proof. intros A p a b H. rewrite existsb_app, H. reflexivity. Qed.

Lemma set_values_keeps : forall values seen v,
  existsb (same_value_zero v) seen = true ->
  existsb (same_value_zero v) (set_values values seen) = true.
Proof.
  induction values as [|w rest IH]; intros seen v H; cbn [set_values]; [exact H|].
  destruct (existsb (same_value_zero w) seen); apply IH; [exact H|].
  now apply existsb_app_l.
Qed.

Lemma set_values_covers : forall values seen v,
  In v values -> existsb (same_value_zero v) (set_values values seen) = true.
Proof.
  induction values as [|w rest IH]; intros seen v Hin; [destruct Hin|].
  cbn [set_values]. destruct Hin as [->|Hin].
  - destruct (existsb (same_value_zero v) seen) eqn:Hseen.
    + now apply set_values_keeps.
    + apply set_values_keeps. rewrite existsb_app. cbn.
      rewrite same_value_zero_refl. now rewrite orb_true_r.
  - destruct (existsb (same_value_zero w) seen); now apply IH.
Qed.

Lemma distinct_names_snoc : forall seen v,
  distinct_names seen ->
  existsb (same_value_zero v) seen = false ->
  distinct_names (seen ++ [v]).
Proof.
  unfold distinct_names. induction seen as [|a seen IH]; intros v Hd Hv; cbn.
  - constructor; constructor.
  - inversion Hd as [|? ? Ha Hrest]; subst. cbn in Hv.
    apply orb_false_iff in Hv. destruct Hv as [Hva Hv].
    constructor; [|now apply IH].
    apply Forall_app. split; [exact Ha|]. constructor; [exact Hva | constructor].
Qed.

Lemma set_values_distinct : forall values seen,
  distinct_names seen -> distinct_names (set_values values seen).
Proof.
  induction values as [|w rest IH]; intros seen H; cbn [set_values]; [exact H|].
  destruct (existsb (same_value_zero w) seen) eqn:Hw; apply IH; [exact H|].
  now apply distinct_names_snoc.
Qed.

Lemma set_values_sound : forall values seen v,
  In v (set_values values seen) -> In v seen \/ In v values.
Proof.
  induction values as [|w rest IH]; intros seen v H; cbn [set_values] in H;
    [now left|].
  destruct (existsb (same_value_zero w) seen).
  - destruct (IH _ _ H) as [Hs|Hr]; [now left | right; now right].
  - destruct (IH _ _ H) as [Hs|Hr]; [|right; now right].
    apply in_app_or in Hs. destruct Hs as [Hs|[<-|[]]]; [now left|].
    right. now left.
Qed.

Lemma parserInterfaceNames_run : forall schema s names s',
  parserInterfaceNames schema s = OK (names, s') ->
  s' = s /\ distinct_names names /\
  exists all,
    forAllOperations schema
      (fun path _ operation =>
         let* name := lift (parseInterfaceName path operation) in
         ret (Some name)) s = OK (all, s) /\
    names = set_values all [].
Proof.
  intros schema s names s' H. unfold parserInterfaceNames in H.
  run_step H. apply ret_OK in H. destruct H as [-> ->].
  assert (Hs : s0 = s).
  { eapply forAllOperations_state; [|exact Hrun].
    intros path verb operation t r t' Hr. cbn beta in Hr.
    repeat run_step Hr. reflexivity. }
  subst s0. split; [reflexivity|]. split.
  - apply set_values_distinct. constructor.
  - exists a. split; [exact Hrun | reflexivity].
Qed.

Lemma names_of_operations :
  forall (operations : list (string * string * ASTNode)) s rs s',
  mapM (on_operation (fun path (_ : string) operation =>
                        let* name := lift (parseInterfaceName path operation) in
                        ret (Some name))) operations s = OK (rs, s') ->
  Forall2 (fun entry name =>
             parseInterfaceName (fst (fst entry)) (snd entry) = OK name)
          operations (defined rs).
Proof.
  induction operations as [|entry rest IH]; intros s rs s' H.
  - apply ret_OK in H. destruct H as [-> _]. constructor.
  - cbn [mapM] in H. run_bind H as r s1 Hr. run_bind H as rs1 s2 Hrs.
    apply ret_OK in H. destruct H as [-> ->].
    unfold on_operation in Hr. run_bind Hr as name t Hname.
    apply lift_OK in Hname. destruct Hname as [Hname ->].
    apply ret_OK in Hr. destruct Hr as [-> ->].
    change (defined (Some name :: rs1)) with (name :: defined rs1).
    constructor; [exact Hname | eapply IH; eassumption].
Qed.

(** X22: [parserInterfaceNames] leaves the state as it found it and
    returns names that are pairwise different (as a [Set] tells values
    apart). The names are those of the members [allOperations] yields,
    each named by [parseInterfaceName]: every such name is returned, and
    nothing else is. For a path item written in place these members are
    its operations and, named by the path, its [summary], [description]
    and [servers]; for a path item given by reference they are the [$ref]
    literal, named by the path, and not the operations behind the
    reference. In particular the interface name of every operation of a
    path item written in place is returned. *)
Theorem every_operation_has_an_interface :
  forall (schema : ASTNode) (s : ParserState) (names : list (option Lit))
         (s' : ParserState),
  parserInterfaceNames schema s = OK (names, s') ->
  s' = s /\
  distinct_names names /\
  (exists operations all,
      allOperations schema = OK operations /\
      Forall2 (fun entry name =>
                 parseInterfaceName (fst (fst entry)) (snd entry) = OK name)
              operations all /\
      (forall name, In name all ->
                    existsb (same_value_zero name) names = true) /\
      (forall name, In name names -> In name all)) /\
  forall paths path item verb operation,
    OpenAPINode.paths schema = Some paths ->
    In path (keys paths) ->
    PathsNode.read paths path = Some (Item item) ->
    In verb (keys item) ->
    skipped_key verb = false ->
    PathItemNode.member item verb = OK operation ->
    exists name,
      parseInterfaceName path operation = OK name /\
      existsb (same_value_zero name) names = true.
Proof.
  intros schema s names s' H.
  destruct (parserInterfaceNames_run _ _ _ _ H) as (Hs & Hd & all & Hrun & ->).
  split; [exact Hs|]. split; [exact Hd|]. split.
  - destruct (forAllOperations_allOperations _ _ _ _ _ Hrun)
      as (operations & rs & Hops & Hnames & ->).
    exists operations, (defined rs). split; [exact Hops|]. split.
    + eapply names_of_operations. exact Hnames.
    + split.
      * intros name Hin. now apply set_values_covers.
      * intros name Hin. apply set_values_sound in Hin.
        destruct Hin as [[]|Hin]. exact Hin.
  - intros paths path item verb operation Hpaths Hpath Hread Hverb Hskip Hmember.
    destruct (forAllOperations_visits _ _ _ _ _ _ Hrun paths path (Item item) verb
                Hpaths Hpath Hread Hverb Hskip)
      as (operation' & t1 & r & t2 & Hmember' & Hbody & Hin).
    rewrite Hmember in Hmember'. injection Hmember' as <-.
    cbn beta in Hbody. repeat run_step Hbody.
    eexists. split; [eassumption|].
    apply set_values_covers. now apply Hin.
Qed.

(** A path item with a [summary] beside an operation tagged [store]: the
    path names the interface of the summary, the tag that of the
    operation. *)
Lemma every_operation_has_an_interface_witness :
  exists names s',
    parserInterfaceNames described_path_document new_OAS3Parser = OK (names, s') /\
    names = [Some (LString "pets"); Some (LString "store")] /\
    s' = new_OAS3Parser /\
    distinct_names names.
Proof.
  destruct (parserInterfaceNames described_path_document new_OAS3Parser)
    as [[names s']|e] eqn:Hrun.
  - exists names, s'. split; [reflexivity|].
    destruct (every_operation_has_an_interface _ _ _ _ Hrun) as (Hs & Hd & _).
    split; [|split; assumption].
    vm_compute in Hrun. now injection Hrun as <- _.
  - vm_compute in Hrun. discriminate Hrun.
Defined.

(** X23: [parseInterfaces] returns one interface for each interface name
    of the document, in the order of the names, and the name of each
    interface is the singular of that name. *)
Theorem one_interface_per_name :
  forall (ext : Externals) (schema : ASTNode) (fuel : nat) (s : ParserState)
         (interfaces : list Interface) (s' : ParserState),
  parseInterfaces ext schema fuel s = OK (interfaces, s') ->
  exists names,
    parserInterfaceNames schema s = OK (names, s) /\
    distinct_names names /\
    Forall2 (fun name i => singular ext name = OK (interface_name i))
            names interfaces.
Proof.
  intros ext schema fuel s interfaces s' H. unfold parseInterfaces in H.
  run_step H.
  destruct (parserInterfaceNames_run _ _ _ _ Hrun) as (-> & Hd & _).
  exists a. split; [exact Hrun|]. split; [exact Hd|].
  eapply mapM_Forall2; [|exact H].
  intros name t i t' Hi. cbn beta in Hi. repeat run_step Hi. exact Hrun0.
Qed.

(** The interface of the operations under [/pets]. *)
Lemma one_interface_per_name_witness :
  exists interfaces s',
    parseInterfaces example_ext two_parameter_document 5 new_OAS3Parser
    = OK (interfaces, s') /\
    exists names,
      parserInterfaceNames two_parameter_document new_OAS3Parser
      = OK (names, new_OAS3Parser) /\
      distinct_names names /\
      Forall2 (fun name i => singular example_ext name = OK (interface_name i))
              names interfaces.
Proof.
  destruct (parseInterfaces example_ext two_parameter_document 5 new_OAS3Parser)
    as [[interfaces s']|e] eqn:Hrun.
  - exists interfaces, s'. split; [reflexivity|].
    exact (one_interface_per_name _ _ _ _ _ _ Hrun).
  - vm_compute in Hrun. discriminate Hrun.
Defined.

Lemma parseMethods_body_method :
  forall ext schema fuel interfaceName path verb operation s r s',
  parseMethods_body ext schema fuel interfaceName path verb operation s = OK (r, s') ->
  match r with
  | Some method =>
      in_interface interfaceName (path, verb, operation) = true /\
      exists id,
        opt_value (OperationNode.operationId operation) = OK id /\
        method_name method = or_else id (LString "UNNAMED")
  | None => in_interface interfaceName (path, verb, operation) = false
  end.
Proof.
  intros ext schema fuel interfaceName path verb operation s r s' H.
  unfold parseMethods_body in H. unfold in_interface. cbn [fst snd].
  destruct (OpenAPINode.paths schema) as [paths|]; [|discriminate H].
  destruct (PathsNode.read paths path) as [pathItem|]; [|discriminate H].
  run_bind H as pathNode s1 HpathNode. run_bind H as common s2 Hcommon.
  run_bind H as name s3 Hname. apply lift_OK in Hname.
  destruct Hname as [-> ->].
  destruct (strict_equals name interfaceName); cbn [negb] in H.
  - run_bind H as id s4 Hid. apply lift_OK in Hid. destruct Hid as [Hid ->].
    run_bind H as security s5 Hsecurity.
    run_bind H as parameters s6 Hparameters.
    run_bind H as description s7 Hdescription.
    run_bind H as returnType s8 HreturnType.
    apply ret_OK in H. destruct H as [-> ->].
    split; [reflexivity|]. exists id. split; [exact Hid | reflexivity].
  - apply ret_OK in H. destruct H as [-> ->]. reflexivity.
Qed.

(** X24: the methods of an interface are, one for one and in document
    order, those members [allOperations] yields whose interface name is
    strictly equal to the name of the interface; each method is named by
    the [operationId] of its operation, or [UNNAMED]. A member of another
    interface is passed over, whatever it is: a [summary] beside the
    operations does not stop the methods of the other interfaces. *)
Theorem methods_are_the_operations_of_the_interface :
  forall (ext : Externals) (schema : ASTNode) (fuel : nat)
         (interfaceName : option Lit) (s : ParserState) (methods : list Method)
         (s' : ParserState),
  parseMethods ext schema fuel interfaceName s = OK (methods, s') ->
  exists operations,
    allOperations schema = OK operations /\
    Forall2 (fun entry method =>
               exists id,
                 opt_value (OperationNode.operationId (snd entry)) = OK id /\
                 method_name method = or_else id (LString "UNNAMED"))
            (filter (in_interface interfaceName) operations) methods.
Proof.
  intros ext schema fuel interfaceName s methods s' H. unfold parseMethods in H.
  destruct (forAllOperations_allOperations _ _ _ _ _ H)
    as (operations & rs & Hops & Hrun & ->).
  exists operations. split; [exact Hops|].
  eapply mapM_filter; [|exact Hrun].
  intros [[path verb] operation] t y t' Hy. unfold on_operation in Hy.
  cbn [fst snd] in Hy. apply parseMethods_body_method in Hy.
  destruct y; exact Hy.
Qed.

(** With the [summary] beside it, the operation tagged [store] is the one
    method of the interface [store]. *)
Lemma methods_are_the_operations_of_the_interface_witness :
  exists methods s',
    parseMethods example_ext described_path_document 5 (Some (LString "store"))
                 new_OAS3Parser = OK (methods, s') /\
    map method_name methods = [LString "listPets"] /\
    exists operations,
      allOperations described_path_document = OK operations /\
      Forall2 (fun entry method =>
                 exists id,
                   opt_value (OperationNode.operationId (snd entry)) = OK id /\
                   method_name method = or_else id (LString "UNNAMED"))
              (filter (in_interface (Some (LString "store"))) operations) methods.
Proof.
  destruct (parseMethods example_ext described_path_document 5
                         (Some (LString "store")) new_OAS3Parser)
    as [[methods s']|e] eqn:Hrun.
  - exists methods, s'. split; [reflexivity|]. split.
    + vm_compute in Hrun. now injection Hrun as <- _.
    + exact (methods_are_the_operations_of_the_interface _ _ _ _ _ _ _ Hrun).
  - vm_compute in Hrun. discriminate Hrun.
Defined.

Lemma http_verbs_not_extension : forall verb,
  existsb (String.eqb verb) http_verbs = true -> startsWith verb "x-" = false.
Proof.
  intros verb H. unfold http_verbs in H. cbn [existsb] in H.
  repeat (apply orb_true_iff in H; destruct H as [H|H];
          [apply String.eqb_eq in H; subst; reflexivity|]).
  discriminate H.
Qed.

Lemma member_not_extension : forall pathItem verb operation,
  PathItemNode.member pathItem verb = OK operation ->
  startsWith verb "x-" = false.
Proof.
  intros pathItem verb operation H. unfold PathItemNode.member in H.
  destruct (existsb (String.eqb verb) http_verbs) eqn:Hverb;
    [now apply http_verbs_not_extension|].
  destruct (String.eqb_spec verb "summary") as [->|_]; [reflexivity|].
  destruct (String.eqb_spec verb "description") as [->|_]; [reflexivity|].
  cbn [orb] in H.
  destruct (String.eqb_spec verb "servers") as [->|_]; [reflexivity|].
  unfold class_members in H. cbn [existsb] in H.
  destruct (String.eqb_spec verb "nodeType") as [->|_]; [reflexivity|].
  destruct (String.eqb_spec verb "getChildOrRef") as [->|_]; [reflexivity|].
  discriminate H.
Qed.

Lemma member_not_skipped : forall pathItem verb operation,
  PathItemNode.member pathItem verb = OK operation ->
  verb <> "parameters" ->
  skipped_key verb = false.
Proof.
  intros pathItem verb operation H Hne.
  unfold skipped_key. rewrite (member_not_extension _ _ _ H).
  destruct (String.eqb_spec verb "parameters"); [contradiction | reflexivity].
Qed.

Lemma parseHttpProtocol_method_verb :
  forall ext schema fuel interfaceName path pathItem commonParameters verb s r s',
  parseHttpProtocol_method ext schema fuel interfaceName path pathItem
                           commonParameters verb s = OK (r, s') ->
  (verb = "parameters" /\ r = None) \/
  (exists operation,
      verb <> "parameters" /\
      PathItemNode.member pathItem verb = OK operation /\
      match r with
      | Some m => in_interface interfaceName (path, verb, operation) = true /\
                  http_method_verb m = verb
      | None => in_interface interfaceName (path, verb, operation) = false
      end).
Proof.
  intros ext schema fuel interfaceName path pathItem commonParameters verb s r s' H.
  unfold parseHttpProtocol_method in H.
  destruct (String.eqb_spec verb "parameters") as [->|Hne].
  - apply ret_OK in H. destruct H as [-> _]. now left.
  - right. run_bind H as operation s1 Hop. apply lift_OK in Hop.
    destruct Hop as [Hop ->]. exists operation. split; [exact Hne|].
    split; [exact Hop|].
    unfold in_interface. cbn [fst snd].
    run_bind H as name s1 Hname. apply lift_OK in Hname. destruct Hname as [-> ->].
    destruct (strict_equals name interfaceName); cbn [negb] in H.
    + run_bind H as id s1 Hid. run_bind H as code s2 Hcode.
      run_bind H as body s3 Hbody. run_bind H as own s4 Hown.
      run_bind H as others s5 Hothers.
      apply ret_OK in H. destruct H as [-> _]. now split.
    + apply ret_OK in H. destruct H as [-> _]. reflexivity.
Qed.

Lemma http_methods_of_path_item :
  forall ext schema fuel interfaceName path pathItem commonParameters ks s ms s',
  mapM (parseHttpProtocol_method ext schema fuel interfaceName path pathItem
                                 commonParameters) ks s = OK (ms, s') ->
  exists perVerb,
    rmap (fun verb =>
            if String.eqb verb "parameters" then OK None
            else
              let? operation := PathItemNode.member pathItem verb in
              OK (Some (path, verb, operation))) ks = OK perVerb /\
    map (fun m => (path, http_method_verb m)) (defined ms) =
    map (fun entry => fst entry)
        (filter (in_interface interfaceName) (defined perVerb)).
Proof.
  intros ext schema fuel interfaceName path pathItem commonParameters ks.
  induction ks as [|verb ks IH]; intros s ms s' H.
  - apply ret_OK in H. destruct H as [-> _]. exists []. now split.
  - cbn [mapM] in H. run_bind H as r s1 Hr. run_bind H as rs s2 Hrs.
    apply ret_OK in H. destruct H as [-> ->].
    destruct (IH _ _ _ Hrs) as (rest & Hrest & Hnames).
    cbn [rmap]. rewrite Hrest.
    change (r :: rs) with ([r] ++ rs)%list. rewrite defined_app, map_app, Hnames.
    apply parseHttpProtocol_method_verb in Hr.
    destruct Hr as [[-> ->]|(operation & Hne & Hop & Hr)].
    + exists (None :: rest). split; reflexivity.
    + apply String.eqb_neq in Hne. rewrite Hne, Hop. cbn [rbind].
      exists (Some (path, verb, operation) :: rest). split; [reflexivity|].
      change (defined (Some (path, verb, operation) :: rest))
        with ((path, verb, operation) :: defined rest).
      cbn [filter]. destruct r as [m|].
      * destruct Hr as [-> Hverb]. unfold defined at 1. cbn. now rewrite Hverb.
      * rewrite Hr. reflexivity.
Qed.

Lemma members_of_path_item : forall (path : string) pathItem ks perVerb,
  rmap (fun verb =>
          if String.eqb verb "parameters" then OK None
          else
            let? operation := PathItemNode.member pathItem verb in
            OK (Some (path, verb, operation))) ks = OK perVerb ->
  rmap (fun verb =>
          if String.eqb verb "parameters" || startsWith verb "x-"
          then OK None
          else
            let? operation := PathItemNode.member pathItem verb in
            OK (Some (path, verb, operation))) ks = OK perVerb.
Proof.
  intros path pathItem ks. induction ks as [|verb ks IH]; intros perVerb H;
    [exact H|].
  cbn [rmap] in *.
  destruct (String.eqb verb "parameters"); cbn [orb].
  - cbn [rbind] in *. destruct (rmap _ ks) as [rest|] eqn:Hrest;
      [|discriminate H]. now rewrite (IH _ eq_refl).
  - destruct (PathItemNode.member pathItem verb) as [operation|] eqn:Hop;
      [|discriminate H].
    rewrite (member_not_extension _ _ _ Hop). cbn [rbind] in *.
    destruct (rmap _ ks) as [rest|] eqn:Hrest; [|discriminate H].
    now rewrite (IH _ eq_refl).
Qed.

Lemma resolved_members_written_in_place : forall schema members,
  written_in_place schema ->
  resolved_members schema = OK members ->
  allOperations schema = OK members.
Proof.
  intros schema members Hplace H. unfold resolved_members in H.
  unfold allOperations. unfold written_in_place in Hplace.
  destruct (OpenAPINode.paths schema) as [paths|]; [|discriminate H].
  specialize (Hplace paths).
  destruct (rmap _ (keys paths)) as [perPath|] eqn:Hgen; cbn [rbind] in H;
    [|discriminate H]. injection H as <-.
  assert (Hall : forall path, In path (keys paths) ->
                 forall ref, PathsNode.read paths path <> Some (RefNode ref))
    by (intros path Hin ref; now apply Hplace).
  clear Hplace. revert perPath Hgen Hall.
  induction (keys paths) as [|path ks IH]; intros perPath Hgen Hall.
  - injection Hgen as <-. reflexivity.
  - cbn [rmap] in *.
    destruct (PathsNode.read paths path) as [[item|ref]|] eqn:Hread;
      [| exfalso; now apply (Hall path (or_introl eq_refl) ref) | discriminate Hgen].
    cbn [resolve rbind] in Hgen.
    destruct (rmap _ (keys item)) as [perVerb|] eqn:HperVerb; cbn [rbind] in Hgen;
      [|discriminate Hgen].
    rewrite (members_of_path_item _ _ _ _ HperVerb). cbn [rbind].
    destruct (rmap _ ks) as [rest|] eqn:Hrest; cbn [rbind] in Hgen;
      [|discriminate Hgen]. injection Hgen as <-.
    assert (Hks : forall p, In p ks ->
                  forall ref, PathsNode.read paths p <> Some (RefNode ref))
      by (intros p Hp; apply Hall; now right).
    specialize (IH _ eq_refl Hks).
    match type of IH with
    | rbind ?r _ = _ => destruct r as [rest'|]
    end; cbn [rbind] in IH; [|discriminate IH].
    injection IH as IH. cbn [rbind concat]. now rewrite IH.
Qed.

(** X25: the HTTP binding of an interface lists, path by path and in
    document order, the path and the key of exactly those members of the
    resolved path items, [parameters] apart, whose interface name is
    strictly equal to the name of the interface. Where every path item is
    written in place these members are what [allOperations] yields, so
    that the binding lists the operations of the methods of the interface,
    in the same order; behind a path item given by reference the binding
    finds the operations that [allOperations] does not yield. *)
Theorem binding_lists_the_operations_of_the_interface :
  forall (ext : Externals) (schema : ASTNode) (fuel : nat)
         (interfaceName : option Lit) (s : ParserState)
         (httpPaths : list HttpPath) (s' : ParserState),
  parseHttpProtocol ext schema fuel interfaceName s = OK (httpPaths, s') ->
  exists members,
    resolved_members schema = OK members /\
    bound_operations httpPaths =
    map (fun entry => fst entry) (filter (in_interface interfaceName) members) /\
    (written_in_place schema -> allOperations schema = OK members).
Proof.
  intros ext schema fuel interfaceName s httpPaths s' H.
  assert (Hmembers : exists members,
             resolved_members schema = OK members /\
             bound_operations httpPaths =
             map (fun entry => fst entry)
                 (filter (in_interface interfaceName) members)).
  { unfold parseHttpProtocol in H. unfold resolved_members.
    destruct (OpenAPINode.paths schema) as [paths|]; [|discriminate H].
    run_bind H as perPath s1 Hpaths. apply ret_OK in H. destruct H as [-> ->].
    revert s perPath s1 Hpaths.
    induction (keys paths) as [|path ks IH]; intros s perPath s' H.
    - apply ret_OK in H. destruct H as [-> _]. exists []. now split.
    - cbn [mapM] in H. run_bind H as r s1 Hr. run_bind H as rs s2 Hrs.
      apply ret_OK in H. destruct H as [-> ->].
      destruct (IH _ _ _ Hrs) as (rest & Hrest & Hnames).
      destruct (rmap _ ks) as [perPath'|] eqn:HperPath; cbn [rbind] in Hrest;
        [|discriminate Hrest]. injection Hrest as <-.
      cbn [rmap].
      destruct (PathsNode.read paths path) as [itemOrRef|]; [|discriminate Hr].
      run_bind Hr as pathItem t1 Hresolved. apply lift_OK in Hresolved.
      destruct Hresolved as [Hresolved ->]. rewrite Hresolved. cbn [rbind].
      run_bind Hr as common t1 Hcommon. apply lift_OK in Hcommon.
      destruct Hcommon as [_ ->].
      run_bind Hr as methods t1 Hmethods.
      destruct (http_methods_of_path_item _ _ _ _ _ _ _ _ _ _ _ Hmethods)
        as (perVerb & HperVerb & Hpath).
      rewrite HperVerb. cbn [rbind]. rewrite HperPath. cbn [rbind concat].
      eexists. split; [reflexivity|].
      unfold bound_operations in *. cbn [concat].
      rewrite flat_map_app, Hnames, filter_app, map_app. f_equal.
      rewrite <- Hpath.
      destruct (defined methods) as [|m ms]; apply ret_OK in Hr;
        destruct Hr as [-> _]; cbn; [reflexivity|].
      now rewrite app_nil_r. }
  destruct Hmembers as (members & Hmembers & Hbound).
  exists members. split; [exact Hmembers|]. split; [exact Hbound|].
  intros Hplace. now apply resolved_members_written_in_place.
Qed.

(** Behind the reference the binding of the interface [store] finds the
    operation [get], which is not among the members [allOperations]
    yields. *)
Lemma binding_lists_the_operations_of_the_interface_witness :
  exists httpPaths s',
    parseHttpProtocol example_ext referenced_path_document 5
                      (Some (LString "store")) new_OAS3Parser
    = OK (httpPaths, s') /\
    bound_operations httpPaths = [("/pets", "get")] /\
    allOperations referenced_path_document
    = OK [("/pets", "$ref", not_an_operation)] /\
    exists members,
      resolved_members referenced_path_document = OK members /\
      bound_operations httpPaths =
      map (fun entry => fst entry)
          (filter (in_interface (Some (LString "store"))) members).
Proof.
  destruct (parseHttpProtocol example_ext referenced_path_document 5
                              (Some (LString "store")) new_OAS3Parser)
    as [[httpPaths s']|e] eqn:Hrun; [|vm_compute in Hrun; discriminate Hrun].
  exists httpPaths, s'. split; [reflexivity|]. split; [|split].
  - vm_compute in Hrun. now injection Hrun as <- _.
  - reflexivity.
  - destruct (binding_lists_the_operations_of_the_interface _ _ _ _ _ _ _ Hrun)
      as (members & Hmembers & Hbound & _).
    exists members. split; assumption.
Defined.

Lemma parseHttpProtocol_method_key :
  forall ext schema fuel interfaceName path pathItem commonParameters verb s r s',
  parseHttpProtocol_method ext schema fuel interfaceName path pathItem
                           commonParameters verb s = OK (r, s') ->
  startsWith verb "x-" = false.
Proof.
  intros ext schema fuel interfaceName path pathItem commonParameters verb s r s' H.
  unfold parseHttpProtocol_method in H.
  destruct (String.eqb_spec verb "parameters") as [->|_]; [reflexivity|].
  run_step H. eapply member_not_extension. eassumption.
Qed.

Lemma parseHttpProtocol_keys :
  forall ext schema fuel interfaceName s httpPaths s',
  parseHttpProtocol ext schema fuel interfaceName s = OK (httpPaths, s') ->
  forall paths path itemOrRef pathItem key,
  OpenAPINode.paths schema = Some paths ->
  In path (keys paths) ->
  PathsNode.read paths path = Some itemOrRef ->
  resolve schema itemOrRef = OK pathItem ->
  In key (keys pathItem) ->
  startsWith key "x-" = false.
Proof.
  intros ext schema fuel interfaceName s httpPaths s' H
         paths path itemOrRef pathItem key Hpaths Hpath Hread Hresolve Hkey.
  unfold parseHttpProtocol in H. rewrite Hpaths in H. repeat run_step H.
  destruct (mapM_In _ _ _ _ _ _ _ path Hrun Hpath) as (t1 & ys & t2 & Hys & _).
  cbn beta in Hys. rewrite Hread in Hys.
  run_step Hys. rewrite Hresolve in Hrun0. injection Hrun0 as <-.
  run_step Hys. run_step Hys.
  destruct (mapM_In _ _ _ _ _ _ _ key Hrun1 Hkey) as (u1 & r & u2 & Hr & _).
  eapply parseHttpProtocol_method_key. exact Hr.
Qed.

Lemma parseInterfaces_first :
  forall ext schema fuel s interfaces s',
  parseInterfaces ext schema fuel s = OK (interfaces, s') ->
  interfaces <> [] ->
  exists name names methods http s1 s2 s3,
    parserInterfaceNames schema s = OK (name :: names, s1) /\
    parseMethods ext schema fuel name s1 = OK (methods, s2) /\
    parseHttpProtocol ext schema fuel name s2 = OK (http, s3).
Proof.
  intros ext schema fuel s interfaces s' H Hne. unfold parseInterfaces in H.
  run_bind H as names s1 Hnames. destruct names as [|name names].
  - apply ret_OK in H. destruct H as [-> _]. now contradiction Hne.
  - cbn [mapM] in H. run_bind H as i s4 Hi.
    run_bind Hi as single t1 Hsingle. apply lift_OK in Hsingle.
    destruct Hsingle as [_ ->].
    run_bind Hi as methods s2 Hmethods. run_bind Hi as http s3 Hhttp.
    exists name, names, methods, http, s1, s2, s3. auto.
Qed.

Lemma parse_interfaces : forall ext sourcePath schema fuel s service s',
  parse ext sourcePath schema fuel s = OK (service, s') ->
  exists s1 s2,
    reset_arrays s = OK (tt, s1) /\
    parseInterfaces ext schema fuel s1 = OK (service_interfaces service, s2).
Proof.
  intros ext sourcePath schema fuel s service s' H. unfold parse in H.
  run_bind H as u s1 Hreset. run_bind H as interfaces s2 Hinterfaces.
  run_bind H as types s3 Htypes. run_bind H as this s4 Hthis.
  destruct (OpenAPINode.info schema) as [info|]; [|discriminate H].
  repeat run_step H. destruct u. exists s1, s2. auto.
Qed.

(** X26: [allOperations] passes over the [x-...] keys of a path item, the
    loop of [parseHttpProtocol] does not: a parse that returns a service
    with an interface has met no path item with a key that starts with
    [x-]. *)
Theorem path_item_extensions_are_fatal :
  forall (ext : Externals) (sourcePath : string) (schema : ASTNode) (fuel : nat)
         (s : ParserState) (service : Service) (s' : ParserState),
  parse ext sourcePath schema fuel s = OK (service, s') ->
  service_interfaces service <> [] ->
  forall paths path itemOrRef pathItem key,
  OpenAPINode.paths schema = Some paths ->
  In path (keys paths) ->
  PathsNode.read paths path = Some itemOrRef ->
  resolve schema itemOrRef = OK pathItem ->
  In key (keys pathItem) ->
  startsWith key "x-" = false.
Proof.
  intros ext sourcePath schema fuel s service s' H Hne.
  destruct (parse_interfaces _ _ _ _ _ _ _ H) as (s1 & s2 & _ & Hinterfaces).
  destruct (parseInterfaces_first _ _ _ _ _ _ Hinterfaces Hne)
    as (name & names & methods & http & t1 & t2 & t3 & _ & _ & Hhttp).
  eapply parseHttpProtocol_keys. exact Hhttp.
Qed.

(** A document that is parsed: the keys of its path item. *)
Lemma path_item_extensions_are_fatal_witness :
  exists service s',
    parse example_ext "api.json" two_parameter_document 5 new_OAS3Parser
    = OK (service, s') /\
    service_interfaces service <> [] /\
    forall key,
      In key ["parameters"; "get"] -> startsWith key "x-" = false.
Proof.
  destruct (parse example_ext "api.json" two_parameter_document 5 new_OAS3Parser)
    as [[service s']|e] eqn:Hrun.
  - exists service, s'. split; [reflexivity|].
    assert (Hne : service_interfaces service <> []).
    { vm_compute in Hrun. injection Hrun as <- _. discriminate. }
    split; [exact Hne|]. intros key Hkey.
    exact (path_item_extensions_are_fatal _ _ _ _ _ _ _ Hrun Hne
             (Object [("/pets",
                       Object [("parameters", Array [shared_parameter]);
                               ("get",
                                Object [("operationId", Literal (LString "listPets"));
                                        ("parameters", Array [own_parameter]);
                                        ("responses",
                                         Object [("200",
                                                  Object [("description",
                                                           Literal (LString "ok"))])])])])])
             "/pets" _ _ key eq_refl (or_introl eq_refl) eq_refl eq_refl Hkey).
  - vm_compute in Hrun. discriminate Hrun.
Defined.

(** The same operation under a path item with an extension. *)
Example path_item_extension_throws :
  parser example_ext 5 extended_path_document "api.json" = Throw TypeError.
Proof. vm_compute. reflexivity. Qed.

(** ** The driver *)

Lemma existsb_witness : forall (A : Type) (p : A -> bool) l,
  existsb p l = true -> exists x, In x l /\ p x = true.
Proof. intros A p l H. now apply existsb_exists. Qed.

Lemma same_value_zero_strict : forall a b,
  same_value_zero a b = true -> strict_equals a a = true ->
  strict_equals a b = true.
Proof.
  intros [[x|x|x|]|] [[y|y|y|]|]; cbn; try (intros; assumption || discriminate).
  intros H Hx. apply orb_true_iff in H. destruct H as [H|H]; [exact H|].
  unfold PrimFloat.is_nan in H. rewrite Hx in H. discriminate H.
Qed.

Lemma parseInterfaces_methods :
  forall ext schema fuel s interfaces s' names name,
  parseInterfaces ext schema fuel s = OK (interfaces, s') ->
  parserInterfaceNames schema s = OK (names, s) ->
  In name names ->
  exists s1 methods s2, parseMethods ext schema fuel name s1 = OK (methods, s2).
Proof.
  intros ext schema fuel s interfaces s' names name H Hnames Hin.
  unfold parseInterfaces in H. run_bind H as names' s1 Hnames'.
  rewrite Hnames in Hnames'. injection Hnames' as <- <-.
  destruct (mapM_In _ _ _ _ _ _ _ name H Hin) as (t1 & i & t2 & Hi & _).
  cbn beta in Hi. run_bind Hi as single u1 Hsingle.
  apply lift_OK in Hsingle. destruct Hsingle as [_ ->].
  run_bind Hi as methods u2 Hmethods. eauto.
Qed.

Lemma parseReturnType_responses : forall ext schema fuel operation s r s',
  parseReturnType ext schema fuel operation s = OK (r, s') ->
  OperationNode.responses operation <> None.
Proof.
  intros ext schema fuel operation s r s' H Hnone. unfold parseReturnType in H.
  run_bind H as primary s1 Hprimary. apply lift_OK in Hprimary.
  destruct Hprimary as [Hprimary _]. unfold parsePrimaryResponseKey in Hprimary.
  rewrite Hnone in Hprimary. discriminate Hprimary.
Qed.

Lemma parseMethods_body_responses :
  forall ext schema fuel interfaceName path verb operation s r s' name,
  parseMethods_body ext schema fuel interfaceName path verb operation s = OK (r, s') ->
  parseInterfaceName path operation = OK name ->
  strict_equals name interfaceName = true ->
  OperationNode.responses operation <> None.
Proof.
  intros ext schema fuel interfaceName path verb operation s r s' name H Hname Heq.
  unfold parseMethods_body in H.
  destruct (OpenAPINode.paths schema) as [paths|]; [|discriminate H].
  destruct (PathsNode.read paths path) as [pathItem|]; [|discriminate H].
  run_bind H as pathNode s1 HpathNode. run_bind H as common s2 Hcommon.
  run_bind H as name' s3 Hname'. apply lift_OK in Hname'.
  destruct Hname' as [Hname' ->]. rewrite Hname in Hname'. injection Hname' as <-.
  rewrite Heq in H. cbn [negb] in H.
  run_bind H as id s4 Hid. run_bind H as security s5 Hsecurity.
  run_bind H as parameters s6 Hparameters. run_bind H as description s7 Hdescription.
  run_bind H as returnType s8 HreturnType.
  eapply parseReturnType_responses. exact HreturnType.
Qed.

(** X27: what a document must declare for [parse] to return: [paths],
    [info] with a literal [title] and a literal [version], and
    [responses] in every operation (of an interface name that is equal to
    itself, as every name but the number NaN is). *)
Theorem accepted_documents_declare :
  forall (ext : Externals) (sourcePath : string) (schema : ASTNode) (fuel : nat)
         (s : ParserState) (service : Service) (s' : ParserState),
  parse ext sourcePath schema fuel s = OK (service, s') ->
  (exists paths info title version,
      OpenAPINode.paths schema = Some paths /\
      OpenAPINode.info schema = Some info /\
      InfoNode.title info = Some (Literal title) /\
      InfoNode.version info = Some (Literal version)) /\
  (forall paths path item verb operation name,
      OpenAPINode.paths schema = Some paths ->
      In path (keys paths) ->
      PathsNode.read paths path = Some (Item item) ->
      In verb (keys item) ->
      skipped_key verb = false ->
      PathItemNode.member item verb = OK operation ->
      parseInterfaceName path operation = OK name ->
      strict_equals name name = true ->
      OperationNode.responses operation <> None).
Proof.
  intros ext sourcePath schema fuel s service s' H.
  destruct (parse_interfaces _ _ _ _ _ _ _ H) as (s1 & s2 & _ & Hinterfaces).
  assert (Hnames : exists names, parserInterfaceNames schema s1 = OK (names, s1)).
  { unfold parseInterfaces in Hinterfaces.
    run_bind Hinterfaces as names t1 Hnames.
    destruct (parserInterfaceNames_run _ _ _ _ Hnames) as (-> & _).
    now exists names. }
  destruct Hnames as (names & Hnames).
  destruct (parserInterfaceNames_run _ _ _ _ Hnames) as (_ & _ & all & Hall & ->).
  split.
  - unfold parse in H.
    run_bind H as u t1 Hreset. run_bind H as interfaces t2 Hi.
    run_bind H as types t3 Htypes. run_bind H as this t4 Hthis.
    destruct (OpenAPINode.info schema) as [info|]; [|discriminate H].
    run_bind H as title t5 Htitle. run_bind H as title' t6 Htitle'.
    run_bind H as version t7 Hversion.
    apply lift_OK in Htitle, Hversion.
    destruct Htitle as [Htitle _], Hversion as [Hversion _].
    unfold forAllOperations in Hall.
    destruct (OpenAPINode.paths schema) as [paths|]; [|discriminate Hall].
    exists paths, info, title, version. repeat split.
    + unfold bang_value in Htitle.
      destruct (InfoNode.title info) as [[v|cs|cs]|]; try discriminate Htitle.
      now injection Htitle as <-.
    + unfold bang_value in Hversion.
      destruct (InfoNode.version info) as [[v|cs|cs]|]; try discriminate Hversion.
      now injection Hversion as <-.
  - intros paths path item verb operation name Hpaths Hpath Hread Hverb Hskip
           Hmember Hname Hrefl.
    destruct (forAllOperations_visits _ _ _ _ _ _ Hall paths path (Item item) verb
                Hpaths Hpath Hread Hverb Hskip)
      as (operation' & t1 & r & t2 & Hmember' & Hbody & Hin).
    rewrite Hmember in Hmember'. injection Hmember' as <-.
    cbn beta in Hbody. run_bind Hbody as name' t3 Hname'.
    apply lift_OK in Hname'. destruct Hname' as [Hname' ->].
    rewrite Hname in Hname'. injection Hname' as <-.
    apply ret_OK in Hbody. destruct Hbody as [-> _].
    specialize (Hin name eq_refl).
    pose proof (set_values_covers all [] name Hin) as Hcover.
    apply existsb_witness in Hcover. destruct Hcover as (name' & Hin' & Hsame).
    destruct (parseInterfaces_methods _ _ _ _ _ _ _ name' Hinterfaces Hnames Hin')
      as (u1 & methods & u2 & Hmethods).
    unfold parseMethods in Hmethods.
    destruct (forAllOperations_visits _ _ _ _ _ _ Hmethods paths path (Item item)
                verb Hpaths Hpath Hread Hverb Hskip)
      as (operation' & v1 & r & v2 & Hmember' & Hbody & _).
    rewrite Hmember in Hmember'. injection Hmember' as <-.
    eapply parseMethods_body_responses; [exact Hbody | exact Hname |].
    now apply same_value_zero_strict.
Qed.

(** A document that is parsed. *)
Lemma accepted_documents_declare_witness :
  exists service s',
    parse example_ext "api.json" two_parameter_document 5 new_OAS3Parser
    = OK (service, s') /\
    exists paths info title version,
      OpenAPINode.paths two_parameter_document = Some paths /\
      OpenAPINode.info two_parameter_document = Some info /\
      InfoNode.title info = Some (Literal title) /\
      InfoNode.version info = Some (Literal version).
Proof.
  destruct (parse example_ext "api.json" two_parameter_document 5 new_OAS3Parser)
    as [[service s']|e] eqn:Hrun.
  - exists service, s'. split; [reflexivity|].
    exact (proj1 (accepted_documents_declare _ _ _ _ _ _ _ Hrun)).
  - vm_compute in Hrun. discriminate Hrun.
Defined.

Lemma obj_set_first_occurrence : forall (V : Type) (o : JSObject V) k v,
  map fst (obj_set o k v) =
  if existsb (String.eqb k) (map fst o) then map fst o else (map fst o ++ [k])%list.
Proof.
  intros V o k v. induction o as [|[k0 v0] rest IH]; cbn [obj_set map fst existsb].
  - reflexivity.
  - rewrite (String.eqb_sym k k0).
    destruct (String.eqb k0 k); cbn [orb map fst]; [reflexivity|].
    rewrite IH. now destruct (existsb (String.eqb k) (map fst rest)).
Qed.

Lemma by_name_keys : forall (V : Type) (name : V -> string) items (acc : JSObject V),
  map fst (fold_left (fun acc item => obj_set acc (name item) item) items acc) =
  fold_left (fun seen n => if existsb (String.eqb n) seen then seen
                           else (seen ++ [n])%list)
            (map name items) (map fst acc).
Proof.
  intros V name items. induction items as [|x xs IH]; intros acc; cbn [fold_left map].
  - reflexivity.
  - rewrite IH, obj_set_first_occurrence. reflexivity.
Qed.

Lemma plain_keys : forall ks,
  forallb is_plain_key ks = true ->
  index_keys ks = [] /\ filter is_plain_key ks = ks.
Proof.
  induction ks as [|k ks IH]; cbn [forallb index_keys filter]; intros H; [now split|].
  apply andb_true_iff in H. destruct H as [Hk Hks].
  destruct (IH Hks) as [Hi Hf]. rewrite Hk, Hf. unfold is_plain_key in Hk.
  destruct (array_index k); [discriminate Hk | now split].
Qed.

Lemma first_occurrences_from : forall names seen x,
  In x (fold_left (fun seen n => if existsb (String.eqb n) seen then seen
                                 else (seen ++ [n])%list) names seen) ->
  In x seen \/ In x names.
Proof.
  induction names as [|n names IH]; intros seen x H; cbn [fold_left] in H;
    [now left|].
  destruct (IH _ _ H) as [Hin|Hin]; [|right; now right].
  destruct (existsb (String.eqb n) seen); [now left|].
  apply in_app_or in Hin. destruct Hin as [Hin|[<-|[]]]; [now left|right; now left].
Qed.

Lemma Object_values_in_order : forall (V : Type) (name : V -> string) items,
  forallb is_plain_key (map name items) = true ->
  map name (Object_values (by_name name items)) = first_occurrences (map name items).
Proof.
  intros V name items Hplain. rewrite Object_values_names.
  unfold Object_keys, by_name. rewrite by_name_keys. cbn [map].
  fold (first_occurrences (map name items)).
  assert (Hfirst : forallb is_plain_key (first_occurrences (map name items)) = true).
  { apply forallb_forall. intros x Hx.
    destruct (first_occurrences_from _ _ _ Hx) as [[]|Hin].
    rewrite forallb_forall in Hplain. now apply Hplain. }
  destruct (plain_keys _ Hfirst) as [-> ->]. reflexivity.
Qed.

(** X28: the order of the output. When no name is an array index, the
    enums, the unions and the types of the service come in the order in
    which their names were first met during the pass: the enums and the
    unions as they were pushed, the types as the component types followed
    by the anonymous types. *)
Theorem output_in_order_of_first_occurrence :
  forall (ext : Externals) (sourcePath : string) (input : ASTNode) (fuel : nat)
         (service : Service) (this : ParserState),
  parse ext sourcePath input fuel new_OAS3Parser = OK (service, this) ->
  (forallb is_plain_key (map enum_name (enums this)) = true ->
   map enum_name (service_enums service)
   = first_occurrences (map enum_name (enums this))) /\
  (forallb is_plain_key (map union_name (unions this)) = true ->
   map union_name (service_unions service)
   = first_occurrences (map union_name (unions this))) /\
  (exists types before,
      parseDefinitions ext input fuel before = OK (types, this) /\
      (forallb is_plain_key (map type_name (types ++ anonymousTypes this)) = true ->
       map type_name (service_types service)
       = first_occurrences (map type_name (types ++ anonymousTypes this)))).
Proof.
  intros ext sourcePath input fuel service this H.
  destruct (parse_assembles _ _ _ _ _ _ H)
    as (types & before & Hdefs & -> & -> & ->).
  split; [|split].
  - apply Object_values_in_order.
  - apply Object_values_in_order.
  - exists types, before. split; [exact Hdefs|]. apply Object_values_in_order.
Qed.

(** The types of the components [Base] and [Pet]. *)
Lemma output_in_order_of_first_occurrence_witness :
  match parse example_ext "api.json" composed_document 5 new_OAS3Parser with
  | OK (service, this) =>
      map type_name (service_types service) = ["Base"; "Pet"] /\
      exists types before,
        parseDefinitions example_ext composed_document 5 before = OK (types, this) /\
        (forallb is_plain_key (map type_name (types ++ anonymousTypes this)) = true ->
         map type_name (service_types service)
         = first_occurrences (map type_name (types ++ anonymousTypes this)))
  | Throw _ => False
  end.
Proof.
  destruct (parse example_ext "api.json" composed_document 5 new_OAS3Parser)
    as [[service this]|e] eqn:Hrun.
  - destruct (output_in_order_of_first_occurrence _ _ _ _ _ _ Hrun)
      as (_ & _ & Htypes).
    split; [|exact Htypes].
    vm_compute in Hrun. now injection Hrun as <- _.
  - vm_compute in Hrun. discriminate Hrun.
Defined.

Lemma cookie_warning : parser_warning (unsupported_feature cookie_not_supported).
Proof. repeat split. now left. Qed.

Lemma content_warning : parser_warning (unsupported_feature multiple_content_types).
Proof. repeat split. right. now left. Qed.

Lemma style_warning : forall style,
  parser_warning
    (unsupported_feature
       ("Parameter style '" ++ style
        ++ "' is not yet supported. The default 'csv' array style will be used instead.")).
Proof. intros style. repeat split. right. right. now exists style. Qed.

Create HintDb warns.
#[local] Hint Resolve cookie_warning content_warning style_warning : warns.

Ltac keeps_warns :=
  repeat first
    [ apply (keeps_ret warns warns_refl)
    | apply (keeps_lift warns warns_refl)
    | apply keeps_throw
    | apply keeps_weaken; first [apply parseType_defines | apply parseProperties_defines]
    | apply push_violation_warns; solve [auto with warns]
    | solve [auto with warns]
    | apply (keeps_mapM warns warns_refl warns_trans); intros ?
    | apply (keeps_bind warns warns_trans); [|intros ?]
    | match goal with
      | |- keeps _ (match ?x with _ => _ end) => destruct x
      | |- keeps _ (if ?c then _ else _) => destruct c
      end ].

Lemma getSchemaOrRef_warns : forall content, keeps warns (getSchemaOrRef content).
Proof. intros. unfold getSchemaOrRef. keeps_warns. Qed.

Lemma parseArrayStyle_warns : forall ext paramNode,
  keeps warns (parseArrayStyle ext paramNode).
Proof. intros. unfold parseArrayStyle. keeps_warns. Qed.

#[local] Hint Resolve getSchemaOrRef_warns parseArrayStyle_warns : warns.

#[local] Hint Resolve getSchemaOrRef_warns parseArrayStyle_warns : warns.

Lemma parseRequestBody_warns :
  forall ext schema fuel bodyOrRef methodName paramName,
  keeps warns (parseRequestBody ext schema fuel bodyOrRef methodName paramName).
Proof. intros. unfold parseRequestBody. keeps_warns. Qed.

Lemma parseParameter_warns : forall ext schema fuel param methodName,
  keeps warns (parseParameter ext schema fuel param methodName).
Proof. intros. unfold parseParameter. keeps_warns. Qed.

#[local] Hint Resolve parseRequestBody_warns parseParameter_warns : warns.

#[local] Hint Resolve parseRequestBody_warns parseParameter_warns : warns.

Lemma parseParameters_warns : forall ext schema fuel operation commonParameters,
  keeps warns (parseParameters ext schema fuel operation commonParameters).
Proof. intros. unfold parseParameters. keeps_warns. Qed.

Lemma parseReturnType_warns : forall ext schema fuel operation,
  keeps warns (parseReturnType ext schema fuel operation).
Proof. intros. unfold parseReturnType. keeps_warns. Qed.

#[local] Hint Resolve parseParameters_warns parseReturnType_warns : warns.

#[local] Hint Resolve parseParameters_warns parseReturnType_warns : warns.

Lemma forAllOperations_warns :
  forall schema (A : Type) (body : string -> string -> ASTNode -> M (option A)),
  (forall path verb operation, keeps warns (body path verb operation)) ->
  keeps warns (forAllOperations schema body).
Proof. intros schema A body H. unfold forAllOperations. keeps_warns. Qed.

Lemma parseMethods_warns : forall ext schema fuel interfaceName,
  keeps warns (parseMethods ext schema fuel interfaceName).
Proof.
  intros. unfold parseMethods. apply forAllOperations_warns.
  intros path verb operation. unfold parseMethods_body. keeps_warns.
Qed.

Lemma parseHttpProtocol_warns : forall ext schema fuel interfaceName,
  keeps warns (parseHttpProtocol ext schema fuel interfaceName).
Proof.
  intros. unfold parseHttpProtocol, parseHttpProtocol_method,
    parseHttpProtocol_parameter. keeps_warns.
Qed.

Lemma parserInterfaceNames_warns : forall schema,
  keeps warns (parserInterfaceNames schema).
Proof.
  intros. unfold parserInterfaceNames.
  apply (keeps_bind warns warns_trans); [|intros; keeps_warns].
  apply forAllOperations_warns. intros. keeps_warns.
Qed.

#[local] Hint Resolve parseMethods_warns parseHttpProtocol_warns
  parserInterfaceNames_warns : warns.

#[local] Hint Resolve parseMethods_warns parseHttpProtocol_warns parserInterfaceNames_warns : warns.

Lemma parseInterfaces_warns : forall ext schema fuel,
  keeps warns (parseInterfaces ext schema fuel).
Proof. intros. unfold parseInterfaces. keeps_warns. Qed.

Lemma parseDefinitions_warns : forall ext schema fuel,
  keeps warns (parseDefinitions ext schema fuel).
Proof. intros. unfold parseDefinitions. keeps_warns. Qed.

Lemma reset_arrays_warns : keeps warns reset_arrays.
Proof.
  intros s a s' H. injection H as _ <-. exists []. simpl.
  split; [now rewrite app_nil_r | constructor].
Qed.

Lemma get_state_warns : keeps warns get_state.
Proof. intros s a s' H. injection H as _ <-. apply warns_refl. Qed.

#[local] Hint Resolve parseInterfaces_warns parseDefinitions_warns
  reset_arrays_warns get_state_warns : warns.

#[local] Hint Resolve parseInterfaces_warns parseDefinitions_warns reset_arrays_warns get_state_warns : warns.

Lemma parse_warns : forall ext sourcePath schema fuel,
  keeps warns (parse ext sourcePath schema fuel).
Proof. intros. unfold parse. keeps_warns. Qed.

(** X29: every violation the exported [parser] returns is a warning with
    the code [openapi-3/unsupported-feature], about a cookie parameter,
    about further content types or about a parameter style. *)
Theorem parser_violations_are_warnings :
  forall (ext : Externals) (fuel : nat) (input : ASTNode) (sourcePath : string)
         (service : Service) (reported : list Violation),
  parser ext fuel input sourcePath = OK (service, reported) ->
  Forall parser_warning reported.
Proof.
  intros ext fuel input sourcePath service reported H. unfold parser in H.
  destruct (parse ext sourcePath input fuel new_OAS3Parser) as [[sv this]|e] eqn:Hrun;
    [|discriminate].
  injection H as -> <-.
  apply parse_warns in Hrun. destruct Hrun as (added & -> & Hw). exact Hw.
Qed.

(** A cookie parameter and two content types: two warnings. *)
Lemma parser_violations_are_warnings_witness :
  exists service reported,
    parser example_ext 5 cookie_document "api.json" = OK (service, reported) /\
    List.length reported = 2 /\
    Forall parser_warning reported.
Proof.
  destruct (parser example_ext 5 cookie_document "api.json")
    as [[service reported]|e] eqn:Hrun.
  - exists service, reported. split; [reflexivity|]. split.
    + vm_compute in Hrun. now injection Hrun as _ <-.
    + exact (parser_violations_are_warnings _ _ _ _ _ _ Hrun).
  - vm_compute in Hrun. discriminate Hrun.
Defined.
